(** * Quantitative trading backtester: simulator, strategies and metrics

    A shallow embedding of [src/backtester.py], [src/strategy.py] and
    [src/performance.py], with the benchmark that [src/plotting.py] computes
    and the parameter grid of [main.py].

    Numbers.  The Python code computes on IEEE binary64 values (numpy
    [float64]).  Every definition below is written once, over an abstract
    carrier [F] with the operations of the class [FloatOps], and is
    instantiated twice:

    - [B64]: Rocq's primitive binary64 floats.  This instance runs: a
      concrete input is evaluated with the rounding, the infinities and the
      not-a-number value of the hardware.
    - [Ideal]: the extended reals [xreal] (a real number, [+inf], [-inf] or
      [NaN]) with exact arithmetic.  Rounding and the sign of zero are not
      modelled in this instance; theorems stated on it describe the code up
      to rounding.

    Theorems that only depend on the control structure are stated for every
    carrier, some under the closed facts on constants of [FloatConsts] or
    the laws of [FloatLaws], [FloatNan], [FloatOrder], [FloatCompare] and
    [FloatQuotient]; these classes are proved for the two instances (for
    binary64 from the specification of Rocq's primitive floats, the range
    of a drawdown from the fact that rounding to nearest keeps a value
    below a bound below that bound), so these theorems hold for binary64
    as well.  The theorems that need arithmetic that rounding breaks (a
    rising price series, the zero of the maximum drawdown, the Sharpe
    ratio, the growth rate, the count of trades) are stated on [Ideal].
    On binary64 a sum is made from left to right; numpy adds pairwise from
    eight values on and pandas keeps a running sum over a rolling window,
    so the last bits of a sum, of a mean and of a standard deviation can
    differ from the ones the code computes.
    The power [x ** y] of the growth rate is the operation of the class
    [FloatPow], which only [Ideal] has: binary64 has no power that the
    specification of the primitive floats defines.

    Frames.  A pandas [DataFrame] is an index (dates, as day numbers) and an
    ordered list of named columns; index labels are taken to be unique, as
    they are in a [DatetimeIndex] read by [load_data].  A Python [dict] is a
    list of keys and values in insertion order. *)

From Stdlib Require Import Reals Lra Lia ZArith Bool String Arith List.
From Stdlib Require Floats.PrimFloat Floats.SpecFloat Floats.FloatOps.
From Stdlib Require Floats.FloatAxioms Numbers.Cyclic.Int63.Uint63 Sorting.Sorted.
From Stdlib Require Numbers.DecimalString.
Import ListNotations.

Local Open Scope string_scope.
Local Open Scope list_scope.

(** ** Numbers *)

Class FloatOps (F : Type) : Type := {
  f_of_Z : Z -> F;
  fnan : F;
  finf : F;
  fadd : F -> F -> F;
  fsub : F -> F -> F;
  fmul : F -> F -> F;
  fdiv : F -> F -> F;
  fneg : F -> F;
  fabs : F -> F;
  fsqrt : F -> F;
  fltb : F -> F -> bool;
  fleb : F -> F -> bool;
  feqb : F -> F -> bool;
  fisnan : F -> bool
}.

Section Constants.
Context {F : Type} `{FloatOps F}.

Definition fzero : F := f_of_Z 0.
Definition fone : F := f_of_Z 1.
Definition fminus_one : F := fneg (f_of_Z 1).
(** Python's [x > y] is [y < x]. *)
Definition fgtb (x y : F) : bool := fltb y x.
Definition fgeb (x y : F) : bool := fleb y x.
End Constants.

(** *** The binary64 instance *)

Module B64.
(** The float of an integer, through a 63-bit integer: exact for the
    integers of the code (window lengths, counts and constants, all below
    [2^53]); an integer from [2^63] on wraps around. *)
Definition of_Z (z : Z) : PrimFloat.float :=
  match z with
  | Zneg p => PrimFloat.opp (PrimFloat.of_uint63 (Uint63.of_Z (Zpos p)))
  | _ => PrimFloat.of_uint63 (Uint63.of_Z z)
  end.

#[global] Instance ops : FloatOps PrimFloat.float := {|
  f_of_Z := of_Z;
  fnan := PrimFloat.nan;
  finf := PrimFloat.infinity;
  fadd := PrimFloat.add;
  fsub := PrimFloat.sub;
  fmul := PrimFloat.mul;
  fdiv := PrimFloat.div;
  fneg := PrimFloat.opp;
  fabs := PrimFloat.abs;
  fsqrt := PrimFloat.sqrt;
  fltb := PrimFloat.ltb;
  fleb := PrimFloat.leb;
  feqb := PrimFloat.eqb;
  fisnan := PrimFloat.is_nan
|}.
End B64.

(** *** The exact instance: extended reals *)

Inductive xreal : Type :=
| Fin (r : R)
| PInf
| NInf
| NaN.

Module Ideal.
Local Open Scope R_scope.

Definition Rltb (x y : R) : bool := if Rlt_dec x y then true else false.
Definition Rleb (x y : R) : bool := if Rle_dec x y then true else false.
Definition Reqb (x y : R) : bool := if Req_dec_T x y then true else false.

Definition xadd (a b : xreal) : xreal :=
  match a, b with
  | NaN, _ | _, NaN => NaN
  | Fin x, Fin y => Fin (x + y)
  | PInf, NInf | NInf, PInf => NaN
  | PInf, _ | _, PInf => PInf
  | NInf, _ | _, NInf => NInf
  end.

Definition xneg (a : xreal) : xreal :=
  match a with
  | Fin x => Fin (- x)
  | PInf => NInf
  | NInf => PInf
  | NaN => NaN
  end.

Definition xsub (a b : xreal) : xreal :=
  match a, b with
  | Fin x, Fin y => Fin (x - y)
  | _, _ => xadd a (xneg b)
  end.

(** [s * inf] for a finite [s]: the sign of [s] decides, [0 * inf] is NaN. *)
Definition scale_inf (s : R) (pos neg : xreal) : xreal :=
  if Rltb 0 s then pos else if Rltb s 0 then neg else NaN.

Definition xmul (a b : xreal) : xreal :=
  match a, b with
  | NaN, _ | _, NaN => NaN
  | Fin x, Fin y => Fin (x * y)
  | Fin x, PInf | PInf, Fin x => scale_inf x PInf NInf
  | Fin x, NInf | NInf, Fin x => scale_inf x NInf PInf
  | PInf, PInf | NInf, NInf => PInf
  | PInf, NInf | NInf, PInf => NInf
  end.

(** Division by zero gives an infinity of the sign of the numerator, and
    [0 / 0] gives NaN, as numpy does. *)
Definition xdiv (a b : xreal) : xreal :=
  match a, b with
  | NaN, _ | _, NaN => NaN
  | Fin x, Fin y =>
      if Reqb y 0 then scale_inf x PInf NInf else Fin (x / y)
  | Fin _, (PInf | NInf) => Fin 0
  | PInf, Fin y => if Rltb y 0 then NInf else PInf
  | NInf, Fin y => if Rltb y 0 then PInf else NInf
  | (PInf | NInf), (PInf | NInf) => NaN
  end.

Definition xabs (a : xreal) : xreal :=
  match a with
  | Fin x => Fin (Rabs x)
  | PInf | NInf => PInf
  | NaN => NaN
  end.

Definition xsqrt (a : xreal) : xreal :=
  match a with
  | Fin x => if Rltb x 0 then NaN else Fin (R_sqrt.sqrt x)
  | PInf => PInf
  | NInf | NaN => NaN
  end.

Definition xltb (a b : xreal) : bool :=
  match a, b with
  | NaN, _ | _, NaN => false
  | Fin x, Fin y => Rltb x y
  | _, NInf => false
  | NInf, _ => true
  | PInf, _ => false
  | _, PInf => true
  end.

Definition xeqb (a b : xreal) : bool :=
  match a, b with
  | Fin x, Fin y => Reqb x y
  | PInf, PInf | NInf, NInf => true
  | _, _ => false
  end.

Definition xleb (a b : xreal) : bool := xltb a b || xeqb a b.

Definition xisnan (a : xreal) : bool :=
  match a with NaN => true | _ => false end.

#[global] Instance ops : FloatOps xreal := {|
  f_of_Z := fun z => Fin (IZR z);
  fnan := NaN;
  finf := PInf;
  fadd := xadd;
  fsub := xsub;
  fmul := xmul;
  fdiv := xdiv;
  fneg := xneg;
  fabs := xabs;
  fsqrt := xsqrt;
  fltb := xltb;
  fleb := xleb;
  feqb := xeqb;
  fisnan := xisnan
|}.
End Ideal.

(** ** The pandas operations the code uses, on columns of values *)

Section Series.
Context {F : Type} `{FloatOps F}.

Definition f_of_nat (n : nat) : F := f_of_Z (Z.of_nat n).

Fixpoint zip_with {A B C : Type} (f : A -> B -> C)
         (xs : list A) (ys : list B) : list C :=
  match xs, ys with
  | x :: xs', y :: ys' => f x y :: zip_with f xs' ys'
  | _, _ => []
  end.

(** [s.shift(n)]: the values move down by [n] rows, NaN enters on top. *)
Definition shift (n : nat) (xs : list F) : list F :=
  firstn (length xs) (repeat fnan n ++ xs).

(** [s.fillna(v)]. *)
Definition fillna (v : F) (xs : list F) : list F :=
  map (fun x => if fisnan x then v else x) xs.

(** [s.ffill()]: a NaN takes the last value seen above it. *)
Fixpoint ffill_from (last : F) (xs : list F) : list F :=
  match xs with
  | [] => []
  | x :: rest =>
      let y := if fisnan x then last else x in
      y :: ffill_from y rest
  end.

Definition ffill (xs : list F) : list F := ffill_from fnan xs.

(** [s.dropna()]. *)
Definition dropna (xs : list F) : list F :=
  filter (fun x => negb (fisnan x)) xs.

(** [s.replace(old, new)]. *)
Definition replace (old new : F) (xs : list F) : list F :=
  map (fun x => if feqb x old then new else x) xs.

(** [s.loc[mask] = v]. *)
Definition set_where (mask : list bool) (v : F) (xs : list F) : list F :=
  zip_with (fun (m : bool) x => if m then v else x) mask xs.

(** [s.sum()], [s.mean()], [s.std()] and [s.min()]; NaN entries are
    skipped, the sample standard deviation has one degree of freedom
    removed and is NaN on fewer than two values.  The sum adds from left to
    right (numpy adds pairwise from eight values on). *)
Definition series_sum (xs : list F) : F :=
  fold_left fadd (dropna xs) fzero.

Definition mean (xs : list F) : F :=
  let v := dropna xs in
  match v with
  | [] => fnan
  | _ => fdiv (series_sum v) (f_of_nat (length v))
  end.

Definition var (xs : list F) : F :=
  let v := dropna xs in
  let n := length v in
  if (n <=? 1)%nat then fnan
  else
    let avg := fdiv (series_sum v) (f_of_nat n) in
    let sqr := map (fun x => let d := fsub avg x in fmul d d) v in
    fdiv (series_sum sqr) (f_of_nat (n - 1)).

Definition std (xs : list F) : F := fsqrt (var xs).

Definition series_min (xs : list F) : F :=
  match dropna xs with
  | [] => fnan
  | x :: rest => fold_left (fun m y => if fltb y m then y else m) rest x
  end.

(** [s.abs()]. *)
Definition series_abs (xs : list F) : list F := map fabs xs.

(** [s.cummax()]: the running maximum; a NaN row stays NaN and does not
    enter the maximum. *)
Fixpoint cummax_from (best : option F) (xs : list F) : list F :=
  match xs with
  | [] => []
  | x :: rest =>
      if fisnan x then fnan :: cummax_from best rest
      else
        let m := match best with
                 | None => x
                 | Some b => if fltb b x then x else b
                 end in
        m :: cummax_from (Some m) rest
  end.

Definition cummax (xs : list F) : list F := cummax_from None xs.

(** [s.cumprod()]: the running product; a NaN row stays NaN and counts
    as a factor 1. *)
Fixpoint cumprod_from (acc : F) (xs : list F) : list F :=
  match xs with
  | [] => []
  | x :: rest =>
      if fisnan x then fnan :: cumprod_from acc rest
      else
        let p := fmul acc x in
        p :: cumprod_from p rest
  end.

Definition cumprod (xs : list F) : list F :=
  match xs with
  | [] => []
  | x :: rest =>
      if fisnan x then fnan :: cumprod_from fone rest
      else x :: cumprod_from x rest
  end.

(** [s.diff()]. *)
Definition diff (xs : list F) : list F :=
  zip_with fsub xs (shift 1 xs).

(** [s.pct_change(n)]: NaN prices are forward filled first (the default
    [fill_method] of the pandas versions in which the in-place [fillna]
    of [run_backtest] takes effect), then [x[t] / x[t-n] - 1]. *)
Definition pct_change (n : nat) (xs : list F) : list F :=
  let d := ffill xs in
  map (fun q => fsub q fone) (zip_with fdiv d (shift n d)).

(** [s.rolling(window=w, min_periods=minp)]: the window ending at row
    [i] holds rows [i-w+1 .. i]; its statistic is NaN when the window has
    fewer than [minp] values that are not NaN.  Each window is summed on
    its own (pandas updates a running sum from one window to the next, and
    gives a constant window the variance 0). *)
Definition window_at (w i : nat) (xs : list F) : list F :=
  skipn (S i - w) (firstn (S i) xs).

Definition rolling_mean (w minp : nat) (xs : list F) : list F :=
  map (fun i =>
         let v := dropna (window_at w i xs) in
         let n := length v in
         if (minp <=? n)%nat && (0 <? n)%nat
         then fdiv (series_sum v) (f_of_nat n)
         else fnan)
      (seq 0 (length xs)).

Definition rolling_std (w minp : nat) (xs : list F) : list F :=
  map (fun i =>
         let win := window_at w i xs in
         let n := length (dropna win) in
         if (minp <=? n)%nat && (1 <? n)%nat then std win else fnan)
      (seq 0 (length xs)).
End Series.

(** ** Data frames *)

Definition Date : Type := Z.

Record DataFrame (F : Type) : Type := mkFrame {
  index : list Date;
  columns : list (string * list F)
}.

Arguments mkFrame {F} _ _.
Arguments index {F} _.
Arguments columns {F} _.

Section Frames.
Context {F : Type} `{FloatOps F}.

(** [df.empty]: no row or no column. *)
Definition df_empty (df : DataFrame F) : bool :=
  match index df, columns df with
  | [], _ | _, [] => true
  | _, _ => false
  end.

Fixpoint assoc (name : string) (cols : list (string * list F))
  : option (list F) :=
  match cols with
  | [] => None
  | (n, vs) :: rest => if String.eqb name n then Some vs else assoc name rest
  end.

(** [name in df.columns] and [df[name]]. *)
Definition get_col (name : string) (df : DataFrame F) : option (list F) :=
  assoc name (columns df).

Definition col (name : string) (df : DataFrame F) : list F :=
  match get_col name df with
  | Some vs => vs
  | None => []
  end.

(** [df[name] = vs]: an existing column is overwritten in place, a new
    one is appended. *)
Fixpoint assign (name : string) (vs : list F)
         (cols : list (string * list F)) : list (string * list F) :=
  match cols with
  | [] => [(name, vs)]
  | (n, old) :: rest =>
      if String.eqb name n then (n, vs) :: rest
      else (n, old) :: assign name vs rest
  end.

Definition set_col (name : string) (vs : list F) (df : DataFrame F)
  : DataFrame F :=
  mkFrame (index df) (assign name vs (columns df)).

(** The value a column holds at a label. *)
Fixpoint lookup (d : Date) (idx : list Date) (vs : list F) : option F :=
  match idx, vs with
  | i :: idx', v :: vs' => if Z.eqb d i then Some v else lookup d idx' vs'
  | _, _ => None
  end.

Definition at_label (d : Date) (idx : list Date) (vs : list F) : F :=
  match lookup d idx vs with
  | Some v => v
  | None => fnan
  end.


(** [a.intersection(b)] on unique labels: the labels of [a] that [b]
    has, in the order of [a]. *)
Definition index_intersection (a b : list Date) : list Date :=
  filter (fun d => existsb (Z.eqb d) b) a.

(** [df.loc[labels]]. *)
Definition loc (labels : list Date) (df : DataFrame F) : DataFrame F :=
  mkFrame labels
          (map (fun c : string * list F =>
                  (fst c, map (fun d => at_label d (index df) (snd c)) labels))
               (columns df)).

(** [s.first_valid_index()]: the label of the first value that is not
    NaN. *)
Fixpoint first_valid_index (idx : list Date) (vs : list F) : option Date :=
  match idx, vs with
  | i :: idx', v :: vs' =>
      if fisnan v then first_valid_index idx' vs' else Some i
  | _, _ => None
  end.

(** [df.loc[label:]]: the rows from the row of [label] on. *)
Fixpoint position_of (d : Date) (idx : list Date) : nat :=
  match idx with
  | [] => 0
  | i :: idx' => if Z.eqb d i then 0 else S (position_of d idx')
  end.

Definition loc_from (d : Date) (df : DataFrame F) : DataFrame F :=
  let k := position_of d (index df) in
  mkFrame (skipn k (index df))
          (map (fun c : string * list F => (fst c, skipn k (snd c)))
               (columns df)).
End Frames.

(** ** The simulator: [run_backtest] of [src/backtester.py] *)

Section Backtester.
Context {F : Type} `{FloatOps F}.

(** The function applied to the shifted signal:
    [1.0 if x > 0 else (-1.0 if x < 0 and allow_shorting else 0.0)]. *)
Definition position_from_signal (allow_shorting : bool) (x : F) : F :=
  if fgtb x fzero then fone
  else if fltb x fzero && allow_shorting then fminus_one
  else fzero.

(** The body of [run_backtest] between the alignment and the truncation:
    the frame [portfolio] with its columns assigned one by one.  The
    in-place [fillna] of the [strategy_return] column takes effect, as it
    does in pandas before 3.0. *)
Definition build_portfolio (data signals : DataFrame F)
           (initial_capital : F) (allow_shorting : bool) : DataFrame F :=
  let portfolio := mkFrame (index data) [] in
  let portfolio := set_col "Adj Close" (col "Adj Close" data) portfolio in
  let portfolio := set_col "signal" (col "signal" signals) portfolio in
  let portfolio :=
    set_col "position" (map (fun _ => fzero) (index portfolio)) portfolio in
  let portfolio :=
    set_col "market_return"
            (fillna fzero (pct_change 1 (col "Adj Close" portfolio)))
            portfolio in
  let shifted_signal := fillna fzero (shift 1 (col "signal" portfolio)) in
  let portfolio :=
    set_col "position"
            (map (position_from_signal allow_shorting) shifted_signal)
            portfolio in
  let portfolio :=
    set_col "strategy_return"
            (zip_with fmul (col "position" portfolio)
                      (col "market_return" portfolio))
            portfolio in
  let portfolio :=
    set_col "strategy_return"
            (fillna fzero (col "strategy_return" portfolio)) portfolio in
  let portfolio :=
    set_col "cumulative_market"
            (cumprod (map (fadd fone) (col "market_return" portfolio)))
            portfolio in
  let portfolio :=
    set_col "cumulative_strategy"
            (cumprod (map (fadd fone) (col "strategy_return" portfolio)))
            portfolio in
  set_col "equity_curve"
          (map (fmul initial_capital) (col "cumulative_strategy" portfolio))
          portfolio.

(** [run_backtest]; [None] is Python's [None], for an argument as for
    the result. *)
Definition run_backtest (data signals : option (DataFrame F))
           (initial_capital : F) (allow_shorting : bool)
  : option (DataFrame F) :=
  match data, signals with
  | Some data, Some signals =>
      if df_empty data || df_empty signals then None
      else
        match get_col "Adj Close" data with
        | None => None
        | Some _ =>
            match get_col "signal" signals with
            | None => None
            | Some _ =>
                let common_index :=
                  index_intersection (index data) (index signals) in
                match common_index with
                | [] => None
                | _ :: _ =>
                    let data := loc common_index data in
                    let signals := loc common_index signals in
                    let portfolio :=
                      build_portfolio data signals
                                      initial_capital allow_shorting in
                    match first_valid_index
                            (index portfolio)
                            (col "strategy_return" portfolio) with
                    | Some first_valid =>
                        let portfolio := loc_from first_valid portfolio in
                        if df_empty portfolio then None else Some portfolio
                    | None => None
                    end
                end
            end
        end
  | _, _ => None
  end.
End Backtester.

(** ** The strategies of [src/strategy.py] *)

Inductive exn : Type :=
| ValueError (msg : string)
| KeyError (key : string).

Inductive result (A : Type) : Type :=
| Ok (a : A)
| Raise (e : exn).

Arguments Ok {A} _.
Arguments Raise {A} _.

Section Strategies.
Context {F : Type} `{FloatOps F}.

(** [Strategy.__init__]: the data, and a [signal] column of zeros. *)
Record Strategy : Type := mkStrategy {
  st_data : DataFrame F;
  st_signals : DataFrame F
}.

(** [str(n)] for a length or a window, as an f-string prints it. *)
Definition str_of_nat (n : nat) : string :=
  DecimalString.NilEmpty.string_of_uint (Nat.to_uint n).

(** [f"Data length ({n}) is less than the required {what} ({w})."]. *)
Definition data_length_message (n : nat) (what : string) (w : nat) : string :=
  ("Data length (" ++ str_of_nat n ++ ") is less than the required "
   ++ what ++ " (" ++ str_of_nat w ++ ").")%string.

Definition Strategy_init (data : DataFrame F) : result Strategy :=
  if df_empty data then Raise (ValueError "Input data is empty.")
  else
    let signals := mkFrame (index data) [] in
    let signals :=
      set_col "signal" (map (fun _ => fzero) (index data)) signals in
    Ok (mkStrategy data signals).

(** *** MeanReversionStrategy *)

Record MeanReversionStrategy : Type := mkMeanReversion {
  mr_base : Strategy;
  mr_window : nat;
  mr_entry_z : F;
  mr_exit_z : F
}.

Definition MeanReversionStrategy_init (data : DataFrame F) (window : nat)
           (entry_z exit_z : F) : result MeanReversionStrategy :=
  match Strategy_init data with
  | Raise e => Raise e
  | Ok base =>
      if (length (index data) <? window)%nat
      then Raise (ValueError
                    (data_length_message (length (index data))
                                         "mean reversion window" window))
      else Ok (mkMeanReversion base window entry_z exit_z)
  end.

(** [int(window * 0.8)]. *)
Definition startup_periods (window : nat) : nat := (window * 8 / 10)%nat.

(** The lagged z-score of [generate_signals]. *)
Definition z_score_shifted (window : nat) (prices : list F) : list F :=
  let rolling_mean := rolling_mean window (startup_periods window) prices in
  let rolling_std := rolling_std window (startup_periods window) prices in
  let rolling_std := replace fzero fnan rolling_std in
  let z_score := zip_with fdiv (zip_with fsub prices rolling_mean) rolling_std in
  shift 1 z_score.

(** The [signal] column after the two entry overwrites. *)
Definition mr_entries (entry_z : F) (zs signal : list F) : list F :=
  let signal := set_where (map (fun z => fltb z (fneg entry_z)) zs) fone signal in
  set_where (map (fun z => fgtb z entry_z) zs) fminus_one signal.

(** The overwrite by [flatten_long_condition], computed on the column
    [signal] as it stands when the condition is evaluated. *)
Definition mr_flatten_long (exit_z : F) (zs signal : list F) : list F :=
  let flatten_long_condition :=
    zip_with andb (map (fun s => feqb s fone) (shift 1 signal))
             (map (fun z => fgtb z (fneg exit_z)) zs) in
  set_where flatten_long_condition fzero signal.

(** The overwrite by [flatten_short_condition]. *)
Definition mr_flatten_short (exit_z : F) (zs signal : list F) : list F :=
  let flatten_short_condition :=
    zip_with andb (map (fun s => feqb s fminus_one) (shift 1 signal))
             (map (fun z => fltb z exit_z) zs) in
  set_where flatten_short_condition fzero signal.

Definition mr_signal_column (entry_z exit_z : F) (zs signal : list F)
  : list F :=
  let signal := mr_entries entry_z zs signal in
  let signal := mr_flatten_long exit_z zs signal in
  mr_flatten_short exit_z zs signal.

Definition MeanReversion_generate_signals (s : MeanReversionStrategy)
  : result (DataFrame F) :=
  match get_col "Adj Close" (st_data (mr_base s)) with
  | None => Raise (KeyError "Adj Close")
  | Some prices =>
      let zs := z_score_shifted (mr_window s) prices in
      let signals := st_signals (mr_base s) in
      let signal :=
        mr_signal_column (mr_entry_z s) (mr_exit_z s) zs (col "signal" signals) in
      Ok (mkFrame (index signals) [("signal", signal)])
  end.

(** *** SMACrossoverStrategy *)

Record SMACrossoverStrategy : Type := mkSMACrossover {
  sma_base : Strategy;
  short_window : nat;
  long_window : nat
}.

Definition SMACrossoverStrategy_init (data : DataFrame F)
           (short_window long_window : nat) : result SMACrossoverStrategy :=
  match Strategy_init data with
  | Raise e => Raise e
  | Ok base =>
      if (long_window <=? short_window)%nat
      then Raise (ValueError "Short window must be less than long window.")
      else if (length (index data) <? long_window)%nat
      then Raise (ValueError
                    (data_length_message (length (index data))
                                         "long SMA window" long_window))
      else Ok (mkSMACrossover base short_window long_window)
  end.

(** The [signal] column of [generate_signals] after the two crossover
    overwrites, from the two averages and the column of zeros of the
    constructor. *)
Definition sma_crossovers (short_sma long_sma signal : list F) : list F :=
  let crossed_above :=
    zip_with andb
             (zip_with fgtb (shift 1 short_sma) (shift 1 long_sma))
             (zip_with fleb (shift 2 short_sma) (shift 2 long_sma)) in
  let signal := set_where crossed_above fone signal in
  let crossed_below :=
    zip_with andb
             (zip_with fltb (shift 1 short_sma) (shift 1 long_sma))
             (zip_with fgeb (shift 2 short_sma) (shift 2 long_sma)) in
  set_where crossed_below fminus_one signal.

(** The [signal] column that [generate_signals] returns: the crossovers,
    the forward fill, and the two corrections. *)
Definition sma_signal_column (short_sma long_sma signal : list F) : list F :=
  let signal := sma_crossovers short_sma long_sma signal in
  let signal := fillna fzero (ffill signal) in
  let correct_long :=
    zip_with andb (map (fun s => feqb s fone) (shift 1 signal))
             (zip_with fltb short_sma long_sma) in
  let signal := set_where correct_long fzero signal in
  let correct_short :=
    zip_with andb (map (fun s => feqb s fminus_one) (shift 1 signal))
             (zip_with fgtb short_sma long_sma) in
  set_where correct_short fzero signal.

Definition SMACrossover_generate_signals (s : SMACrossoverStrategy)
  : result (DataFrame F) :=
  match get_col "Adj Close" (st_data (sma_base s)) with
  | None => Raise (KeyError "Adj Close")
  | Some prices =>
      let short_sma :=
        rolling_mean (short_window s) (short_window s) prices in
      let long_sma :=
        rolling_mean (long_window s) (long_window s) prices in
      let signals := st_signals (sma_base s) in
      let signals := set_col "short_sma" short_sma signals in
      let signals := set_col "long_sma" long_sma signals in
      let signal :=
        sma_signal_column (col "short_sma" signals) (col "long_sma" signals)
                          (col "signal" signals) in
      Ok (mkFrame (index signals) [("signal", signal)])
  end.
End Strategies.

(** ** The metrics of [src/performance.py] *)

Section Performance.
Context {F : Type} `{FloatOps F}.

(** [pd.isna] on a value that may be [None]. *)
Definition isna (x : option F) : bool :=
  match x with
  | None => true
  | Some v => fisnan v
  end.

Definition calculate_sortino (returns : option (list F))
           (risk_free_rate : F) : F :=
  match returns with
  | None => fnan
  | Some returns =>
      if (length returns <? 2)%nat then fnan
      else
        let returns := dropna returns in
        if (length returns <? 2)%nat then fnan
        else
          let excess_returns :=
            map (fun r => fsub r (fdiv risk_free_rate (f_of_Z 252))) returns in
          let negative_excess_returns :=
            filter (fun x => fltb x fzero) excess_returns in
          match negative_excess_returns with
          | [] => if fgtb (mean excess_returns) fzero then finf else fnan
          | _ :: _ =>
              let downside_deviation := std negative_excess_returns in
              if feqb downside_deviation fzero || fisnan downside_deviation
              then if fgtb (mean excess_returns) fzero then finf else fnan
              else
                let sortino_ratio :=
                  fdiv (mean excess_returns) downside_deviation in
                fmul sortino_ratio (fsqrt (f_of_Z 252))
          end
  end.

Definition calculate_max_drawdown (portfolio_value : option (list F)) : F :=
  match portfolio_value with
  | None => fnan
  | Some portfolio_value =>
      if (length portfolio_value <? 2)%nat then fnan
      else
        let portfolio_value := dropna portfolio_value in
        if (length portfolio_value <? 2)%nat then fnan
        else if existsb (fun v => fleb v fzero) portfolio_value then fnan
        else
          let first := hd fnan portfolio_value in
          let cumulative_returns :=
            map (fun v => fdiv v first) portfolio_value in
          let running_max := cummax cumulative_returns in
          let drawdown :=
            zip_with fdiv (zip_with fsub cumulative_returns running_max)
                     running_max in
          series_min drawdown
  end.

Definition calculate_calmar (cagr max_drawdown : option F) : F :=
  match max_drawdown with
  | None => fnan
  | Some md =>
      if feqb md fzero || isna cagr || fisnan md then fnan
      else
        match cagr with
        | None => fnan
        | Some cagr =>
            let md := if fgtb md fzero then fneg md else md in
            fdiv cagr (fabs md)
        end
  end.

(** [portfolio['position'].diff().fillna(0).abs().sum() / 2]. *)
Definition total_trades (portfolio : DataFrame F) : F :=
  fdiv (series_sum (series_abs (fillna fzero (diff (col "position" portfolio)))))
       (f_of_Z 2).

End Performance.

(** ** The columns of the portfolio, as functions of the aligned inputs *)

Section Columns.
Context {F : Type} `{FloatOps F}.

Definition market_returns (prices : list F) : list F :=
  fillna fzero (pct_change 1 prices).

Definition positions (allow_shorting : bool) (signal : list F) : list F :=
  map (position_from_signal allow_shorting) (fillna fzero (shift 1 signal)).

Definition strategy_returns (allow_shorting : bool) (prices signal : list F)
  : list F :=
  fillna fzero
         (zip_with fmul (positions allow_shorting signal) (market_returns prices)).

Definition equity (initial_capital : F) (allow_shorting : bool)
           (prices signal : list F) : list F :=
  map (fmul initial_capital)
      (cumprod (map (fadd fone) (strategy_returns allow_shorting prices signal))).

(** A column of a frame read at the labels [labels]. *)
Definition aligned (labels : list Date) (df : DataFrame F) (vs : list F)
  : list F :=
  map (fun d => at_label d (index df) vs) labels.
End Columns.

(** ** Two small frames, used to instantiate the theorems *)

Section Examples.
Context {F : Type} `{FloatOps F}.

Definition example_data : DataFrame F :=
  mkFrame [1%Z; 2%Z; 3%Z; 4%Z]
          [("Adj Close", [f_of_Z 100; f_of_Z 102; f_of_Z 101; f_of_Z 105])].

Definition example_signals : DataFrame F :=
  mkFrame [1%Z; 2%Z; 3%Z; 4%Z]
          [("signal", [fone; fminus_one; fzero; fone])].


(** The prices 1, 2, ..., 10 on the dates 1, 2, ..., 10. *)
Definition rising_data : DataFrame F :=
  mkFrame (map Z.of_nat (seq 1 10))
          [("Adj Close", map (fun n => f_of_Z (Z.of_nat n)) (seq 1 10))].

(** Six prices whose z-score over a window of 3 swings from above +1 to
    below -1 and back on consecutive dates. *)
Definition swing_prices : list F :=
  [f_of_Z 100; f_of_Z 100; f_of_Z 101; f_of_Z 1; f_of_Z 10000; f_of_Z 10000].

Definition swing_data : DataFrame F :=
  mkFrame [1%Z; 2%Z; 3%Z; 4%Z; 5%Z; 6%Z] [("Adj Close", swing_prices)].

(** [0.5]. *)
Definition fhalf : F := fdiv (f_of_Z 1) (f_of_Z 2).

Definition example_flat_signals : DataFrame F :=
  mkFrame [1%Z; 2%Z; 3%Z; 4%Z]
          [("signal", [fzero; fzero; fzero; fzero])].
End Examples.

(** ** Notions the statements use *)

Section Notions.
Context {F : Type} `{FloatOps F}.



(** A signal of the data model: [-1.0], [0.0] or [+1.0]. *)
Definition is_signal (x : F) : Prop :=
  x = fminus_one \/ x = fzero \/ x = fone.



(** The entry rule of the mean-reversion strategy at one date. *)
Definition mr_entry (entry_z z : F) : F :=
  if fgtb z entry_z then fminus_one
  else if fltb z (fneg entry_z) then fone
  else fzero.

(** The mean-reversion signal read as a one-step recurrence, in the words
    of the specification: at each date the entry rule is applied, then the
    signal is set to 0 when the final signal of the previous date was [+1]
    and the lagged z-score is above [-exit_z], or was [-1] and the lagged
    z-score is below [+exit_z].  [prev] is the final signal of the previous
    date. *)
Fixpoint mr_recurrence (entry_z exit_z prev : F) (zs : list F) : list F :=
  match zs with
  | [] => []
  | z :: rest =>
      let s :=
        if (feqb prev fone && fgtb z (fneg exit_z))
           || (feqb prev fminus_one && fltb z exit_z)
        then fzero
        else mr_entry entry_z z in
      s :: mr_recurrence entry_z exit_z s rest
  end.

(** A value above 0 and below [+inf]. *)
Definition finite_positive (v : F) : bool :=
  fltb fzero v && fltb v finf.

(** The value of a column one row above row [t]; NaN above the first row,
    as [shift(1)] gives it. *)
Definition row_above (t : nat) (xs : list F) : F :=
  match t with
  | O => fnan
  | S k => nth k xs fnan
  end.

(** A value that is not NaN. *)
Definition defined (x : F) : Prop := fisnan x = false.

(** The value 0 or the undefined value. *)
Definition zero_or_nan (x : F) : Prop := x = fzero \/ x = fnan.

(** A return that compares equal to 0 and leaves the capital where it is. *)
Definition flat_return (x : F) : Prop :=
  feqb x fzero = true /\ fadd fone x = fone.

(** The position the simulator derives from the signal of the previous
    date: an undefined signal gives 0, any other goes through
    [position_from_signal]. *)
Definition position_rule (allow_shorting : bool) (s : F) : F :=
  if fisnan s then fzero else position_from_signal allow_shorting s.

(** The ways the input of [run_backtest] can be invalid: an argument is
    [None] or an empty frame, a required column is missing, the two indexes
    share no date, or no row of the aligned frame has a strategy return that
    is defined. *)
Definition precondition_violated (data signals : option (DataFrame F))
           (cap : F) (allow : bool) : Prop :=
  match data, signals with
  | Some d, Some s =>
      let labels := index_intersection (index d) (index s) in
      df_empty d = true \/
      df_empty s = true \/
      get_col "Adj Close" d = None \/
      get_col "signal" s = None \/
      labels = [] \/
      first_valid_index
        labels
        (col "strategy_return"
             (build_portfolio (loc labels d) (loc labels s) cap allow)) = None
  | _, _ => True
  end.


(** The excess returns of [calculate_sortino], their negative part and the
    annualised ratio of the last line. *)
Definition excess_of (risk_free_rate : F) (returns : list F) : list F :=
  map (fun r => fsub r (fdiv risk_free_rate (f_of_Z 252))) (dropna returns).

Definition negative_part (xs : list F) : list F :=
  filter (fun x => fltb x fzero) xs.

Definition sortino_formula (excess : list F) : F :=
  fmul (fdiv (mean excess) (std (negative_part excess))) (fsqrt (f_of_Z 252)).

(** The value returned when there is no usable downside deviation. *)
Definition no_downside (excess : list F) : F :=
  if fgtb (mean excess) fzero then finf else fnan.

End Notions.

(** Closed facts on the constants [0.0], [1.0], [-1.0] and NaN, true of
    both instances. *)
Class FloatConsts (F : Type) `{FloatOps F} : Prop := {
  isnan_nan : fisnan fnan = true;
  isnan_zero : fisnan fzero = false;
  isnan_one : fisnan fone = false;
  isnan_minus_one : fisnan fminus_one = false;
  zero_lt_zero : fltb fzero fzero = false;
  zero_lt_one : fltb fzero fone = true;
  one_lt_zero : fltb fone fzero = false;
  minus_one_lt_zero : fltb fminus_one fzero = true;
  zero_lt_minus_one : fltb fzero fminus_one = false;
  minus_one_eq_minus_one : feqb fminus_one fminus_one = true;
  zero_eq_minus_one : feqb fzero fminus_one = false;
  one_eq_minus_one : feqb fone fminus_one = false
}.

Arguments FloatConsts F {_}.

(** Laws of the arithmetic that hold in both instances: NaN propagates
    through division and subtraction, 1 is neutral for the product, a
    product by 0 is a zero or NaN, and negation changes neither the absolute
    value, nor being NaN, nor being equal to 0. *)
Class FloatLaws (F : Type) `{FloatConsts F} : Prop := {
  div_nan_r : forall y, fdiv y fnan = fnan;
  sub_nan_l : forall y, fsub fnan y = fnan;
  mul_zero_zero : fmul fzero fzero = fzero;
  add_one_zero : fadd fone fzero = fone;
  mul_one_r : forall c, fmul c fone = c;
  zero_times_filled :
    forall m,
      let r := if fisnan (fmul fzero m) then fzero else fmul fzero m in
      feqb r fzero = true /\ fadd fone r = fone;
  abs_neg : forall d, fabs (fneg d) = fabs d;
  isnan_neg : forall d, fisnan (fneg d) = fisnan d;
  eqb_neg_zero : forall d, feqb (fneg d) fzero = feqb d fzero
}.

Arguments FloatLaws F {_ _}.

(** Further laws that hold in both instances: NaN is the only value that
    [isnan] accepts, it propagates through the other side of a subtraction
    and of a division, every comparison with it is false, and 1 is neutral
    on the left of a product and on the right of a division. *)
Class FloatNan (F : Type) `{FloatLaws F} : Prop := {
  isnan_eq : forall x, fisnan x = true -> x = fnan;
  sub_nan_r : forall y, fsub y fnan = fnan;
  div_nan_l : forall y, fdiv fnan y = fnan;
  ltb_nan_l : forall y, fltb fnan y = false;
  ltb_nan_r : forall y, fltb y fnan = false;
  leb_nan_l : forall y, fleb fnan y = false;
  leb_nan_r : forall y, fleb y fnan = false;
  mul_one_l : forall c, fmul fone c = c;
  div_one_r : forall c, fdiv c fone = c
}.

Arguments FloatNan F {_ _ _}.

(** The order: a value below another one is not above or equal to it. *)
Class FloatOrder (F : Type) `{FloatNan F} : Prop := {
  ltb_not_leb : forall x y, fltb y x = true -> fleb x y = false
}.

Arguments FloatOrder F {_ _ _ _}.

(** More of the order: a value below another one is not above it, a value
    that is not NaN is below or equal to itself, and of two values that are
    not NaN the second is below or equal to the first when the first is not
    below it. *)
Class FloatCompare (F : Type) `{FloatOrder F} : Prop := {
  ltb_asym : forall x y, fltb x y = true -> fltb y x = false;
  leb_refl : forall x, fisnan x = false -> fleb x x = true;
  leb_total :
    forall x y,
      fisnan x = false -> fisnan y = false -> fltb x y = false ->
      fleb y x = true
}.

Arguments FloatCompare F {_ _ _ _ _}.

(** The arithmetic of a ratio to a peak, rounded or not: a positive finite
    value divided by itself is 1, the quotient of two positive finite
    values is 0 or above, [1 - 1] is not NaN, the difference [c - m] of
    two values [0 <= c <= m] is NaN or lies between [-m] and 0, and a
    value between [-m] and 0 divided by [m] is NaN or lies between -1 and
    0. *)
Class FloatQuotient (F : Type) `{FloatCompare F} : Prop := {
  div_self :
    forall x, fltb fzero x = true -> fltb x finf = true -> fdiv x x = fone;
  div_nonneg :
    forall x y,
      fltb fzero x = true -> fltb x finf = true ->
      fltb fzero y = true -> fltb y finf = true ->
      fleb fzero (fdiv x y) = true;
  sub_one_one : fisnan (fsub fone fone) = false;
  sub_range :
    forall c m,
      fleb fzero c = true -> fleb c m = true ->
      fisnan (fsub c m) = true \/
      (fleb (fneg m) (fsub c m) = true /\ fleb (fsub c m) fzero = true);
  div_range :
    forall r m,
      fleb (fneg m) r = true -> fleb r fzero = true ->
      fisnan (fdiv r m) = true \/
      (fleb fminus_one (fdiv r m) = true /\ fleb (fdiv r m) fzero = true)
}.

Arguments FloatQuotient F {_ _ _ _ _ _}.

(** Notions on the specification of the binary64 values: a value is a
    sign, a mantissa and an exponent. *)
Module Binary64Notions.
Import SpecFloat.
Local Open Scope Z_scope.

(** The order of two positive values [m1 * 2^e1] and [m2 * 2^e2] whose
    mantissas are canonical. *)
Definition below (m1 : positive) (e1 : Z) (m2 : positive) (e2 : Z) : Prop :=
  e1 < e2 \/ (e1 = e2 /\ (m1 <= m2)%positive).

(** NaN, or a value between [-m] and 0. *)
Definition within (m r : spec_float) : Prop :=
  r = S754_nan \/
  (SFleb (SFopp m) r = true /\ SFleb r (S754_zero false) = true).
End Binary64Notions.

(** Notions on the extended reals. *)



(** ** The momentum strategy and [get_signals] of [src/strategy.py] *)

Section Momentum.
Context {F : Type} `{FloatOps F}.

(** [Strategy.get_signals]: the frame of signals, or a frame without
    columns over the index of the data when there is no [signal] column. *)
Definition Strategy_get_signals (s : @Strategy F) : DataFrame F :=
  match get_col "signal" (st_signals s) with
  | None => mkFrame (index (st_data s)) []
  | Some _ => st_signals s
  end.

Record MomentumStrategy : Type := mkMomentum {
  mom_base : @Strategy F;
  mom_window : nat
}.

Definition MomentumStrategy_init (data : DataFrame F) (window : nat)
  : result MomentumStrategy :=
  match Strategy_init data with
  | Raise e => Raise e
  | Ok base =>
      if (length (index data) <? window + 1)%nat
      then Raise (ValueError
                    (data_length_message (length (index data))
                                         "momentum window + 1" (window + 1)))
      else Ok (mkMomentum base window)
  end.

(** [self.data['Adj Close'].pct_change(self.window).shift(1)]. *)
Definition momentum (window : nat) (prices : list F) : list F :=
  shift 1 (pct_change window prices).

(** The two overwrites of the [signal] column. *)
Definition momentum_signal_column (momentum signal : list F) : list F :=
  let signal := set_where (map (fun m => fgtb m fzero) momentum) fone signal in
  set_where (map (fun m => fltb m fzero) momentum) fminus_one signal.

(** [MomentumStrategy.generate_signals]: the overwrites change the frame
    [self.signals] in place and the method returns that frame, so the result
    is the strategy with its new state and the frame returned. *)
Definition Momentum_generate_signals (s : MomentumStrategy)
  : result (MomentumStrategy * DataFrame F) :=
  match get_col "Adj Close" (st_data (mom_base s)) with
  | None => Raise (KeyError "Adj Close")
  | Some prices =>
      let momentum := momentum (mom_window s) prices in
      let signals := st_signals (mom_base s) in
      let signals :=
        set_col "signal"
                (momentum_signal_column momentum (col "signal" signals))
                signals in
      Ok (mkMomentum (mkStrategy (st_data (mom_base s)) signals) (mom_window s),
          signals)
  end.
End Momentum.

(** ** The other metrics of [src/performance.py] *)

(** The power [x ** y] is not an operation of [FloatOps]: the carrier that
    has one declares it here. *)
Class FloatPow (F : Type) : Type := { fpow : F -> F -> F }.

(** A Python [dict] with string keys, in insertion order. *)
Fixpoint dict_get {V : Type} (k : string) (d : list (string * V)) : option V :=
  match d with
  | [] => None
  | (k', v) :: rest => if String.eqb k k' then Some v else dict_get k rest
  end.

Fixpoint dict_set {V : Type} (k : string) (v : V) (d : list (string * V))
  : list (string * V) :=
  match d with
  | [] => [(k, v)]
  | (k', v') :: rest =>
      if String.eqb k k' then (k', v) :: rest else (k', v') :: dict_set k v rest
  end.

Section MoreMetrics.
Context {F : Type} `{FloatOps F} `{FloatPow F}.

(** [calculate_sharpe]; [None] is Python's [None]. *)
Definition calculate_sharpe (returns : option (list F)) (risk_free_rate : F)
  : F :=
  match returns with
  | None => fnan
  | Some returns =>
      if (length returns <? 2)%nat then fnan
      else
        let returns := dropna returns in
        if (length returns <? 2)%nat then fnan
        else
          let excess_returns :=
            map (fun r => fsub r (fdiv risk_free_rate (f_of_Z 252))) returns in
          let mean_excess_return := mean excess_returns in
          let std_dev := std excess_returns in
          if feqb std_dev fzero || fisnan std_dev then fnan
          else
            let sharpe_ratio := fdiv mean_excess_return std_dev in
            fmul sharpe_ratio (fsqrt (f_of_Z 252))
  end.

(** [np.sign]. *)
Definition fsign (x : F) : F :=
  if fgtb x fzero then fone
  else if fltb x fzero then fminus_one
  else if feqb x fzero then fzero
  else x.

(** The literal [365.25]. *)
Definition days_per_year : F := fdiv (f_of_Z 1461) (f_of_Z 4).

(** [calculate_cagr]; a series is the list of its rows, each a date and a
    value, and a date is a day number, so that [(end - start).days] is the
    difference of the two.  The power of two numpy floats is a numpy float,
    NaN where Python's own power would be complex, so the test
    [isinstance(cagr, complex)] never holds and has no branch here. *)
Definition calculate_cagr (portfolio_value : option (list (Date * F))) : F :=
  match portfolio_value with
  | None => fnan
  | Some portfolio_value =>
      if (length portfolio_value <? 2)%nat then fnan
      else
        let start_value := snd (hd (0%Z, fnan) portfolio_value) in
        let end_value := snd (last portfolio_value (0%Z, fnan)) in
        if fleb start_value fzero then fnan
        else
          let start_date := fst (hd (0%Z, fnan) portfolio_value) in
          let end_date := fst (last portfolio_value (0%Z, fnan)) in
          let num_years :=
            fdiv (f_of_Z (end_date - start_date)) days_per_year in
          if fleb num_years fzero then fnan
          else
            fsub (fpow (fmul (fsign end_value)
                             (fabs (fdiv end_value start_value)))
                       (fdiv fone num_years))
                 fone
  end.

(** The column [name] of a frame as a series. *)
Definition series_of (name : string) (df : DataFrame F) : list (Date * F) :=
  combine (index df) (col name df).

(** The dictionary returned for a portfolio that cannot be measured. *)
Definition nan_metrics : list (string * F) :=
  fold_left (fun metrics k => dict_set k fnan metrics)
            ["CAGR"; "Annualized Sharpe Ratio"; "Annualized Sortino Ratio";
             "Max Drawdown"; "Calmar Ratio"; "Cumulative Return";
             "Annualized Volatility"]
            [].

(** [calculate_performance_metrics]: the dictionary, filled key by key;
    [Raise] is the [KeyError] of [portfolio['position']] on a frame without
    that column. *)
Definition calculate_performance_metrics (portfolio : option (DataFrame F))
           (risk_free_rate : F) : result (list (string * F)) :=
  match portfolio with
  | None => Ok nan_metrics
  | Some portfolio =>
      if df_empty portfolio then Ok nan_metrics
      else
        match get_col "equity_curve" portfolio,
              get_col "strategy_return" portfolio with
        | Some equity_curve, Some strategy_returns =>
            match equity_curve, strategy_returns with
            | [], _ | _, [] => Ok nan_metrics
            | first :: _, _ :: _ =>
                let metrics : list (string * F) := [] in
                let cagr :=
                  calculate_cagr (Some (series_of "equity_curve" portfolio)) in
                let metrics := dict_set "CAGR" cagr metrics in
                let metrics :=
                  dict_set "Annualized Sharpe Ratio"
                           (calculate_sharpe (Some strategy_returns) risk_free_rate)
                           metrics in
                let metrics :=
                  dict_set "Annualized Sortino Ratio"
                           (calculate_sortino (Some strategy_returns) risk_free_rate)
                           metrics in
                let max_drawdown := calculate_max_drawdown (Some equity_curve) in
                let metrics := dict_set "Max Drawdown" max_drawdown metrics in
                let metrics :=
                  dict_set "Calmar Ratio"
                           (calculate_calmar (Some cagr) (Some max_drawdown))
                           metrics in
                let metrics :=
                  dict_set "Cumulative Return"
                           (if negb (feqb first fzero)
                            then fsub (fdiv (last equity_curve fnan) first) fone
                            else fnan)
                           metrics in
                let metrics :=
                  dict_set "Annualized Volatility"
                           (fmul (std strategy_returns) (fsqrt (f_of_Z 252)))
                           metrics in
                match get_col "position" portfolio with
                | None => Raise (KeyError "position")
                | Some _ =>
                    Ok (dict_set "Total Trades" (total_trades portfolio) metrics)
                end
            end
        | _, _ => Ok nan_metrics
        end
  end.
End MoreMetrics.

(** The power on the extended reals, with the special cases of the C
    function [pow] that numpy calls; there is no zero of negative sign. *)
Module IdealPower.
Import Ideal.
Local Open Scope R_scope.

Definition is_int (y : R) : bool := Reqb (IZR (Int_part y)) y.

Definition is_odd_int (y : R) : bool := is_int y && Z.odd (Int_part y).

(** [x ** y] for finite [x] and [y], [y] not 0. *)
Definition Rpow (x y : R) : xreal :=
  if Reqb x 1 then Fin 1
  else if Rltb 0 x then Fin (Rpower x y)
  else if Reqb x 0 then (if Rltb 0 y then Fin 0 else PInf)
  else if is_int y
       then Fin ((if Z.odd (Int_part y) then -1 else 1) * Rpower (- x) y)
       else NaN.

(** [x ** y] for a finite [x] and an infinite [y]; [grows] tells whether
    [y] is [+inf]. *)
Definition pow_inf (x : R) (grows : bool) : xreal :=
  if Reqb (Rabs x) 1 then Fin 1
  else if Bool.eqb (Rltb 1 (Rabs x)) grows then PInf
  else Fin 0.

Definition xpow (a b : xreal) : xreal :=
  match a, b with
  | _, Fin y =>
      if Reqb y 0 then Fin 1
      else
        match a with
        | Fin x => Rpow x y
        | PInf => if Rltb 0 y then PInf else Fin 0
        | NInf =>
            if Rltb 0 y then (if is_odd_int y then NInf else PInf) else Fin 0
        | NaN => NaN
        end
  | Fin x, PInf => pow_inf x true
  | Fin x, NInf => pow_inf x false
  | Fin x, NaN => if Reqb x 1 then Fin 1 else NaN
  | (PInf | NInf), PInf => PInf
  | (PInf | NInf), NInf => Fin 0
  | _, _ => NaN
  end.

#[global] Instance pow : FloatPow xreal := {| fpow := xpow |}.
End IdealPower.

(** ** The benchmark of [plot_equity_curve], [src/plotting.py] *)

Section Plotting.
Context {F : Type} `{FloatOps F}.

(** The values [plot_equity_curve] computes before it draws: the initial
    capital it recovers from the first row, and the benchmark curve.
    [Ok None] is the early return on a missing or empty portfolio. *)
Definition plot_benchmark (portfolio : option (DataFrame F))
  : result (option (F * list F)) :=
  match portfolio with
  | None => Ok None
  | Some portfolio =>
      if df_empty portfolio then Ok None
      else
        match get_col "equity_curve" portfolio with
        | None => Raise (KeyError "equity_curve")
        | Some equity_curve =>
            match get_col "cumulative_strategy" portfolio with
            | None => Raise (KeyError "cumulative_strategy")
            | Some cumulative_strategy =>
                let initial_capital :=
                  if negb (feqb (hd fnan cumulative_strategy) fzero)
                  then fdiv (hd fnan equity_curve) (hd fnan cumulative_strategy)
                  else hd fnan equity_curve in
                match get_col "cumulative_market" portfolio with
                | None => Raise (KeyError "cumulative_market")
                | Some cumulative_market =>
                    let benchmark_equity :=
                      map (fmul initial_capital) cumulative_market in
                    Ok (Some (initial_capital, benchmark_equity))
                end
            end
        end
  end.
End Plotting.

(** ** The parameter grid of [src/main.py] *)

(** A value of the grid: a string, a boolean, an integer or a float. *)
Inductive pvalue (F : Type) : Type :=
| PStr (s : string)
| PBool (b : bool)
| PInt (z : Z)
| PFloat (x : F).

Arguments PStr {F} _.
Arguments PBool {F} _.
Arguments PInt {F} _.
Arguments PFloat {F} _.

Inductive param_error : Type :=
| MissingParam (key : string)
| NotOrdered.

(** [itertools.product]: the last list varies fastest. *)
Fixpoint product {A : Type} (ls : list (list A)) : list (list A) :=
  match ls with
  | [] => [[]]
  | l :: rest => flat_map (fun x => map (cons x) (product rest)) l
  end.

Section ParameterGrid.
Context {F : Type} `{FloatOps F}.

(** Python's [a < b] on two values of the grid: numbers compare by value,
    a boolean counting as the integer 0 or 1 (an integer meets a float
    through its conversion, exact below 2^53), strings compare
    lexicographically, and a string does not compare with a number. *)
Definition py_lt (a b : pvalue F) : param_error + bool :=
  let as_int (v : pvalue F) : option Z :=
    match v with
    | PInt z => Some z
    | PBool b => Some (Z.b2z b)
    | _ => None
    end in
  match a, b with
  | PStr s, PStr t => inr (String.ltb s t)
  | PStr _, _ | _, PStr _ => inl NotOrdered
  | PFloat x, PFloat y => inr (fltb x y)
  | PFloat x, _ =>
      match as_int b with
      | Some z => inr (fltb x (f_of_Z z))
      | None => inl NotOrdered
      end
  | _, PFloat y =>
      match as_int a with
      | Some z => inr (fltb (f_of_Z z) y)
      | None => inl NotOrdered
      end
  | _, _ =>
      match as_int a, as_int b with
      | Some x, Some y => inr (x <? y)%Z
      | _, _ => inl NotOrdered
      end
  end.

(** [{k: grid[k] for k in keys if k in grid}]. *)
Definition sub_grid (keys : list string) (grid : list (string * list (pvalue F)))
  : list (string * list (pvalue F)) :=
  fold_left (fun d k =>
               match dict_get k grid with
               | Some vs => dict_set k vs d
               | None => d
               end)
            keys [].

(** [[dict(zip(g.keys(), v)) for v in itertools.product( *g.values())]]. *)
Definition combinations_of (g : list (string * list (pvalue F)))
  : list (list (string * pvalue F)) :=
  map (combine (map fst g)) (product (map snd g)).

(** The filter of the SMA combinations; a missing key or a comparison that
    Python refuses ends the whole function. *)
Fixpoint keep_ordered (ps : list (list (string * pvalue F)))
  : param_error + list (list (string * pvalue F)) :=
  match ps with
  | [] => inr []
  | p :: rest =>
      match dict_get "sma_short_window" p with
      | None => inl (MissingParam "sma_short_window")
      | Some short =>
          match dict_get "sma_long_window" p with
          | None => inl (MissingParam "sma_long_window")
          | Some long =>
              match py_lt short long with
              | inl e => inl e
              | inr keep =>
                  match keep_ordered rest with
                  | inl e => inl e
                  | inr kept => inr (if keep then p :: kept else kept)
                  end
              end
          end
      end
  end.

Definition generate_parameter_combinations
           (grid : list (string * list (pvalue F)))
  : param_error + list (list (string * pvalue F)) :=
  let combinations : list (list (string * pvalue F)) := [] in
  let mom_keys := ["strategy_type"; "allow_shorting"; "momentum_window"] in
  let mom_grid := sub_grid mom_keys grid in
  let mom_grid := dict_set "strategy_type" [PStr "momentum"] mom_grid in
  let mom_values := combinations_of mom_grid in
  let combinations := combinations ++ mom_values in
  let mr_keys :=
    ["strategy_type"; "allow_shorting"; "mean_reversion_window";
     "mean_reversion_entry_z"; "mean_reversion_exit_z"] in
  let mr_grid := sub_grid mr_keys grid in
  let mr_grid := dict_set "strategy_type" [PStr "mean_reversion"] mr_grid in
  let mr_values := combinations_of mr_grid in
  let combinations := combinations ++ mr_values in
  let sma_keys :=
    ["strategy_type"; "allow_shorting"; "sma_short_window"; "sma_long_window"] in
  let sma_grid := sub_grid sma_keys grid in
  let sma_grid := dict_set "strategy_type" [PStr "sma_crossover"] sma_grid in
  let sma_values := combinations_of sma_grid in
  match keep_ordered sma_values with
  | inl e => inl e
  | inr sma_values => inr (combinations ++ sma_values)
  end.

(** The grid [param_grid] of the script. *)
Definition param_grid : list (string * list (pvalue F)) :=
  [("strategy_type",
    [PStr "momentum"; PStr "mean_reversion"; PStr "sma_crossover"]);
   ("allow_shorting", [PBool false; PBool true]);
   ("momentum_window", [PInt 20; PInt 40; PInt 60]);
   ("mean_reversion_window", [PInt 20; PInt 40]);
   ("mean_reversion_entry_z",
    [PFloat (f_of_Z 1); PFloat (fdiv (f_of_Z 3) (f_of_Z 2)); PFloat (f_of_Z 2)]);
   ("mean_reversion_exit_z", [PFloat (f_of_Z 0); PFloat (fdiv (f_of_Z 1) (f_of_Z 2))]);
   ("sma_short_window", [PInt 15; PInt 20]);
   ("sma_long_window", [PInt 40; PInt 50; PInt 60])].

(** The SMA combination with the strategy name [t], the shorting flag [a]
    and the windows [s] and [l]. *)
Definition sma_combination (t a : pvalue F) (s l : Z)
  : list (string * pvalue F) :=
  [("strategy_type", t); ("allow_shorting", a);
   ("sma_short_window", PInt s); ("sma_long_window", PInt l)].
End ParameterGrid.

(** ** More frames to instantiate the theorems *)

Section MoreExamples.
Context {F : Type} `{FloatOps F}.

(** A signal of [+1] on each of the four dates of [example_data]. *)
Definition example_long_signals : DataFrame F :=
  mkFrame [1%Z; 2%Z; 3%Z; 4%Z]
          [("signal", [fone; fone; fone; fone])].

(** [example_data] with other prices on the dates 3 and 4. *)
Definition example_data_changed : DataFrame F :=
  mkFrame [1%Z; 2%Z; 3%Z; 4%Z]
          [("Adj Close", [f_of_Z 100; f_of_Z 102; f_of_Z 77; f_of_Z 55])].

(** [swing_data] with other prices on the dates 5 and 6. *)
Definition swing_data_changed : DataFrame F :=
  mkFrame [1%Z; 2%Z; 3%Z; 4%Z; 5%Z; 6%Z]
          [("Adj Close",
            [f_of_Z 100; f_of_Z 100; f_of_Z 101; f_of_Z 1; f_of_Z 7; f_of_Z 3])].
End MoreExamples.

(** ** Notions of the statements on the strategies and the metrics *)

(** The sign of the move from the price [old] to the price [new], as a
    signal. *)
Definition price_move (old new : R) : xreal :=
  if Ideal.Rltb old new then Fin 1
  else if Ideal.Rltb new old then Fin (-1)
  else Fin 0.




(** The number of rows on which a column differs from the row above. *)
Fixpoint position_changes (xs : list xreal) : nat :=
  match xs with
  | a :: (b :: _) as rest =>
      (if Ideal.xeqb a b then 0 else 1) + position_changes rest
  | _ => 0
  end.




(** ** The crossing tests of the SMA strategy, on one row *)

Section Crossings.
Context {F : Type} `{FloatOps F}.

(** The two tests of a crossing on the row [t]. *)
Definition crossed_above_at (short_sma long_sma : list F) (t : nat) : bool :=
  fgtb (nth t (shift 1 short_sma) fnan) (nth t (shift 1 long_sma) fnan)
  && fleb (nth t (shift 2 short_sma) fnan) (nth t (shift 2 long_sma) fnan).

Definition crossed_below_at (short_sma long_sma : list F) (t : nat) : bool :=
  fltb (nth t (shift 1 short_sma) fnan) (nth t (shift 1 long_sma) fnan)
  && fgeb (nth t (shift 2 short_sma) fnan) (nth t (shift 2 long_sma) fnan).
End Crossings.

(** * Proofs *)

(** ** Comparisons of reals as booleans *)

Module IdealFacts.
Import Ideal.
Local Open Scope R_scope.

Lemma Rltb_true (x y : R) : x < y -> Rltb x y = true.
Proof. intros Hlt. unfold Rltb. destruct (Rlt_dec x y); [reflexivity | contradiction]. Qed.

Lemma Rltb_false (x y : R) : y <= x -> Rltb x y = false.
Proof. intros Hle. unfold Rltb. destruct (Rlt_dec x y); [lra | reflexivity]. Qed.

Lemma Rltb_lt (x y : R) : Rltb x y = true -> x < y.
Proof. unfold Rltb. destruct (Rlt_dec x y); [trivial | discriminate]. Qed.


Lemma Reqb_true (x y : R) : x = y -> Reqb x y = true.
Proof. intros Heq. unfold Reqb. destruct (Req_dec_T x y); [reflexivity | contradiction]. Qed.

Lemma Reqb_false (x y : R) : x <> y -> Reqb x y = false.
Proof. intros Hne. unfold Reqb. destruct (Req_dec_T x y); [contradiction | reflexivity]. Qed.

Lemma Reqb_eq (x y : R) : Reqb x y = true -> x = y.
Proof. unfold Reqb. destruct (Req_dec_T x y); [trivial | discriminate]. Qed.

Lemma Reqb_neq (x y : R) : Reqb x y = false -> x <> y.
Proof. unfold Reqb. destruct (Req_dec_T x y); [discriminate | trivial]. Qed.
End IdealFacts.

#[global] Instance B64_consts : FloatConsts PrimFloat.float.
Proof. constructor; vm_compute; reflexivity. Qed.

#[global] Instance Ideal_consts : FloatConsts xreal.
Proof.
  constructor; cbn; try reflexivity;
    first [ apply IdealFacts.Rltb_true; lra
          | apply IdealFacts.Rltb_false; lra
          | apply IdealFacts.Reqb_true; lra
          | apply IdealFacts.Reqb_false; lra ].
Qed.

(** ** The laws, in exact arithmetic and in binary64 *)

Module IdealLaws.
Import Ideal IdealFacts.
Local Open Scope R_scope.

Lemma xmul_one_r (c : xreal) : xmul c (Fin 1) = c.
Proof.
  destruct c as [x| | |]; simpl; try reflexivity.
  - f_equal; lra.
  - unfold scale_inf. now rewrite Rltb_true by lra.
  - unfold scale_inf. now rewrite Rltb_true by lra.
Qed.

Lemma xmul_zero_filled (m : xreal) :
  let r := if xisnan (xmul (Fin 0) m) then Fin 0 else xmul (Fin 0) m in
  xeqb r (Fin 0) = true /\ xadd (Fin 1) r = Fin 1.
Proof.
  assert (Hz : xeqb (Fin 0) (Fin 0) = true /\ xadd (Fin 1) (Fin 0) = Fin 1).
  { split; simpl; [apply Reqb_true; lra | f_equal; lra]. }
  destruct m as [x| | |]; cbv zeta; simpl; try exact Hz.
  - split; [apply Reqb_true; lra | f_equal; lra].
  - unfold scale_inf. rewrite !Rltb_false by lra. exact Hz.
  - unfold scale_inf. rewrite !Rltb_false by lra. exact Hz.
Qed.

Lemma xabs_neg_eq (d : xreal) : xabs (xneg d) = xabs d.
Proof. destruct d; simpl; try reflexivity. now rewrite Rabs_Ropp. Qed.

Lemma xeqb_neg_zero (d : xreal) : xeqb (xneg d) (Fin 0) = xeqb d (Fin 0).
Proof.
  destruct d as [y| | |]; simpl; try reflexivity.
  destruct (Req_dec_T y 0) as [-> | Hy].
  - now rewrite !Reqb_true by lra.
  - now rewrite !Reqb_false by lra.
Qed.
End IdealLaws.

#[global] Instance Ideal_laws : FloatLaws xreal.
Proof.
  constructor.
  - intros y. now destruct y.
  - intros y. now destruct y.
  - simpl. f_equal. lra.
  - simpl. f_equal. lra.
  - apply IdealLaws.xmul_one_r.
  - apply IdealLaws.xmul_zero_filled.
  - apply IdealLaws.xabs_neg_eq.
  - intros d. now destruct d.
  - apply IdealLaws.xeqb_neg_zero.
Qed.

(** The binary64 laws follow from the specification of the primitive
    floats: [Prim2SF] maps a float to its sign, mantissa and exponent, and
    each operation is specified on these. *)
Module Binary64Laws.
Import SpecFloat FloatOps FloatAxioms.
Local Open Scope Z_scope.

(** [1.0] is [2^52 * 2^-52]. *)
Definition SF_one : spec_float := S754_finite false 4503599627370496 (-52).

Lemma Prim2SF_one : Prim2SF fone = SF_one.
Proof. vm_compute. reflexivity. Qed.

Lemma Prim2SF_zero : Prim2SF fzero = S754_zero false.
Proof. vm_compute. reflexivity. Qed.

Lemma Prim2SF_nan : Prim2SF fnan = S754_nan.
Proof. vm_compute. reflexivity. Qed.

Lemma shr_52 (m : positive) :
  iter_pos shr_1 52
           {| shr_m := Zpos (m * 4503599627370496); shr_r := false; shr_s := false |}
  = {| shr_m := Zpos m; shr_r := false; shr_s := false |}.
Proof. rewrite Pos.mul_comm. reflexivity. Qed.

Lemma digits_times_one (m : positive) :
  Zpos (digits2_pos (m * 4503599627370496)) = Zpos (digits2_pos m) + 52.
Proof.
  rewrite Pos.mul_comm. cbn [Pos.mul digits2_pos].
  rewrite !Pos2Z.inj_succ. lia.
Qed.

(** The product of a binary64 value by 1.0 is not rounded. *)
Lemma SFmul_one (x : spec_float) :
  valid_binary x = true -> SF64mul x SF_one = x.
Proof.
  destruct x as [s|s| |s m e]; intros Hvalid; unfold SF_one, SF64mul, SFmul.
  - now rewrite xorb_false_r.
  - now rewrite xorb_false_r.
  - reflexivity.
  - rewrite xorb_false_r.
    unfold SpecFloat.valid_binary, bounded, canonical_mantissa in Hvalid.
    apply andb_prop in Hvalid. destruct Hvalid as [Hcanon Hle].
    apply Z.eqb_eq in Hcanon.
    unfold binary_round_aux, shr_fexp. cbn [Zdigits2 shr_record_of_loc].
    rewrite digits_times_one.
    replace (Zpos (digits2_pos m) + 52 + (e + -52))
      with (Zpos (digits2_pos m) + e) by lia.
    rewrite Hcanon.
    replace (e - (e + -52)) with 52 by lia.
    cbn [shr]. rewrite shr_52.
    cbn [shr_m loc_of_shr_record round_nearest_even Zdigits2 shr_record_of_loc].
    replace (e + -52 + 52) with e by lia.
    rewrite Hcanon, Z.sub_diag. cbn [shr shr_m]. now rewrite Hle.
Qed.

Lemma mul_one (c : PrimFloat.float) : PrimFloat.mul c fone = c.
Proof.
  apply Prim2SF_inj.
  rewrite mul_spec, Prim2SF_one. apply SFmul_one, Prim2SF_valid.
Qed.

Lemma div_nan (y : PrimFloat.float) : PrimFloat.div y fnan = fnan.
Proof.
  apply Prim2SF_inj.
  rewrite div_spec, Prim2SF_nan. unfold SF64div, SFdiv. now destruct (Prim2SF y).
Qed.

Lemma nan_sub (y : PrimFloat.float) : PrimFloat.sub fnan y = fnan.
Proof. apply Prim2SF_inj. now rewrite sub_spec, Prim2SF_nan. Qed.

Lemma zero_times (m : PrimFloat.float) :
  Prim2SF (PrimFloat.mul fzero m) = S754_nan \/
  exists s, Prim2SF (PrimFloat.mul fzero m) = S754_zero s.
Proof.
  rewrite mul_spec, Prim2SF_zero. unfold SF64mul, SFmul.
  destruct (Prim2SF m) as [s|s| |s ? ?]; eauto.
Qed.

Lemma is_nan_SF (x : PrimFloat.float) :
  PrimFloat.is_nan x = negb (SFeqb (Prim2SF x) (Prim2SF x)).
Proof. unfold PrimFloat.is_nan. now rewrite eqb_spec. Qed.

Lemma zero_times_is_flat (m : PrimFloat.float) :
  let r := if PrimFloat.is_nan (PrimFloat.mul fzero m)
           then fzero else PrimFloat.mul fzero m in
  PrimFloat.eqb r fzero = true /\ PrimFloat.add fone r = fone.
Proof.
  cbv zeta. rewrite is_nan_SF.
  destruct (zero_times m) as [Hn | [s Hs]].
  - rewrite Hn. cbn [SFeqb SFcompare negb]. split; vm_compute; reflexivity.
  - rewrite Hs. cbn [SFeqb SFcompare negb]. split.
    + now rewrite eqb_spec, Hs, Prim2SF_zero.
    + apply Prim2SF_inj. now rewrite add_spec, Hs, Prim2SF_one.
Qed.

Lemma SFeqb_opp_self (x : spec_float) :
  SFeqb (SFopp x) (SFopp x) = SFeqb x x.
Proof.
  destruct x as [s|s| |s m e];
    [now destruct s | now destruct s | reflexivity |].
  unfold SFeqb, SFcompare, SFopp.
  destruct s; simpl; rewrite Z.compare_refl;
    change (Pos.compare_cont Eq m m) with (Pos.compare m m);
    now rewrite Pos.compare_refl.
Qed.

Lemma SFeqb_opp_zero (x : spec_float) (s0 : bool) :
  SFeqb (SFopp x) (S754_zero s0) = SFeqb x (S754_zero s0).
Proof.
  destruct x as [s|s| |s m e];
    [reflexivity | now destruct s | reflexivity | now destruct s].
Qed.

Lemma SFabs_opp (x : spec_float) : SFabs (SFopp x) = SFabs x.
Proof. now destruct x. Qed.

Lemma abs_opp (d : PrimFloat.float) :
  PrimFloat.abs (PrimFloat.opp d) = PrimFloat.abs d.
Proof.
  apply Prim2SF_inj. now rewrite !abs_spec, opp_spec, SFabs_opp.
Qed.

Lemma is_nan_opp (d : PrimFloat.float) :
  PrimFloat.is_nan (PrimFloat.opp d) = PrimFloat.is_nan d.
Proof. now rewrite !is_nan_SF, opp_spec, SFeqb_opp_self. Qed.

Lemma eqb_opp_zero (d : PrimFloat.float) :
  PrimFloat.eqb (PrimFloat.opp d) fzero = PrimFloat.eqb d fzero.
Proof.
  rewrite !eqb_spec, opp_spec, Prim2SF_zero. apply SFeqb_opp_zero.
Qed.
End Binary64Laws.

#[global] Instance B64_laws : FloatLaws PrimFloat.float.
Proof.
  constructor.
  - apply Binary64Laws.div_nan.
  - apply Binary64Laws.nan_sub.
  - vm_compute. reflexivity.
  - vm_compute. reflexivity.
  - apply Binary64Laws.mul_one.
  - apply Binary64Laws.zero_times_is_flat.
  - apply Binary64Laws.abs_opp.
  - apply Binary64Laws.is_nan_opp.
  - apply Binary64Laws.eqb_opp_zero.
Qed.

(** The further laws, in binary64 and in exact arithmetic. *)
Module Binary64Nan.
Import SpecFloat FloatOps FloatAxioms Binary64Laws.
Local Open Scope Z_scope.

Lemma SFcompare_refl (x : spec_float) :
  x <> S754_nan -> SFcompare x x = Some Eq.
Proof.
  destruct x as [s|s| |s m e]; intros Hx; try congruence;
    try (now destruct s).
  unfold SFcompare. destruct s; rewrite Z.compare_refl;
    change (Pos.compare_cont Eq m m) with (Pos.compare m m);
    now rewrite Pos.compare_refl.
Qed.

Lemma is_nan_eq (x : PrimFloat.float) :
  PrimFloat.is_nan x = true -> x = fnan.
Proof.
  rewrite is_nan_SF. intros Hx. apply Prim2SF_inj. rewrite Prim2SF_nan.
  destruct (Prim2SF x) as [s|s| |s m e] eqn:Hs; try reflexivity;
    unfold SFeqb in Hx; rewrite SFcompare_refl in Hx by discriminate;
    discriminate.
Qed.

Lemma sub_nan (y : PrimFloat.float) : PrimFloat.sub y fnan = fnan.
Proof.
  apply Prim2SF_inj. rewrite sub_spec, Prim2SF_nan.
  unfold SF64sub, SFsub. now destruct (Prim2SF y).
Qed.

Lemma nan_div (y : PrimFloat.float) : PrimFloat.div fnan y = fnan.
Proof. apply Prim2SF_inj. now rewrite div_spec, Prim2SF_nan. Qed.

Lemma SFcompare_nan_r (x : spec_float) : SFcompare x S754_nan = None.
Proof. now destruct x. Qed.

Lemma nan_ltb (y : PrimFloat.float) : PrimFloat.ltb fnan y = false.
Proof. now rewrite ltb_spec, Prim2SF_nan. Qed.

Lemma ltb_nan (y : PrimFloat.float) : PrimFloat.ltb y fnan = false.
Proof.
  rewrite ltb_spec, Prim2SF_nan. unfold SFltb. now rewrite SFcompare_nan_r.
Qed.

Lemma nan_leb (y : PrimFloat.float) : PrimFloat.leb fnan y = false.
Proof. now rewrite leb_spec, Prim2SF_nan. Qed.

Lemma leb_nan (y : PrimFloat.float) : PrimFloat.leb y fnan = false.
Proof.
  rewrite leb_spec, Prim2SF_nan. unfold SFleb. now rewrite SFcompare_nan_r.
Qed.

Lemma SFmul_comm (x y : spec_float) : SF64mul x y = SF64mul y x.
Proof.
  unfold SF64mul, SFmul.
  destruct x as [sx|sx| |sx mx ex], y as [sy|sy| |sy my ey];
    try reflexivity; try (now rewrite xorb_comm).
  now rewrite xorb_comm, Pos.mul_comm, Z.add_comm.
Qed.

Lemma one_mul (c : PrimFloat.float) : PrimFloat.mul fone c = c.
Proof.
  apply Prim2SF_inj.
  rewrite mul_spec, SFmul_comm, Prim2SF_one. apply SFmul_one, Prim2SF_valid.
Qed.

Lemma div_eucl_exact (a b : Z) : 0 < b -> Z.div_eucl (a * b) b = (a, 0).
Proof.
  intros Hb.
  pose proof (Z_div_mult a b ltac:(lia)) as Hq.
  pose proof (Z_mod_mult a b) as Hr.
  unfold Z.div, Z.modulo in Hq, Hr.
  destruct (Z.div_eucl (a * b) b) as [q r]. now subst.
Qed.

(** A canonical mantissa rounds to itself, as it stands or doubled with
    the exponent lowered by one. *)
Lemma round_canonical (s : bool) (m : positive) (e : Z) :
  bounded prec emax m e = true ->
  binary_round_aux prec emax s (Zpos m) e loc_Exact = S754_finite s m e.
Proof.
  unfold bounded, canonical_mantissa. intros Hb.
  apply andb_prop in Hb. destruct Hb as [Hcanon Hle].
  apply Z.eqb_eq in Hcanon.
  unfold binary_round_aux, shr_fexp. cbn [Zdigits2 shr_record_of_loc].
  rewrite Hcanon, Z.sub_diag.
  cbn [shr shr_m loc_of_shr_record round_nearest_even Zdigits2 shr_record_of_loc].
  rewrite Hcanon, Z.sub_diag. cbn [shr shr_m]. now rewrite Hle.
Qed.

Lemma round_doubled (s : bool) (m : positive) (e : Z) :
  bounded prec emax m e = true ->
  binary_round_aux prec emax s (Zpos m~0) (e - 1) loc_Exact = S754_finite s m e.
Proof.
  unfold bounded, canonical_mantissa. intros Hb.
  apply andb_prop in Hb. destruct Hb as [Hcanon Hle].
  apply Z.eqb_eq in Hcanon.
  unfold binary_round_aux, shr_fexp. cbn [Zdigits2 shr_record_of_loc digits2_pos].
  replace (Zpos (Pos.succ (digits2_pos m)) + (e - 1))
    with (Zpos (digits2_pos m) + e) by lia.
  rewrite Hcanon. replace (e - (e - 1)) with 1 by lia.
  cbn [shr iter_pos shr_1 orb].
  cbn [shr_m loc_of_shr_record round_nearest_even Zdigits2 shr_record_of_loc].
  replace (e - 1 + 1) with e by lia.
  rewrite Hcanon, Z.sub_diag. cbn [shr shr_m]. now rewrite Hle.
Qed.

(** The quotient of a binary64 value by 1.0 is not rounded. *)
Lemma SFdiv_one (x : spec_float) :
  valid_binary x = true -> SF64div x SF_one = x.
Proof.
  destruct x as [s|s| |s m e]; intros Hvalid; unfold SF_one, SF64div, SFdiv;
    try reflexivity; try (now rewrite xorb_false_r).
  rewrite xorb_false_r.
  assert (Hb := Hvalid).
  unfold SpecFloat.valid_binary, bounded, canonical_mantissa in Hvalid.
  apply andb_prop in Hvalid. destruct Hvalid as [Hcanon _].
  apply Z.eqb_eq in Hcanon. unfold fexp, emin in Hcanon.
  unfold SFdiv_core_binary. cbn [Zdigits2 digits2_pos Pos.succ].
  set (d := Zpos (digits2_pos m)) in *.
  unfold fexp, emin.
  destruct (Z.eq_dec e (3 - emax - prec)) as [Hsub | Hnorm].
  - replace (Z.min (Z.max (d + e - (53 + -52) - prec) (3 - emax - prec)) (e - -52))
      with e by (unfold prec, emax in *; lia).
    replace (e - -52 - e) with 52 by lia.
    rewrite Z.shiftl_mul_pow2 by lia.
    change (2 ^ 52) with 4503599627370496.
    rewrite div_eucl_exact by lia.
    change (new_location 4503599627370496 0) with loc_Exact.
    now apply round_canonical.
  - replace (Z.min (Z.max (d + e - (53 + -52) - prec) (3 - emax - prec)) (e - -52))
      with (e - 1) by (unfold prec, emax in *; lia).
    replace (e - -52 - (e - 1)) with 53 by lia.
    rewrite Z.shiftl_mul_pow2 by lia.
    replace (Zpos m * 2 ^ 53) with (Zpos m~0 * 4503599627370496) by lia.
    rewrite div_eucl_exact by lia.
    change (new_location 4503599627370496 0) with loc_Exact.
    now apply round_doubled.
Qed.

Lemma div_one (c : PrimFloat.float) : PrimFloat.div c fone = c.
Proof.
  apply Prim2SF_inj.
  rewrite div_spec, Prim2SF_one. apply SFdiv_one, Prim2SF_valid.
Qed.
End Binary64Nan.

#[global] Instance B64_nan : FloatNan PrimFloat.float.
Proof.
  constructor.
  - apply Binary64Nan.is_nan_eq.
  - apply Binary64Nan.sub_nan.
  - apply Binary64Nan.nan_div.
  - apply Binary64Nan.nan_ltb.
  - apply Binary64Nan.ltb_nan.
  - apply Binary64Nan.nan_leb.
  - apply Binary64Nan.leb_nan.
  - apply Binary64Nan.one_mul.
  - apply Binary64Nan.div_one.
Qed.

Module IdealNan.
Import Ideal IdealFacts.
Local Open Scope R_scope.

Lemma xmul_one_l (c : xreal) : xmul (Fin 1) c = c.
Proof.
  destruct c as [x| | |]; simpl; try reflexivity.
  - f_equal; lra.
  - unfold scale_inf. now rewrite Rltb_true by lra.
  - unfold scale_inf. now rewrite Rltb_true by lra.
Qed.

Lemma xdiv_one_r (c : xreal) : xdiv c (Fin 1) = c.
Proof.
  destruct c as [x| | |]; simpl; try reflexivity.
  - rewrite Reqb_false by lra. f_equal; field.
  - now rewrite Rltb_false by lra.
  - now rewrite Rltb_false by lra.
Qed.
End IdealNan.

#[global] Instance Ideal_nan : FloatNan xreal.
Proof.
  constructor.
  - intros x. now destruct x.
  - intros y. now destruct y.
  - intros y. now destruct y.
  - intros y. now destruct y.
  - intros y. now destruct y.
  - intros y. now destruct y.
  - intros y. now destruct y.
  - apply IdealNan.xmul_one_l.
  - apply IdealNan.xdiv_one_r.
Qed.

(** ** The order, in binary64 and in exact arithmetic *)

Module Binary64Order.
Import SpecFloat FloatOps FloatAxioms.
Local Open Scope Z_scope.

Lemma SFcompare_Lt_Gt (x y : spec_float) :
  SFcompare y x = Some Lt -> SFcompare x y = Some Gt.
Proof.
  destruct x as [sx|sx| |sx mx ex], y as [sy|sy| |sy my ey]; simpl;
    try discriminate;
    try (destruct sx; discriminate);
    try (destruct sy; discriminate);
    try (destruct sx, sy; (discriminate || reflexivity)).
  change (PosDef.Pos.compare_cont Eq my mx) with (Pos.compare my mx).
  change (PosDef.Pos.compare_cont Eq mx my) with (Pos.compare mx my).
  rewrite (Z.compare_antisym ey ex), (Pos.compare_antisym my mx).
  destruct sx, sy; try discriminate; try reflexivity;
    destruct (ey ?= ex)%Z; simpl; try discriminate; try reflexivity;
    destruct (my ?= mx)%positive; simpl; (discriminate || reflexivity).
Qed.

Lemma ltb_leb (x y : PrimFloat.float) :
  PrimFloat.ltb y x = true -> PrimFloat.leb x y = false.
Proof.
  rewrite ltb_spec, leb_spec. unfold SFltb, SFleb.
  destruct (SFcompare (Prim2SF y) (Prim2SF x)) as [[| |]|] eqn:Hc;
    try discriminate.
  intros _. now rewrite (SFcompare_Lt_Gt _ _ Hc).
Qed.
End Binary64Order.

#[global] Instance B64_order : FloatOrder PrimFloat.float.
Proof. constructor. apply Binary64Order.ltb_leb. Qed.

#[global] Instance Ideal_order : FloatOrder xreal.
Proof.
  constructor. intros x y.
  destruct x as [a| | |], y as [b| | |]; simpl; try discriminate;
    try reflexivity.
  intros Hlt. apply IdealFacts.Rltb_lt in Hlt. unfold Ideal.xleb. simpl.
  now rewrite IdealFacts.Rltb_false, IdealFacts.Reqb_false by lra.
Qed.

Module Binary64Compare.
Import SpecFloat FloatOps FloatAxioms Binary64Laws.
Local Open Scope Z_scope.

Lemma SFcompare_antisym (x y : spec_float) :
  SFcompare y x = option_map CompOpp (SFcompare x y).
Proof.
  destruct x as [sx|sx| |sx mx ex], y as [sy|sy| |sy my ey]; simpl;
    try reflexivity;
    try (destruct sx; reflexivity);
    try (destruct sy; reflexivity);
    try (destruct sx, sy; reflexivity).
  change (PosDef.Pos.compare_cont Eq my mx) with (Pos.compare my mx).
  change (PosDef.Pos.compare_cont Eq mx my) with (Pos.compare mx my).
  rewrite (Z.compare_antisym ex ey), (Pos.compare_antisym mx my).
  destruct sx, sy; try reflexivity;
    destruct (ex ?= ey)%Z; simpl; try reflexivity;
    now destruct (mx ?= my)%positive.
Qed.

Lemma not_nan (x : PrimFloat.float) :
  PrimFloat.is_nan x = false -> Prim2SF x <> S754_nan.
Proof.
  rewrite is_nan_SF. intros Hx Hn. rewrite Hn in Hx. discriminate.
Qed.

Lemma ltb_antisym (x y : PrimFloat.float) :
  PrimFloat.ltb x y = true -> PrimFloat.ltb y x = false.
Proof.
  rewrite !ltb_spec. unfold SFltb.
  rewrite (SFcompare_antisym (Prim2SF x) (Prim2SF y)).
  now destruct (SFcompare (Prim2SF x) (Prim2SF y)) as [[| |]|].
Qed.

Lemma leb_self (x : PrimFloat.float) :
  PrimFloat.is_nan x = false -> PrimFloat.leb x x = true.
Proof.
  intros Hx. rewrite leb_spec. unfold SFleb.
  now rewrite Binary64Nan.SFcompare_refl by now apply not_nan.
Qed.

Lemma SFcompare_defined (x y : spec_float) :
  x <> S754_nan -> y <> S754_nan -> SFcompare x y <> None.
Proof.
  destruct x as [sx|sx| |sx mx ex], y as [sy|sy| |sy my ey]; simpl;
    congruence.
Qed.

Lemma leb_of_not_ltb (x y : PrimFloat.float) :
  PrimFloat.is_nan x = false -> PrimFloat.is_nan y = false ->
  PrimFloat.ltb x y = false -> PrimFloat.leb y x = true.
Proof.
  intros Hx Hy. rewrite ltb_spec, leb_spec. unfold SFltb, SFleb.
  rewrite (SFcompare_antisym (Prim2SF x) (Prim2SF y)).
  pose proof (SFcompare_defined _ _ (not_nan x Hx) (not_nan y Hy)) as Hd.
  destruct (SFcompare (Prim2SF x) (Prim2SF y)) as [[| |]|];
    simpl; congruence.
Qed.
End Binary64Compare.

#[global] Instance B64_compare : FloatCompare PrimFloat.float.
Proof.
  constructor.
  - apply Binary64Compare.ltb_antisym.
  - apply Binary64Compare.leb_self.
  - apply Binary64Compare.leb_of_not_ltb.
Qed.

#[global] Instance Ideal_compare : FloatCompare xreal.
Proof.
  constructor.
  - intros x y.
    destruct x as [a| | |], y as [b| | |]; simpl; try discriminate;
      try (intros _; reflexivity).
    intros Hlt. apply IdealFacts.Rltb_lt in Hlt.
    now rewrite IdealFacts.Rltb_false by lra.
  - intros x Hx. destruct x as [a| | |]; try reflexivity; [|discriminate].
    unfold fleb; simpl. unfold Ideal.xleb. simpl.
    now rewrite IdealFacts.Reqb_true, orb_true_r.
  - intros x y.
    destruct x as [a| | |], y as [b| | |]; simpl; try discriminate;
      try (intros _ _ _; reflexivity).
    intros _ _ Hlt. unfold Ideal.xleb. simpl.
    destruct (Rtotal_order b a) as [Hba|[Hba|Hba]].
    + now rewrite IdealFacts.Rltb_true.
    + subst. now rewrite IdealFacts.Reqb_true, orb_true_r.
    + now rewrite IdealFacts.Rltb_true in Hlt.
Qed.

(** ** Rounding in binary64: a value below a bound rounds below it *)

Module Binary64Round.
Import SpecFloat FloatOps FloatAxioms Binary64Laws Binary64Notions.
Local Open Scope Z_scope.

Lemma shr_1_spec (mrs : shr_record) :
  0 <= shr_m mrs ->
  shr_m (shr_1 mrs) = shr_m mrs / 2 /\
  (shr_r mrs = false -> shr_s mrs = false -> shr_m mrs mod 2 = 0 ->
   shr_r (shr_1 mrs) = false /\ shr_s (shr_1 mrs) = false).
Proof.
  destruct mrs as [m r s]. cbn [shr_m shr_r shr_s]. intros Hm.
  rewrite <- Z.div2_div.
  destruct m as [|p|p]; [| |lia].
  - split; [reflexivity|]. intros -> -> _. split; reflexivity.
  - destruct p as [p|p|]; cbn [shr_1 shr_m shr_r shr_s]; (split; [reflexivity|]).
    + intros _ _ Hodd. rewrite (Pos2Z.inj_xI p) in Hodd.
      rewrite Z.add_comm, Z.mul_comm, Z.mod_add in Hodd by lia. discriminate.
    + intros -> -> _. split; reflexivity.
    + intros _ _ Hodd. discriminate.
Qed.

Lemma shr_iter_spec (p : positive) :
  forall mrs : shr_record,
    0 <= shr_m mrs ->
    shr_m (iter_pos shr_1 p mrs) = shr_m mrs / 2 ^ Zpos p /\
    (shr_r mrs = false -> shr_s mrs = false -> shr_m mrs mod 2 ^ Zpos p = 0 ->
     shr_r (iter_pos shr_1 p mrs) = false /\
     shr_s (iter_pos shr_1 p mrs) = false).
Proof.
  induction p as [p IH|p IH|]; intros mrs Hm; cbn [iter_pos].
  - destruct (shr_1_spec mrs Hm) as [H1 E1].
    assert (Hm1 : 0 <= shr_m (shr_1 mrs)) by (rewrite H1; apply Z.div_pos; lia).
    destruct (IH _ Hm1) as [H2 E2].
    assert (Hm2 : 0 <= shr_m (iter_pos shr_1 p (shr_1 mrs)))
      by (rewrite H2; apply Z.div_pos; [lia | apply Z.pow_pos_nonneg; lia]).
    destruct (IH _ Hm2) as [H3 E3].
    assert (Hpow : 2 ^ Zpos p~1 = 2 * (2 ^ Zpos p * 2 ^ Zpos p)).
    { rewrite (Pos2Z.inj_xI p).
      replace (2 * Zpos p + 1) with (1 + Zpos p + Zpos p) by lia.
      rewrite !Z.pow_add_r by lia. change (2 ^ 1) with 2. lia. }
    assert (Hpp : 0 < 2 ^ Zpos p) by (apply Z.pow_pos_nonneg; lia).
    split.
    + rewrite H3, H2, H1, Hpow.
      rewrite !Z.div_div by lia. reflexivity.
    + intros Hr Hs Hmod.
      rewrite Hpow in Hmod.
      apply Z.mod_divide in Hmod; [|lia]. destruct Hmod as [c Hc].
      destruct E1 as [Er1 Es1]; [exact Hr | exact Hs | |].
      { rewrite Hc. replace (c * (2 * (2 ^ Zpos p * 2 ^ Zpos p)))
          with ((c * (2 ^ Zpos p * 2 ^ Zpos p)) * 2) by lia.
        apply Z.mod_mul. lia. }
      destruct E2 as [Er2 Es2]; [exact Er1 | exact Es1 | |].
      { rewrite H1, Hc.
        replace (c * (2 * (2 ^ Zpos p * 2 ^ Zpos p)))
          with ((c * (2 ^ Zpos p * 2 ^ Zpos p)) * 2) by lia.
        rewrite Z.div_mul by lia.
        replace (c * (2 ^ Zpos p * 2 ^ Zpos p))
          with ((c * 2 ^ Zpos p) * 2 ^ Zpos p) by lia.
        apply Z.mod_mul. lia. }
      apply E3; [exact Er2 | exact Es2 |].
      rewrite H2, H1, Hc.
      replace (c * (2 * (2 ^ Zpos p * 2 ^ Zpos p)))
        with ((c * (2 ^ Zpos p * 2 ^ Zpos p)) * 2) by lia.
      rewrite Z.div_mul by lia.
      replace (c * (2 ^ Zpos p * 2 ^ Zpos p))
        with ((c * 2 ^ Zpos p) * 2 ^ Zpos p) by lia.
      rewrite Z.div_mul by lia. apply Z.mod_mul. lia.
  - destruct (IH _ Hm) as [H2 E2].
    assert (Hm2 : 0 <= shr_m (iter_pos shr_1 p mrs))
      by (rewrite H2; apply Z.div_pos; [lia | apply Z.pow_pos_nonneg; lia]).
    destruct (IH _ Hm2) as [H3 E3].
    assert (Hpow : 2 ^ Zpos p~0 = 2 ^ Zpos p * 2 ^ Zpos p).
    { rewrite (Pos2Z.inj_xO p).
      replace (2 * Zpos p) with (Zpos p + Zpos p) by lia.
      now rewrite !Z.pow_add_r by lia. }
    assert (Hpp : 0 < 2 ^ Zpos p) by (apply Z.pow_pos_nonneg; lia).
    split.
    + rewrite H3, H2, Hpow. rewrite !Z.div_div by lia. reflexivity.
    + intros Hr Hs Hmod.
      rewrite Hpow in Hmod.
      apply Z.mod_divide in Hmod; [|lia]. destruct Hmod as [c Hc].
      destruct E2 as [Er2 Es2]; [exact Hr | exact Hs | |].
      { rewrite Hc.
        replace (c * (2 ^ Zpos p * 2 ^ Zpos p))
          with ((c * 2 ^ Zpos p) * 2 ^ Zpos p) by lia.
        apply Z.mod_mul. lia. }
      apply E3; [exact Er2 | exact Es2 |].
      rewrite H2, Hc.
      replace (c * (2 ^ Zpos p * 2 ^ Zpos p))
        with ((c * 2 ^ Zpos p) * 2 ^ Zpos p) by lia.
      rewrite Z.div_mul by lia. apply Z.mod_mul. lia.
  - change (2 ^ 1) with 2. apply shr_1_spec. exact Hm.
Qed.

Lemma digits2_bounds (m : positive) :
  2 ^ (Zpos (digits2_pos m) - 1) <= Zpos m < 2 ^ Zpos (digits2_pos m).
Proof.
  induction m as [m IH|m IH|]; cbn [digits2_pos].
  - rewrite Pos2Z.inj_succ, (Pos2Z.inj_xI m).
    replace (Z.succ (Zpos (digits2_pos m)) - 1)
      with (Z.succ (Zpos (digits2_pos m) - 1)) by lia.
    rewrite !Z.pow_succ_r by lia. lia.
  - rewrite Pos2Z.inj_succ, (Pos2Z.inj_xO m).
    replace (Z.succ (Zpos (digits2_pos m)) - 1)
      with (Z.succ (Zpos (digits2_pos m) - 1)) by lia.
    rewrite !Z.pow_succ_r by lia. lia.
  - simpl. lia.
Qed.

Lemma fexp_eq (z : Z) : fexp prec emax z = Z.max (z - 53) (-1074).
Proof. reflexivity. Qed.

Lemma loc_of_record_of_loc (m : Z) (l : location) :
  loc_of_shr_record (shr_record_of_loc m l) = l.
Proof. now destruct l as [|[| |]]. Qed.

Lemma shr_m_of_loc (m : Z) (l : location) : shr_m (shr_record_of_loc m l) = m.
Proof. now destruct l as [|[| |]]. Qed.

Lemma loc_exact_bits (mrs : shr_record) :
  shr_r mrs = false -> shr_s mrs = false -> loc_of_shr_record mrs = loc_Exact.
Proof. destruct mrs as [m r s]. simpl. now intros -> ->. Qed.

(** The first step of a rounding: the mantissa is cut to the digits that
    the exponent allows, and the location stays exact when nothing is cut
    off an exact value. *)
Lemma shr_fexp_spec (M e : Z) (l : location) :
  0 <= M ->
  exists (n : Z) (mrs : shr_record),
    shr_fexp prec emax M e l = (mrs, e + n) /\
    0 <= n /\
    e + n = Z.max e (fexp prec emax (Zdigits2 M + e)) /\
    shr_m mrs = M / 2 ^ n /\
    (l = loc_Exact -> M mod 2 ^ n = 0 -> loc_of_shr_record mrs = loc_Exact) /\
    (n = 0 -> loc_of_shr_record mrs = l).
Proof.
  intros HM. unfold shr_fexp.
  destruct (fexp prec emax (Zdigits2 M + e) - e) as [|p|p] eqn:Hk.
  - exists 0, (shr_record_of_loc M l). cbn [shr]. rewrite Z.add_0_r.
    repeat split; try lia.
    + rewrite shr_m_of_loc. change (2 ^ 0) with 1. now rewrite Z.div_1_r.
    + intros Hl _. now rewrite loc_of_record_of_loc.
    + intros _. apply loc_of_record_of_loc.
  - exists (Zpos p), (iter_pos shr_1 p (shr_record_of_loc M l)). cbn [shr].
    destruct (shr_iter_spec p (shr_record_of_loc M l)) as [Hm Hex].
    { now rewrite shr_m_of_loc. }
    rewrite shr_m_of_loc in Hm, Hex.
    repeat split; try lia.
    intros -> Hmod. destruct (Hex eq_refl eq_refl Hmod) as [Hr Hs].
      now apply loc_exact_bits.
  - exists 0, (shr_record_of_loc M l). cbn [shr]. rewrite Z.add_0_r.
    repeat split; try lia.
    + rewrite shr_m_of_loc. change (2 ^ 0) with 1. now rewrite Z.div_1_r.
    + intros Hl _. now rewrite loc_of_record_of_loc.
    + intros _. apply loc_of_record_of_loc.
Qed.

Lemma round_nearest_even_cases (m : Z) (l : location) :
  round_nearest_even m l = m \/
  (round_nearest_even m l = m + 1 /\ l <> loc_Exact).
Proof.
  destruct l as [|[| |]]; cbn [round_nearest_even]; auto.
  - destruct (Z.even m); [now left | right; split; [reflexivity | discriminate]].
  - right; split; [reflexivity | discriminate].
Qed.

Lemma floor_le (M P B : Z) : 0 < P -> M <= B * P -> M / P <= B.
Proof.
  intros HP Hle. apply Z.lt_succ_r. apply Z.div_lt_upper_bound; [lia | nia].
Qed.

Lemma floor_succ_le (M P B : Z) :
  0 < P -> M <= B * P -> (M mod P <> 0 \/ M < B * P) -> M / P + 1 <= B.
Proof.
  intros HP Hle Hstrict.
  pose proof (Z.div_mod M P ltac:(lia)) as Hdm.
  pose proof (Z.mod_pos_bound M P HP) as Hr.
  nia.
Qed.

Lemma digits_le_53 (p : positive) :
  Zpos p < 2 ^ 53 -> Zpos (digits2_pos p) <= 53.
Proof.
  intros Hp. pose proof (digits2_bounds p) as Hd.
  destruct (Z_le_gt_dec (Zpos (digits2_pos p)) 53) as [Hle|Hgt]; [exact Hle|].
  assert (2 ^ 53 <= 2 ^ (Zpos (digits2_pos p) - 1))
    by (apply Z.pow_le_mono_r; lia).
  lia.
Qed.

Lemma bounded_facts (mb : positive) (eb : Z) :
  bounded prec emax mb eb = true ->
  Z.max (Zpos (digits2_pos mb) + eb - 53) (-1074) = eb /\
  eb <= 971 /\ Zpos mb < 2 ^ 53.
Proof.
  unfold bounded, canonical_mantissa. intros Hb.
  apply andb_prop in Hb. destruct Hb as [Hcanon Hle].
  apply Z.eqb_eq in Hcanon. apply Z.leb_le in Hle.
  rewrite fexp_eq in Hcanon. change (emax - prec) with 971 in Hle.
  repeat split; [exact Hcanon | exact Hle |].
  pose proof (digits2_bounds mb) as Hd.
  assert (2 ^ Zpos (digits2_pos mb) <= 2 ^ 53)
    by (apply Z.pow_le_mono_r; lia).
  lia.
Qed.

(** A value at most a binary64 number rounds to at most that number. *)
Lemma round_below (s : bool) (M e : Z) (l : location) (mb : positive) (eb : Z) :
  bounded prec emax mb eb = true ->
  0 <= M -> e <= eb ->
  M <= Zpos mb * 2 ^ (eb - e) ->
  (l <> loc_Exact -> M < Zpos mb * 2 ^ (eb - e)) ->
  binary_round_aux prec emax s M e l = S754_zero s \/
  exists (m' : positive) (e' : Z),
    binary_round_aux prec emax s M e l = S754_finite s m' e' /\
    (e' < eb \/ (e' = eb /\ (m' <= mb)%positive)).
Proof.
  intros Hb HM He Hle Hlt.
  destruct (bounded_facts mb eb Hb) as (Hcanon & Heb & Hmb).
  pose proof (digits2_bounds mb) as Hdb.
  unfold binary_round_aux.
  destruct (shr_fexp_spec M e l HM) as (n & mrs & -> & Hn & He1 & Hm & Hex & Hn0).
  rewrite fexp_eq in He1.
  set (e1 := e + n) in *.
  set (m1 := round_nearest_even (shr_m mrs) (loc_of_shr_record mrs)).
  assert (HP : 0 < 2 ^ n) by (apply Z.pow_pos_nonneg; lia).
  assert (Hm0 : 0 <= M / 2 ^ n) by (apply Z.div_pos; lia).
  (* the exponent after the first step *)
  assert (He1b : e1 <= eb).
  { destruct (Z.eq_dec M 0) as [->|Hne].
    - cbn [Zdigits2] in He1. lia.
    - destruct M as [|pM|pM]; [lia| |lia]. cbn [Zdigits2] in He1.
      pose proof (digits2_bounds pM) as HdM.
      assert (Hlt2 : 2 ^ (Zpos (digits2_pos pM) - 1)
                     < 2 ^ (Zpos (digits2_pos mb) + (eb - e))).
      { rewrite Z.pow_add_r by lia.
        assert (0 < 2 ^ (eb - e)) by (apply Z.pow_pos_nonneg; lia). nia. }
      apply Z.pow_lt_mono_r_iff in Hlt2; lia. }
  assert (He1m : -1074 <= e1) by lia.
  assert (Hsplit : 2 ^ (eb - e) = 2 ^ (eb - e1) * 2 ^ n).
  { rewrite <- Z.pow_add_r by lia. f_equal. lia. }
  assert (Hm1 : 0 <= m1 <= Zpos mb * 2 ^ (eb - e1)).
  { unfold m1.
    destruct (round_nearest_even_cases (shr_m mrs) (loc_of_shr_record mrs))
      as [-> | [-> Hinexact]]; rewrite Hm.
    - split; [exact Hm0|]. apply floor_le; [exact HP|]. nia.
    - split; [lia|]. apply floor_succ_le; [exact HP | nia |].
      destruct (Z.eq_dec (M mod 2 ^ n) 0) as [Hmod|Hmod]; [|now left].
      right. rewrite <- Z.mul_assoc, <- Hsplit. apply Hlt.
      intros Hl. apply Hinexact. now apply Hex. }
  assert (Hm1u : m1 <= 2 ^ 53).
  { assert (Hfl : M / 2 ^ n < 2 ^ 53).
    { apply Z.div_lt_upper_bound; [exact HP|].
      destruct M as [|pM|pM]; [nia| |lia]. cbn [Zdigits2] in He1.
      pose proof (digits2_bounds pM) as HdM.
      assert (2 ^ Zpos (digits2_pos pM) <= 2 ^ (n + 53))
        by (apply Z.pow_le_mono_r; lia).
      rewrite Z.pow_add_r in H by lia. lia. }
    unfold m1.
    destruct (round_nearest_even_cases (shr_m mrs) (loc_of_shr_record mrs))
      as [-> | [-> _]]; rewrite Hm; lia. }
  cbv beta iota zeta. fold m1.
  destruct (shr_fexp_spec m1 e1 loc_Exact (proj1 Hm1))
    as (n2 & mrs2 & -> & Hn2 & He2 & Hm2 & _ & _).
  rewrite fexp_eq in He2.
  destruct (Z.eq_dec m1 0) as [Hz|Hnz].
  - left. rewrite Hm2, Hz. now rewrite Z.div_0_l by (apply Z.pow_nonzero; lia).
  - right. destruct (Z.eq_dec m1 (2 ^ 53)) as [Htop|Hnt].
    + rewrite Htop in He2, Hm2, Hm1.
      change (Zdigits2 (2 ^ 53)) with 54 in He2.
      assert (n2 = 1) by lia. subst n2.
      change (2 ^ 53 / 2 ^ 1) with (Zpos 4503599627370496) in Hm2.
      rewrite Hm2.
      assert (Hgap : e1 + 1 <= eb).
      { destruct (Z.eq_dec e1 eb) as [Heq|Hneq]; [|lia].
        rewrite Heq, Z.sub_diag in Hm1. change (2 ^ 0) with 1 in Hm1. lia. }
      rewrite (proj2 (Z.leb_le (e1 + 1) (emax - prec)))
        by (change (emax - prec) with 971; lia).
      exists 4503599627370496%positive, (e1 + 1). split; [reflexivity|].
      destruct (Z.eq_dec (e1 + 1) eb) as [Heq|Hneq]; [right | left; lia].
      split; [exact Heq|].
      replace (eb - e1) with 1 in Hm1 by lia. change (2 ^ 1) with 2 in Hm1.
      apply Pos2Z.pos_le_pos. change (Zpos 4503599627370496) with (2 ^ 52). lia.
    + destruct m1 as [|p1|p1] eqn:Hp1; [lia| |lia].
      cbn [Zdigits2] in He2.
      pose proof (digits_le_53 p1 ltac:(lia)) as Hd1.
      assert (n2 = 0) by lia. subst n2.
      change (2 ^ 0) with 1 in Hm2. rewrite Z.div_1_r in Hm2. rewrite Hm2.
      rewrite Z.add_0_r.
      rewrite (proj2 (Z.leb_le e1 (emax - prec)))
        by (change (emax - prec) with 971; lia).
      exists p1, e1. split; [reflexivity|].
      destruct (Z.eq_dec e1 eb) as [Heq|Hneq]; [right | left; lia].
      split; [exact Heq|].
      rewrite Heq, Z.sub_diag in Hm1. change (2 ^ 0) with 1 in Hm1.
      apply Pos2Z.pos_le_pos. lia.
Qed.

Lemma round_sign (s : bool) (M e : Z) (l : location) :
  0 <= M ->
  binary_round_aux prec emax s M e l = S754_zero s \/
  binary_round_aux prec emax s M e l = S754_infinity s \/
  exists (m' : positive) (e' : Z),
    binary_round_aux prec emax s M e l = S754_finite s m' e'.
Proof.
  intros HM. unfold binary_round_aux.
  destruct (shr_fexp_spec M e l HM) as (n & mrs & -> & Hn & _ & Hm & _ & _).
  assert (HP : 0 < 2 ^ n) by (apply Z.pow_pos_nonneg; lia).
  assert (Hm0 : 0 <= M / 2 ^ n) by (apply Z.div_pos; lia).
  set (m1 := round_nearest_even (shr_m mrs) (loc_of_shr_record mrs)).
  assert (Hm1 : 0 <= m1).
  { unfold m1.
    destruct (round_nearest_even_cases (shr_m mrs) (loc_of_shr_record mrs))
      as [-> | [-> _]]; rewrite Hm; lia. }
  cbv beta iota zeta. fold m1.
  destruct (shr_fexp_spec m1 (e + n) loc_Exact Hm1)
    as (n2 & mrs2 & -> & Hn2 & _ & Hm2 & _ & _).
  assert (0 <= shr_m mrs2)
    by (rewrite Hm2; apply Z.div_pos; [lia | apply Z.pow_pos_nonneg; lia]).
  destruct (shr_m mrs2) as [|p|p]; [now left | | lia].
  right. destruct (e + n + n2 <=? emax - prec); [right; eauto | now left].
Qed.

Lemma iter_xO (m d : positive) :
  Zpos (Pos.iter xO m d) = Zpos m * 2 ^ Zpos d.
Proof.
  induction d as [|d IH] using Pos.peano_ind.
  - cbn [Pos.iter]. rewrite (Pos2Z.inj_xO m). change (2 ^ 1) with 2. lia.
  - rewrite Pos.iter_succ, (Pos2Z.inj_xO (Pos.iter xO m d)), IH.
    rewrite Pos2Z.inj_succ, Z.pow_succ_r by lia. lia.
Qed.

Lemma shl_align_spec (mx : positive) (ex ex' : Z) :
  snd (shl_align mx ex ex') = Z.min ex ex' /\
  Zpos (fst (shl_align mx ex ex')) = Zpos mx * 2 ^ (ex - Z.min ex ex').
Proof.
  unfold shl_align.
  destruct (ex' - ex) as [|d|d] eqn:Hd; cbn [fst snd].
  - replace (Z.min ex ex') with ex by lia.
    rewrite Z.sub_diag. change (2 ^ 0) with 1. lia.
  - replace (Z.min ex ex') with ex by lia.
    rewrite Z.sub_diag. change (2 ^ 0) with 1. lia.
  - replace (Z.min ex ex') with ex' by lia.
    replace (ex - ex') with (Zpos d) by lia.
    split; [reflexivity | apply iter_xO].
Qed.

Lemma digits_mono (p q : positive) :
  (p <= q)%positive -> Zpos (digits2_pos p) <= Zpos (digits2_pos q).
Proof.
  intros Hpq. apply Pos2Z.pos_le_pos in Hpq.
  pose proof (digits2_bounds p) as Hp. pose proof (digits2_bounds q) as Hq.
  assert (Hlt : 2 ^ (Zpos (digits2_pos p) - 1) < 2 ^ Zpos (digits2_pos q))
    by lia.
  apply Z.pow_lt_mono_r_iff in Hlt; lia.
Qed.

(** Two canonical mantissas of different exponents. *)
Lemma normal_mantissa (m : positive) (e : Z) :
  bounded prec emax m e = true -> -1074 < e ->
  Zpos (digits2_pos m) = 53 /\ 2 ^ 52 <= Zpos m.
Proof.
  intros Hb He. destruct (bounded_facts m e Hb) as (Hcanon & _ & _).
  assert (Hd : Zpos (digits2_pos m) = 53) by lia.
  split; [exact Hd|].
  pose proof (digits2_bounds m) as Hm. rewrite Hd in Hm.
  change (53 - 1) with 52 in Hm. lia.
Qed.

Lemma leb_pos_below (m1 : positive) (e1 : Z) (m2 : positive) (e2 : Z) :
  SFleb (S754_finite false m1 e1) (S754_finite false m2 e2) = true ->
  below m1 e1 m2 e2.
Proof.
  unfold SFleb, SFcompare, below.
  change (PosDef.Pos.compare_cont Eq m1 m2) with (Pos.compare m1 m2).
  destruct (Z.compare_spec e1 e2) as [Heq|Hlt|Hgt]; try discriminate.
  - intros Hc. right. split; [exact Heq|].
    unfold Pos.le. destruct (m1 ?= m2)%positive; discriminate.
  - intros _. now left.
Qed.

Lemma leb_neg_below (m1 : positive) (e1 : Z) (m2 : positive) (e2 : Z) :
  SFleb (S754_finite true m2 e2) (S754_finite true m1 e1) = true <->
  below m1 e1 m2 e2.
Proof.
  unfold SFleb, SFcompare, below.
  change (PosDef.Pos.compare_cont Eq m2 m1) with (Pos.compare m2 m1).
  rewrite (Pos.compare_antisym m1 m2).
  destruct (Z.compare_spec e2 e1) as [Heq|Hlt|Hgt].
  - unfold Pos.le. split.
    + intros Hc. right. split; [now symmetry|].
      destruct (m1 ?= m2)%positive; simpl in *; discriminate.
    + intros [Hlt | [_ Hle]]; [lia|].
      destruct (m1 ?= m2)%positive; simpl in *; congruence.
  - split; [discriminate | intros [Hlt' | [Heq _]]; lia].
  - split; [intros _; now left | reflexivity].
Qed.

(** The order of two canonical values as an order of integers. *)
Lemma below_value (m1 : positive) (e1 : Z) (m2 : positive) (e2 : Z) :
  bounded prec emax m1 e1 = true -> bounded prec emax m2 e2 = true ->
  below m1 e1 m2 e2 ->
  Zpos m1 * 2 ^ (e1 - Z.min e1 e2) <= Zpos m2 * 2 ^ (e2 - Z.min e1 e2) /\
  Zpos (digits2_pos m1) + e1 <= Zpos (digits2_pos m2) + e2.
Proof.
  intros Hb1 Hb2 [Hlt | [Heq Hle]].
  - destruct (bounded_facts m1 e1 Hb1) as (Hc1 & _ & Hm1).
    destruct (normal_mantissa m2 e2 Hb2 ltac:(lia)) as [Hd2 Hm2].
    replace (Z.min e1 e2) with e1 by lia.
    rewrite Z.sub_diag. change (2 ^ 0) with 1.
    split; [|lia].
    assert (2 ^ 1 <= 2 ^ (e2 - e1)) by (apply Z.pow_le_mono_r; lia).
    change (2 ^ 1) with 2 in H. change (2 ^ 53) with (2 * 2 ^ 52) in Hm1. nia.
  - subst e2. replace (Z.min e1 e1) with e1 by lia.
    rewrite Z.sub_diag. change (2 ^ 0) with 1.
    pose proof (digits_mono m1 m2 Hle). apply Pos2Z.pos_le_pos in Hle.
    split; lia.
Qed.


Lemma within_rounded (mb : positive) (eb : Z) (r : spec_float) :
  (r = S754_zero true \/
   exists (m' : positive) (e' : Z),
     r = S754_finite true m' e' /\
     (e' < eb \/ (e' = eb /\ (m' <= mb)%positive))) ->
  within (S754_finite false mb eb) r.
Proof.
  intros [-> | (m' & e' & -> & Hbelow)]; right; split; try reflexivity.
  cbn [SFopp negb]. now apply leb_neg_below.
Qed.

Lemma SFsub_range (c m : spec_float) :
  valid_binary c = true -> valid_binary m = true ->
  SFleb (S754_zero false) c = true -> SFleb c m = true ->
  within m (SF64sub c m).
Proof.
  intros Hvc Hvm Hc Hcm.
  destruct c as [sc|sc| |sc mc ec]; try discriminate;
    destruct m as [sm|sm| |sm mm em]; try discriminate;
    try (destruct sc; discriminate); try (destruct sm; discriminate);
    try (destruct sc, sm; discriminate).
  - (* 0 - 0 *)
    right. destruct sc, sm; split; reflexivity.
  - (* 0 - inf *)
    destruct sm; [destruct sc; discriminate|]. right. split; reflexivity.
  - (* 0 - m *)
    destruct sm; [discriminate|]. right. cbn [SF64sub SFsub SFopp negb]. split.
    + apply leb_neg_below. right. split; [reflexivity | apply Pos.le_refl].
    + reflexivity.
  - (* inf - inf *)
    destruct sc; [discriminate|]. destruct sm; [discriminate|]. now left.
  - (* c - inf *)
    destruct sm; [destruct sc; discriminate|]. right. split; reflexivity.
  - (* c - m *)
    destruct sc; [discriminate|]. destruct sm; [discriminate|].
    cbn [valid_binary] in Hvc, Hvm.
    pose proof (leb_pos_below _ _ _ _ Hcm) as Hbelow.
    destruct (below_value _ _ _ _ Hvc Hvm Hbelow) as [Hval _].
    unfold SF64sub, SFsub. cbn [cond_Zopp].
    assert (Hmin : Z.min ec em = ec) by (destruct Hbelow as [?|[? _]]; lia).
    rewrite Hmin in Hval |- *.
    destruct (shl_align_spec mc ec ec) as [_ Hzc].
    destruct (shl_align_spec mm em ec) as [_ Hzm].
    rewrite Z.min_id in Hzc.
    replace (Z.min em ec) with ec in Hzm by lia.
    set (zc := Zpos (fst (shl_align mc ec ec))) in *.
    set (zm := Zpos (fst (shl_align mm em ec))) in *.
    destruct (zc - zm) as [|p|p] eqn:Hz; [| lia |].
    + right. split; reflexivity.
    + apply within_rounded.
      cbn [binary_normalize]. unfold binary_round.
      destruct (shl_align_spec p ec (fexp prec emax (Zpos (digits2_pos p) + ec)))
        as [He' Hm'].
      destruct (shl_align p ec (fexp prec emax (Zpos (digits2_pos p) + ec)))
        as [mz ez]. cbn [fst snd] in He', Hm'.
      destruct (round_below true (Zpos mz) ez loc_Exact mm em Hvm)
        as [Hr | Hr]; try lia.
      * rewrite Hm', <- He'.
        replace (em - ez) with ((em - ec) + (ec - ez)) by lia.
        rewrite Z.pow_add_r by lia.
        assert (0 < 2 ^ (ec - ez)) by (apply Z.pow_pos_nonneg; lia).
        assert (0 < zc) by (unfold zc; lia).
        clearbody zc zm.
        assert (Zpos p <= zm) by lia. rewrite Hzm in H1. nia.
      * congruence.
      * now left.
      * now right.
Qed.

Lemma new_location_exact (nb : Z) : new_location nb 0 = loc_Exact.
Proof. unfold new_location. now destruct (Z.even nb). Qed.

Lemma div_core_spec (m1 : positive) (e1 : Z) (m2 : positive) (e2 : Z) :
  exists q r : Z,
    SFdiv_core_binary prec emax (Zpos m1) e1 (Zpos m2) e2
    = (q, Z.min (fexp prec emax (Zpos (digits2_pos m1) + e1
                                 - (Zpos (digits2_pos m2) + e2)))
                (e1 - e2),
       new_location (Zpos m2) r) /\
    Zpos m1 * 2 ^ (e1 - e2
                   - Z.min (fexp prec emax (Zpos (digits2_pos m1) + e1
                                            - (Zpos (digits2_pos m2) + e2)))
                           (e1 - e2))
    = Zpos m2 * q + r /\
    0 <= r < Zpos m2.
Proof.
  unfold SFdiv_core_binary. cbn [Zdigits2].
  set (e' := Z.min (fexp prec emax (Zpos (digits2_pos m1) + e1
                                    - (Zpos (digits2_pos m2) + e2)))
                   (e1 - e2)).
  assert (Hs : 0 <= e1 - e2 - e') by lia.
  set (m' := match e1 - e2 - e' with
             | 0 => Zpos m1
             | Zpos _ => Z.shiftl (Zpos m1) (e1 - e2 - e')
             | Zneg _ => 0
             end).
  assert (Hm' : m' = Zpos m1 * 2 ^ (e1 - e2 - e')).
  { unfold m'. destruct (e1 - e2 - e') as [|p|p] eqn:Hp.
    - change (2 ^ 0) with 1. lia.
    - now rewrite Z.shiftl_mul_pow2 by lia.
    - lia. }
  pose proof (Z_div_mod m' (Zpos m2) ltac:(lia)) as Hdiv.
  destruct (Z.div_eucl m' (Zpos m2)) as [q r].
  exists q, r. split; [reflexivity|]. rewrite <- Hm'. lia.
Qed.

Lemma SFdiv_range (r m : spec_float) :
  valid_binary r = true -> valid_binary m = true ->
  SFleb (SFopp m) r = true -> SFleb r (S754_zero false) = true ->
  within SF_one (SF64div r m).
Proof.
  intros Hvr Hvm Hmr Hr.
  destruct r as [sr|sr| |sr mr er]; try discriminate;
    destruct m as [sm|sm| |sm mm em]; try discriminate;
    try (destruct sr; discriminate); try (destruct sm; discriminate);
    try (destruct sr, sm; discriminate).
  - (* 0 / 0 *) now left.
  - (* 0 / inf *)
    right. destruct sr, sm; split; try reflexivity; discriminate.
  - (* 0 / m *)
    destruct sm; [discriminate|]. right. destruct sr; split; reflexivity.
  - (* -inf / inf *) now left.
  - (* r / inf *)
    destruct sr; [|discriminate]. destruct sm; [discriminate|].
    right. split; reflexivity.
  - (* r / m *)
    destruct sr; [|discriminate]. destruct sm; [discriminate|].
    cbn [valid_binary] in Hvr, Hvm. cbn [SFopp negb] in Hmr.
    apply leb_neg_below in Hmr.
    destruct (below_value _ _ _ _ Hvr Hvm Hmr) as [Hval Hdig].
    unfold SF64div, SFdiv.
    destruct (div_core_spec mr er mm em) as (q & rr & -> & Hq & Hrr).
    rewrite fexp_eq in Hq |- *.
    set (e' := Z.min (Z.max (Zpos (digits2_pos mr) + er
                             - (Zpos (digits2_pos mm) + em) - 53) (-1074))
                     (er - em)) in *.
    assert (He' : e' <= -53) by lia.
    cbn [xorb].
    apply within_rounded.
    assert (Hmin : Z.min er em = er) by (destruct Hmr as [?|[? _]]; lia).
    rewrite Hmin, Z.sub_diag in Hval. change (2 ^ 0) with 1 in Hval.
    assert (Hpow : 2 ^ (em - er) * 2 ^ (er - em - e') = 2 ^ (- e')).
    { rewrite <- Z.pow_add_r by lia. f_equal. lia. }
    assert (Hps : 0 < 2 ^ (er - em - e')) by (apply Z.pow_pos_nonneg; lia).
    assert (Hbound : Zpos mm * q + rr <= Zpos mm * 2 ^ (- e')).
    { rewrite <- Hq, <- Hpow. nia. }
    assert (Hone : 4503599627370496 * 2 ^ (-52 - e') = 2 ^ (- e')).
    { change 4503599627370496 with (2 ^ 52).
      rewrite <- Z.pow_add_r by lia. f_equal. lia. }
    destruct (round_below true q e' (new_location (Zpos mm) rr)
                          4503599627370496 (-52) eq_refl)
      as [Hz | Hf]; try lia.
    + nia.
    + rewrite Hone. nia.
    + intros Hl. rewrite Hone.
      assert (rr <> 0) by (intros ->; apply Hl, new_location_exact). nia.
    + now left.
    + now right.
Qed.

Lemma SFdiv_self (m : positive) (e : Z) :
  SF64div (S754_finite false m e) (S754_finite false m e) = SF_one.
Proof.
  unfold SF64div, SFdiv, SFdiv_core_binary. cbn [Zdigits2].
  replace (Zpos (digits2_pos m) + e - (Zpos (digits2_pos m) + e)) with 0 by lia.
  rewrite Z.sub_diag.
  change (Z.min (fexp prec emax 0) 0) with (-53).
  change (0 - -53) with 53. cbv iota.
  rewrite Z.shiftl_mul_pow2 by lia.
  rewrite (Z.mul_comm (Zpos m)), Binary64Nan.div_eucl_exact by lia.
  rewrite new_location_exact. reflexivity.
Qed.

Lemma SFdiv_nonneg (mx : positive) (ex : Z) (my : positive) (ey : Z) :
  SFleb (S754_zero false)
        (SF64div (S754_finite false mx ex) (S754_finite false my ey)) = true.
Proof.
  unfold SF64div, SFdiv.
  destruct (div_core_spec mx ex my ey) as (q & r & -> & Hq & Hr).
  cbn [xorb].
  assert (Hq0 : 0 <= q).
  { assert (0 < 2 ^ (ex - ey
                     - Z.min (fexp prec emax (Zpos (digits2_pos mx) + ex
                                              - (Zpos (digits2_pos my) + ey)))
                             (ex - ey)))
      by (apply Z.pow_pos_nonneg; lia).
    nia. }
  destruct (round_sign false q
              (Z.min (fexp prec emax (Zpos (digits2_pos mx) + ex
                                      - (Zpos (digits2_pos my) + ey)))
                     (ex - ey))
              (new_location (Zpos my) r) Hq0)
    as [-> | [-> | (m' & e' & ->)]]; reflexivity.
Qed.
End Binary64Round.
Module Binary64Quotient.
Import SpecFloat FloatOps FloatAxioms Binary64Laws Binary64Notions Binary64Round.
Local Open Scope Z_scope.

Lemma Prim2SF_inf : Prim2SF finf = S754_infinity false.
Proof. vm_compute. reflexivity. Qed.

Lemma Prim2SF_minus_one : Prim2SF fminus_one = SFopp SF_one.
Proof. vm_compute. reflexivity. Qed.

Lemma positive_finite (x : PrimFloat.float) :
  PrimFloat.ltb fzero x = true -> PrimFloat.ltb x finf = true ->
  exists (m : positive) (e : Z), Prim2SF x = S754_finite false m e.
Proof.
  rewrite !ltb_spec, Prim2SF_zero, Prim2SF_inf.
  destruct (Prim2SF x) as [s|s| |s m e]; try discriminate.
  - destruct s; discriminate.
  - destruct s; [discriminate|]. intros _ _. eauto.
Qed.

Lemma is_nan_of_spec (x : PrimFloat.float) :
  Prim2SF x = S754_nan -> PrimFloat.is_nan x = true.
Proof. intros Hx. now rewrite is_nan_SF, Hx. Qed.

Lemma div_same (x : PrimFloat.float) :
  PrimFloat.ltb fzero x = true -> PrimFloat.ltb x finf = true ->
  PrimFloat.div x x = fone.
Proof.
  intros H0 Hinf. destruct (positive_finite x H0 Hinf) as (m & e & Hx).
  apply Prim2SF_inj. rewrite div_spec, Hx, Prim2SF_one. apply SFdiv_self.
Qed.

Lemma div_positive (x y : PrimFloat.float) :
  PrimFloat.ltb fzero x = true -> PrimFloat.ltb x finf = true ->
  PrimFloat.ltb fzero y = true -> PrimFloat.ltb y finf = true ->
  PrimFloat.leb fzero (PrimFloat.div x y) = true.
Proof.
  intros Hx0 Hxi Hy0 Hyi.
  destruct (positive_finite x Hx0 Hxi) as (mx & ex & Hx).
  destruct (positive_finite y Hy0 Hyi) as (my & ey & Hy).
  rewrite leb_spec, div_spec, Prim2SF_zero, Hx, Hy. apply SFdiv_nonneg.
Qed.

Lemma sub_within (c m : PrimFloat.float) :
  PrimFloat.leb fzero c = true -> PrimFloat.leb c m = true ->
  PrimFloat.is_nan (PrimFloat.sub c m) = true \/
  (PrimFloat.leb (PrimFloat.opp m) (PrimFloat.sub c m) = true /\
   PrimFloat.leb (PrimFloat.sub c m) fzero = true).
Proof.
  intros Hc Hcm. rewrite leb_spec, Prim2SF_zero in Hc. rewrite leb_spec in Hcm.
  destruct (SFsub_range _ _ (Prim2SF_valid c) (Prim2SF_valid m) Hc Hcm)
    as [Hn | [Hlow Hup]].
  - left. apply is_nan_of_spec. now rewrite sub_spec.
  - right. now rewrite !leb_spec, opp_spec, sub_spec, Prim2SF_zero.
Qed.

Lemma div_within (r m : PrimFloat.float) :
  PrimFloat.leb (PrimFloat.opp m) r = true -> PrimFloat.leb r fzero = true ->
  PrimFloat.is_nan (PrimFloat.div r m) = true \/
  (PrimFloat.leb fminus_one (PrimFloat.div r m) = true /\
   PrimFloat.leb (PrimFloat.div r m) fzero = true).
Proof.
  intros Hmr Hr. rewrite leb_spec, opp_spec in Hmr.
  rewrite leb_spec, Prim2SF_zero in Hr.
  destruct (SFdiv_range _ _ (Prim2SF_valid r) (Prim2SF_valid m) Hmr Hr)
    as [Hn | [Hlow Hup]].
  - left. apply is_nan_of_spec. now rewrite div_spec.
  - right.
    now rewrite !leb_spec, div_spec, Prim2SF_zero, Prim2SF_minus_one.
Qed.
End Binary64Quotient.

#[global] Instance B64_quotient : FloatQuotient PrimFloat.float.
Proof.
  constructor.
  - apply Binary64Quotient.div_same.
  - apply Binary64Quotient.div_positive.
  - vm_compute. reflexivity.
  - apply Binary64Quotient.sub_within.
  - apply Binary64Quotient.div_within.
Qed.

Module IdealQuotient.
Import Ideal IdealFacts.
Local Open Scope R_scope.

Lemma xleb_finite (a b : R) : xleb (Fin a) (Fin b) = true <-> a <= b.
Proof.
  unfold xleb. simpl. split.
  - intros Hle. apply orb_prop in Hle. destruct Hle as [Hlt | Heq].
    + apply Rltb_lt in Hlt. lra.
    + apply Reqb_eq in Heq. lra.
  - intros [Hlt | Heq].
    + now rewrite Rltb_true.
    + now rewrite (Reqb_true a b Heq), orb_true_r.
Qed.

Lemma positive_real (x : xreal) :
  xltb (Fin 0) x = true -> xltb x PInf = true -> exists a, x = Fin a /\ 0 < a.
Proof.
  destruct x as [a| | |]; simpl; try discriminate.
  intros Ha _. exists a. split; [reflexivity | now apply Rltb_lt].
Qed.

Lemma xdiv_self (x : xreal) :
  xltb (Fin 0) x = true -> xltb x PInf = true -> xdiv x x = Fin 1.
Proof.
  intros H0 Hinf. destruct (positive_real x H0 Hinf) as (a & -> & Ha).
  simpl. rewrite Reqb_false by lra. f_equal. field. lra.
Qed.

Lemma xdiv_nonneg (x y : xreal) :
  xltb (Fin 0) x = true -> xltb x PInf = true ->
  xltb (Fin 0) y = true -> xltb y PInf = true ->
  xleb (Fin 0) (xdiv x y) = true.
Proof.
  intros Hx0 Hxi Hy0 Hyi.
  destruct (positive_real x Hx0 Hxi) as (a & -> & Ha).
  destruct (positive_real y Hy0 Hyi) as (b & -> & Hb).
  simpl. rewrite Reqb_false by lra. apply xleb_finite.
  apply Rlt_le. now apply Rdiv_lt_0_compat.
Qed.

Lemma xsub_range (c m : xreal) :
  xleb (Fin 0) c = true -> xleb c m = true ->
  xisnan (xsub c m) = true \/
  (xleb (xneg m) (xsub c m) = true /\ xleb (xsub c m) (Fin 0) = true).
Proof.
  destruct c as [a| | |], m as [b| | |]; try discriminate;
    try (now left); try (intros _ _; right; split; reflexivity).
  intros Ha Hab. apply xleb_finite in Ha. apply xleb_finite in Hab.
  right. cbn [xsub xneg]. split; apply xleb_finite; lra.
Qed.

Lemma xdiv_range (r m : xreal) :
  xleb (xneg m) r = true -> xleb r (Fin 0) = true ->
  xisnan (xdiv r m) = true \/
  (xleb (Fin (-1)) (xdiv r m) = true /\ xleb (xdiv r m) (Fin 0) = true).
Proof.
  destruct r as [a| | |], m as [b| | |]; try discriminate;
    try (now left).
  - cbn [xneg]. intros Hba Ha. apply xleb_finite in Hba. apply xleb_finite in Ha.
    cbn [xdiv]. destruct (Req_dec_T b 0) as [Hb|Hb].
    + left. rewrite Reqb_true by exact Hb.
      assert (a = 0) by lra. subst a. unfold scale_inf.
      now rewrite !Rltb_false by lra.
    + right. rewrite Reqb_false by exact Hb.
      assert (Hpos : 0 < b) by lra.
      assert (Hi : 0 < / b) by now apply Rinv_0_lt_compat.
      assert (Hbi : b * / b = 1) by (apply Rinv_r; lra).
      unfold Rdiv. split; apply xleb_finite; nra.
  - intros _ Ha. right. cbn [xdiv]. split; apply xleb_finite; lra.
Qed.
End IdealQuotient.

#[global] Instance Ideal_quotient : FloatQuotient xreal.
Proof.
  constructor.
  - apply IdealQuotient.xdiv_self.
  - apply IdealQuotient.xdiv_nonneg.
  - reflexivity.
  - apply IdealQuotient.xsub_range.
  - intros r m. change (@fminus_one xreal _) with (Fin (- 1)).
    apply IdealQuotient.xdiv_range.
Qed.

(** ** Columns of values *)

Section SeriesFacts.
Context {F : Type} `{FloatOps F}.

Lemma zip_with_length {A B C : Type} (f : A -> B -> C) (xs : list A) (ys : list B) :
  length (zip_with f xs ys) = Nat.min (length xs) (length ys).
Proof.
  revert ys; induction xs as [|x xs IH]; intros [|y ys]; simpl; auto.
Qed.

Lemma shift_length (n : nat) (xs : list F) : length (shift n xs) = length xs.
Proof.
  unfold shift. rewrite length_firstn, length_app, repeat_length. lia.
Qed.

Lemma shift_one_cons (x : F) (xs : list F) :
  shift 1 (x :: xs) = fnan :: firstn (length xs) (x :: xs).
Proof. reflexivity. Qed.

Lemma fillna_length (v : F) (xs : list F) : length (fillna v xs) = length xs.
Proof. apply length_map. Qed.

Lemma ffill_from_length (last : F) (xs : list F) :
  length (ffill_from last xs) = length xs.
Proof.
  revert last; induction xs as [|x xs IH]; intros last; simpl; auto.
Qed.

Lemma pct_change_length (n : nat) (xs : list F) :
  length (pct_change n xs) = length xs.
Proof.
  unfold pct_change, ffill.
  rewrite length_map, zip_with_length, shift_length, ffill_from_length. lia.
Qed.

Lemma market_returns_length (prices : list F) :
  length (market_returns prices) = length prices.
Proof. unfold market_returns. now rewrite fillna_length, pct_change_length. Qed.

Lemma positions_length (allow : bool) (signal : list F) :
  length (positions allow signal) = length signal.
Proof. unfold positions. now rewrite length_map, fillna_length, shift_length. Qed.

Lemma strategy_returns_length (allow : bool) (prices signal : list F) :
  length (strategy_returns allow prices signal)
  = Nat.min (length signal) (length prices).
Proof.
  unfold strategy_returns.
  now rewrite fillna_length, zip_with_length, positions_length, market_returns_length.
Qed.

Lemma aligned_length (labels : list Date) (df : DataFrame F) (vs : list F) :
  length (aligned labels df vs) = length labels.
Proof. apply length_map. Qed.

Lemma Forall_firstn {A : Type} (P : A -> Prop) (n : nat) (xs : list A) :
  Forall P xs -> Forall P (firstn n xs).
Proof.
  revert n; induction xs as [|x xs IH]; intros [|n] Hall; simpl; auto.
  inversion Hall; subst. constructor; auto.
Qed.


Lemma lookup_In (d : Date) (idx : list Date) (vs : list F) (v : F) :
  lookup d idx vs = Some v -> In v vs.
Proof.
  revert vs; induction idx as [|i idx IH]; intros [|x vs] Hl; simpl in *;
    try discriminate.
  destruct (Z.eqb d i); [inversion Hl; auto | right; auto].
Qed.


Lemma index_intersection_self (idx : list Date) :
  index_intersection idx idx = idx.
Proof.
  unfold index_intersection. apply forallb_filter_id.
  apply forallb_forall. intros d Hd. apply existsb_exists.
  exists d; split; [exact Hd | apply Z.eqb_refl].
Qed.

Lemma index_intersection_same_index (a b b' : list Date) :
  b = b' -> index_intersection a b = index_intersection a b'.
Proof. now intros ->. Qed.
End SeriesFacts.

(** ** Frames *)

Section FrameFacts.
Context {F : Type} `{FloatOps F}.

Lemma build_portfolio_columns (data signals : DataFrame F) (cap : F) (allow : bool) :
  columns (build_portfolio data signals cap allow)
  = [ ("Adj Close", col "Adj Close" data);
      ("signal", col "signal" signals);
      ("position", positions allow (col "signal" signals));
      ("market_return", market_returns (col "Adj Close" data));
      ("strategy_return",
       strategy_returns allow (col "Adj Close" data) (col "signal" signals));
      ("cumulative_market",
       cumprod (map (fadd fone) (market_returns (col "Adj Close" data))));
      ("cumulative_strategy",
       cumprod (map (fadd fone)
                    (strategy_returns allow (col "Adj Close" data)
                                      (col "signal" signals))));
      ("equity_curve",
       equity cap allow (col "Adj Close" data) (col "signal" signals)) ].
Proof. reflexivity. Qed.

Lemma build_portfolio_index (data signals : DataFrame F) (cap : F) (allow : bool) :
  index (build_portfolio data signals cap allow) = index data.
Proof. reflexivity. Qed.

Lemma assoc_loc (name : string) (labels idx : list Date)
      (cols : list (string * list F)) :
  assoc name (map (fun c : string * list F =>
                     (fst c, map (fun d => at_label d idx (snd c)) labels)) cols)
  = option_map (fun vs => map (fun d => at_label d idx vs) labels) (assoc name cols).
Proof.
  induction cols as [|[n vs] cols IH]; simpl; [reflexivity|].
  destruct (String.eqb name n); [reflexivity | exact IH].
Qed.

Lemma get_col_loc (name : string) (labels : list Date) (df : DataFrame F) :
  get_col name (loc labels df) = option_map (aligned labels df) (get_col name df).
Proof. unfold get_col, loc, aligned; simpl. apply assoc_loc. Qed.

Lemma col_loc (name : string) (labels : list Date) (df : DataFrame F) (vs : list F) :
  get_col name df = Some vs -> col name (loc labels df) = aligned labels df vs.
Proof.
  intros Hcol. unfold col. now rewrite get_col_loc, Hcol.
Qed.

Lemma first_valid_index_head (i : Date) (idx : list Date) (v : F) (vs : list F) :
  fisnan v = false -> first_valid_index (i :: idx) (v :: vs) = Some i.
Proof. intros Hv; simpl; now rewrite Hv. Qed.

Lemma columns_eta (cols : list (string * list F)) :
  map (fun c : string * list F => (fst c, snd c)) cols = cols.
Proof.
  induction cols as [|[n vs] cols IH]; simpl; [reflexivity | now rewrite IH].
Qed.

Lemma loc_from_head (i : Date) (idx : list Date) (cols : list (string * list F)) :
  loc_from i (mkFrame (i :: idx) cols) = mkFrame (i :: idx) cols.
Proof.
  unfold loc_from; simpl. rewrite Z.eqb_refl; simpl.
  now rewrite columns_eta.
Qed.

Lemma frame_eta (df : DataFrame F) : mkFrame (index df) (columns df) = df.
Proof. now destruct df. Qed.

Lemma df_not_empty (name : string) (df : DataFrame F) (vs : list F) :
  index df <> [] -> get_col name df = Some vs -> df_empty df = false.
Proof.
  unfold df_empty, get_col. destruct (index df); [congruence|].
  destruct (columns df); [discriminate | reflexivity].
Qed.

Lemma df_empty_false (df : DataFrame F) :
  df_empty df = false -> index df <> [] /\ columns df <> [].
Proof.
  unfold df_empty. destruct (index df), (columns df); intros Hne; try discriminate.
  split; discriminate.
Qed.
End FrameFacts.

(** ** The simulator returns the frame it built, untruncated *)

Section SimulatorFacts.
Context {F : Type} `{FloatConsts F}.

Lemma fillna_zero_valid (xs : list F) :
  Forall (fun x => fisnan x = false) (fillna fzero xs).
Proof.
  induction xs as [|x xs IH]; simpl; constructor; auto.
  destruct (fisnan x) eqn:Hx; [apply isnan_zero | exact Hx].
Qed.

Lemma first_valid_index_fillna (i : Date) (idx : list Date) (xs : list F) :
  xs <> [] -> first_valid_index (i :: idx) (fillna fzero xs) = Some i.
Proof.
  destruct xs as [|x xs]; [congruence | intros _].
  pose proof (fillna_zero_valid (x :: xs)) as Hvalid.
  simpl in *. inversion Hvalid as [|? ? Hx _]; subst. now rewrite Hx.
Qed.

Lemma col_strategy_return (data signals : DataFrame F) (cap : F) (allow : bool) :
  col "strategy_return" (build_portfolio data signals cap allow)
  = strategy_returns allow (col "Adj Close" data) (col "signal" signals).
Proof. reflexivity. Qed.

Lemma run_backtest_some (data signals : DataFrame F) (cap : F) (allow : bool)
      (prices signal : list F) (labels : list Date) :
  df_empty data = false ->
  df_empty signals = false ->
  get_col "Adj Close" data = Some prices ->
  get_col "signal" signals = Some signal ->
  index_intersection (index data) (index signals) = labels ->
  labels <> [] ->
  run_backtest (Some data) (Some signals) cap allow
  = Some (build_portfolio (loc labels data) (loc labels signals) cap allow).
Proof.
  intros Hd Hs Hp Hg Hl Hne. unfold run_backtest.
  rewrite Hd, Hs, Hp, Hg, Hl; simpl orb; cbv iota.
  destruct labels as [|c rest]; [congruence | clear Hne].
  set (portfolio := build_portfolio _ _ cap allow).
  assert (Hidx : index portfolio = c :: rest) by reflexivity.
  rewrite Hidx. unfold portfolio at 1.
  rewrite col_strategy_return, (col_loc _ (c :: rest) _ _ Hp), (col_loc _ (c :: rest) _ _ Hg).
  unfold strategy_returns. rewrite first_valid_index_fillna.
  - rewrite <- (frame_eta portfolio), Hidx, loc_from_head.
    reflexivity.
  - intros Hnil. apply (f_equal (@length F)) in Hnil.
    rewrite zip_with_length, positions_length, market_returns_length,
      !aligned_length in Hnil.
    simpl in Hnil. discriminate.
Qed.

Lemma run_backtest_inv (data signals : DataFrame F) (cap : F) (allow : bool)
      (p : DataFrame F) :
  run_backtest (Some data) (Some signals) cap allow = Some p ->
  exists prices signal,
    get_col "Adj Close" data = Some prices /\
    get_col "signal" signals = Some signal /\
    index_intersection (index data) (index signals) <> [] /\
    p = build_portfolio
          (loc (index_intersection (index data) (index signals)) data)
          (loc (index_intersection (index data) (index signals)) signals)
          cap allow.
Proof.
  intros Hrun.
  destruct (df_empty data) eqn:Hd;
    [unfold run_backtest in Hrun; rewrite Hd in Hrun; discriminate|].
  destruct (df_empty signals) eqn:Hs;
    [unfold run_backtest in Hrun; rewrite Hd, Hs in Hrun; discriminate|].
  destruct (get_col "Adj Close" data) as [prices|] eqn:Hp;
    [|unfold run_backtest in Hrun; rewrite Hd, Hs, Hp in Hrun; discriminate].
  destruct (get_col "signal" signals) as [signal|] eqn:Hg;
    [|unfold run_backtest in Hrun; rewrite Hd, Hs, Hp, Hg in Hrun; discriminate].
  destruct (index_intersection (index data) (index signals)) as [|c rest] eqn:Hl;
    [unfold run_backtest in Hrun; rewrite Hd, Hs, Hp, Hg, Hl in Hrun; discriminate|].
  exists prices, signal. repeat split; try congruence.
  rewrite (run_backtest_some _ _ cap allow _ _ _ Hd Hs Hp Hg Hl) in Hrun by congruence.
  congruence.
Qed.
End SimulatorFacts.

(** ** Invalid input is reported *)

Section Validation.
Context {F : Type} `{FloatOps F}.

(** The failure value on an input that violates a precondition. *)
Lemma run_backtest_invalid :
  forall (data signals : option (DataFrame F)) (cap : F) (allow : bool),
    precondition_violated data signals cap allow ->
    run_backtest data signals cap allow = None.
Proof.
  intros [d|] [s|] cap allow Hbad; try reflexivity.
  unfold precondition_violated in Hbad; cbv zeta in Hbad.
  unfold run_backtest.
  destruct (df_empty d) eqn:Hd; [reflexivity|].
  destruct (df_empty s) eqn:Hs; [reflexivity|]. simpl orb; cbv iota.
  destruct (get_col "Adj Close" d) as [prices|] eqn:Hp; [|reflexivity].
  destruct (get_col "signal" s) as [signal|] eqn:Hg; [|reflexivity].
  destruct (index_intersection (index d) (index s)) as [|c rest] eqn:Hl;
    [reflexivity|].
  destruct Hbad as [Hbad|[Hbad|[Hbad|[Hbad|[Hbad|Hbad]]]]]; try discriminate.
  cbv zeta. rewrite build_portfolio_index. simpl index.
  now rewrite Hbad.
Qed.

(** C2: whenever a precondition of the simulator is violated (an input is
    missing or empty, the price or the signal column is missing, the two
    date indexes do not intersect, or no date has a defined strategy return)
    the caller gets the failure value [None] and never a trajectory. *)
Theorem run_backtest_reports_invalid_input :
  forall (data signals : option (DataFrame F)) (cap : F) (allow : bool),
    precondition_violated data signals cap allow ->
    run_backtest data signals cap allow = None.
Proof.
  intros [d|] [s|] cap allow Hbad; try reflexivity.
  unfold precondition_violated in Hbad; cbv zeta in Hbad.
  unfold run_backtest.
  destruct (df_empty d) eqn:Hd; [reflexivity|].
  destruct (df_empty s) eqn:Hs; [reflexivity|]. simpl orb; cbv iota.
  destruct (get_col "Adj Close" d) as [prices|] eqn:Hp; [|reflexivity].
  destruct (get_col "signal" s) as [signal|] eqn:Hg; [|reflexivity].
  destruct (index_intersection (index d) (index s)) as [|c rest] eqn:Hl;
    [reflexivity|].
  destruct Hbad as [Hbad|[Hbad|[Hbad|[Hbad|[Hbad|Hbad]]]]]; try discriminate.
  cbv zeta. rewrite build_portfolio_index. simpl index.
  now rewrite Hbad.
Qed.
End Validation.

(** An input with no common date, as a witness of [C2]. *)
Lemma run_backtest_reports_invalid_input_witness :
  precondition_violated
    (Some (mkFrame [1%Z; 2%Z] [("Adj Close", [B64.of_Z 100; B64.of_Z 101])]))
    (Some (mkFrame [3%Z; 4%Z] [("signal", [B64.of_Z 1; B64.of_Z 0])]))
    (B64.of_Z 100000) false
  /\ run_backtest
       (Some (mkFrame [1%Z; 2%Z] [("Adj Close", [B64.of_Z 100; B64.of_Z 101])]))
       (Some (mkFrame [3%Z; 4%Z] [("signal", [B64.of_Z 1; B64.of_Z 0])]))
       (B64.of_Z 100000) false = None.
Proof.
  assert (Hbad : precondition_violated
    (Some (mkFrame [1%Z; 2%Z] [("Adj Close", [B64.of_Z 100; B64.of_Z 101])]))
    (Some (mkFrame [3%Z; 4%Z] [("signal", [B64.of_Z 1; B64.of_Z 0])]))
    (B64.of_Z 100000) false).
  { cbv zeta. simpl. do 4 right. left. reflexivity. }
  split; [exact Hbad|].
  exact (run_backtest_reports_invalid_input _ _ _ _ Hbad).
Defined.


(** ** No lookahead *)

Section NoLookahead.
Context {F : Type} `{FloatConsts F}.




Lemma positions_as_lag (allow : bool) (signal : list F) :
  positions allow signal
  = map (position_rule allow) (firstn (length signal) (fnan :: signal)).
Proof.
  unfold positions, shift, fillna. rewrite map_map. apply map_ext.
  intros s. unfold position_rule.
  destruct (fisnan s); [|reflexivity].
  unfold position_from_signal, fgtb. now rewrite zero_lt_zero.
Qed.


End NoLookahead.

Section PositionMapping.
Context {F : Type} `{FloatCompare F}.


End PositionMapping.


(** ** Shorting disabled *)

Section ShortingDisabled.
Context {F : Type} `{FloatConsts F}.





Lemma position_rule_nan (allow : bool) : position_rule allow fnan = fzero.
Proof. unfold position_rule. now rewrite isnan_nan. Qed.

Lemma position_rule_zero (allow : bool) : position_rule allow fzero = fzero.
Proof.
  unfold position_rule, position_from_signal, fgtb.
  now rewrite isnan_zero, zero_lt_zero.
Qed.





End ShortingDisabled.



(** ** The first row, and the all-zero signal *)

Section FlatTrajectory.
Context {F : Type} `{FloatLaws F}.

Lemma market_returns_head (x : F) (xs : list F) :
  exists rest, market_returns (x :: xs) = fzero :: rest.
Proof.
  unfold market_returns, pct_change, ffill, fillna. cbn [ffill_from].
  rewrite shift_one_cons. cbn [zip_with map].
  rewrite div_nan_r, sub_nan_l, isnan_nan. eauto.
Qed.

Lemma positions_head (allow : bool) (s : F) (ss : list F) :
  exists rest, positions allow (s :: ss) = fzero :: rest.
Proof.
  rewrite positions_as_lag. cbn [length firstn map].
  rewrite position_rule_nan. eauto.
Qed.

Lemma strategy_returns_head (allow : bool) (x s : F) (xs ss : list F) :
  exists rest, strategy_returns allow (x :: xs) (s :: ss) = fzero :: rest.
Proof.
  unfold strategy_returns, fillna.
  destruct (positions_head allow s ss) as [ps ->].
  destruct (market_returns_head x xs) as [ms ->].
  cbn [zip_with map]. rewrite mul_zero_zero, isnan_zero. eauto.
Qed.

Lemma equity_head (cap : F) (allow : bool) (x s : F) (xs ss : list F) :
  exists rest, equity cap allow (x :: xs) (s :: ss) = cap :: rest.
Proof.
  unfold equity, cumprod.
  destruct (strategy_returns_head allow x s xs ss) as [rs ->].
  cbn [map]. rewrite add_one_zero, isnan_one. cbn [map].
  rewrite mul_one_r. eauto.
Qed.

(** C9: on every trajectory the simulator returns, the first row has market
    return 0, position 0, strategy return 0 and equity equal to the initial
    capital, and the truncation removes no date: the index of the
    trajectory is the whole common index of the two inputs. *)
Theorem first_row_is_flat :
  forall (data signals : DataFrame F) (cap : F) (allow : bool)
         (p : DataFrame F),
    run_backtest (Some data) (Some signals) cap allow = Some p ->
    index p = index_intersection (index data) (index signals) /\
    hd_error (index p) = hd_error (index_intersection (index data) (index signals)) /\
    hd_error (col "market_return" p) = Some fzero /\
    hd_error (col "position" p) = Some fzero /\
    hd_error (col "strategy_return" p) = Some fzero /\
    hd_error (col "equity_curve" p) = Some cap.
Proof.
  intros data signals cap allow p Hrun.
  destruct (run_backtest_inv _ _ _ _ _ Hrun) as (prices & signal & Hp & Hg & Hne & ->).
  destruct (index_intersection (index data) (index signals)) as [|c rest];
    [congruence | clear Hne].
  assert (Hcp : col "Adj Close" (loc (c :: rest) data)
                = aligned (c :: rest) data prices) by now apply col_loc.
  assert (Hcs : col "signal" (loc (c :: rest) signals)
                = aligned (c :: rest) signals signal) by now apply col_loc.
  set (b := build_portfolio _ _ cap allow).
  assert (Hm : col "market_return" b = market_returns (aligned (c :: rest) data prices))
    by (rewrite <- Hcp; reflexivity).
  assert (Hq : col "position" b = positions allow (aligned (c :: rest) signals signal))
    by (rewrite <- Hcs; reflexivity).
  assert (Hr : col "strategy_return" b
               = strategy_returns allow (aligned (c :: rest) data prices)
                                  (aligned (c :: rest) signals signal))
    by (rewrite <- Hcp, <- Hcs; reflexivity).
  assert (He : col "equity_curve" b
               = equity cap allow (aligned (c :: rest) data prices)
                        (aligned (c :: rest) signals signal))
    by (rewrite <- Hcp, <- Hcs; reflexivity).
  rewrite Hm, Hq, Hr, He. unfold aligned. cbn [map].
  destruct (market_returns_head (at_label c (index data) prices)
              (map (fun d => at_label d (index data) prices) rest)) as [r1 ->].
  destruct (positions_head allow (at_label c (index signals) signal)
              (map (fun d => at_label d (index signals) signal) rest)) as [r2 ->].
  destruct (strategy_returns_head allow (at_label c (index data) prices)
              (at_label c (index signals) signal)
              (map (fun d => at_label d (index data) prices) rest)
              (map (fun d => at_label d (index signals) signal) rest)) as [r3 ->].
  destruct (equity_head cap allow (at_label c (index data) prices)
              (at_label c (index signals) signal)
              (map (fun d => at_label d (index data) prices) rest)
              (map (fun d => at_label d (index signals) signal) rest)) as [r4 ->].
  repeat split; reflexivity.
Qed.

(** *** The all-zero signal *)


Lemma aligned_zero_or_nan (labels : list Date) (df : DataFrame F) (zs : list F) :
  Forall (eq fzero) zs -> Forall zero_or_nan (aligned labels df zs).
Proof.
  intros Hz. unfold aligned. apply Forall_forall. intros x Hx.
  apply in_map_iff in Hx. destruct Hx as (d & <- & _).
  unfold at_label. destruct (lookup d (index df) zs) as [v|] eqn:Hl.
  - left. apply lookup_In in Hl. rewrite Forall_forall in Hz.
    symmetry; now apply Hz.
  - now right.
Qed.

Lemma position_rule_flat (allow : bool) (xs : list F) :
  Forall zero_or_nan xs ->
  map (position_rule allow) xs = repeat fzero (length xs).
Proof.
  induction 1 as [|x xs [-> | ->] _ IH]; cbn [map length repeat];
    [reflexivity| |]; rewrite IH; f_equal.
  - apply position_rule_zero.
  - apply position_rule_nan.
Qed.

Lemma positions_of_zeros (allow : bool) (xs : list F) :
  Forall zero_or_nan xs -> positions allow xs = repeat fzero (length xs).
Proof.
  intros Hz. rewrite positions_as_lag, position_rule_flat.
  - rewrite length_firstn. cbn [length]. f_equal. lia.
  - apply Forall_firstn. constructor; [now right | exact Hz].
Qed.

Lemma zero_positions_flat_returns (n : nat) (ms : list F) :
  Forall flat_return (fillna fzero (zip_with fmul (repeat fzero n) ms)).
Proof.
  unfold fillna. revert ms.
  induction n as [|n IH]; intros [|m ms]; cbn [repeat zip_with map];
    constructor; [apply zero_times_filled | apply IH].
Qed.

Lemma plus_one_flat (rs : list F) :
  Forall flat_return rs -> map (fadd fone) rs = repeat fone (length rs).
Proof.
  induction 1 as [|r rs [_ Hr] _ IH]; cbn [map length repeat];
    [reflexivity | now rewrite Hr, IH].
Qed.

Lemma cumprod_from_ones (k : nat) :
  cumprod_from fone (repeat fone k) = repeat (@fone F _) k.
Proof.
  induction k as [|k IH]; cbn [repeat cumprod_from]; [reflexivity|].
  now rewrite isnan_one, mul_one_r, IH.
Qed.

Lemma cumprod_ones (k : nat) : cumprod (repeat fone k) = repeat (@fone F _) k.
Proof.
  destruct k as [|k]; unfold cumprod; cbn [repeat]; [reflexivity|].
  now rewrite isnan_one, cumprod_from_ones.
Qed.

(** The columns of a trajectory whose aligned signals are all 0. *)
Lemma flat_columns (cap : F) (allow : bool) (labels : list Date)
      (data signals : DataFrame F) (prices zeros : list F) :
  Forall (eq fzero) zeros ->
  positions allow (aligned labels signals zeros)
  = repeat fzero (length labels) /\
  Forall flat_return
         (strategy_returns allow (aligned labels data prices)
                           (aligned labels signals zeros)) /\
  length (strategy_returns allow (aligned labels data prices)
                           (aligned labels signals zeros))
  = length labels /\
  equity cap allow (aligned labels data prices) (aligned labels signals zeros)
  = repeat cap (length labels).
Proof.
  intros Hz.
  assert (Hq : positions allow (aligned labels signals zeros)
               = repeat fzero (length labels)).
  { rewrite positions_of_zeros by now apply aligned_zero_or_nan.
    now rewrite aligned_length. }
  assert (Hr : Forall flat_return
                      (strategy_returns allow (aligned labels data prices)
                                        (aligned labels signals zeros))).
  { unfold strategy_returns. rewrite Hq. apply zero_positions_flat_returns. }
  assert (Hl : length (strategy_returns allow (aligned labels data prices)
                                        (aligned labels signals zeros))
               = length labels).
  { now rewrite strategy_returns_length, !aligned_length, Nat.min_id. }
  split; [exact Hq|]. split; [exact Hr|]. split; [exact Hl|].
  unfold equity. rewrite (plus_one_flat _ Hr), Hl, cumprod_ones, map_repeat.
  now rewrite mul_one_r.
Qed.

(** C4: for a non-empty price series and an all-zero signal over the same
    dates the simulator returns a trajectory over all the dates whose
    strategy return equals 0 at every date and whose equity is the initial
    capital at every date. *)
Theorem zero_signal_keeps_capital :
  forall (data signals : DataFrame F) (prices zeros : list F)
         (cap : F) (allow : bool),
    index data <> [] ->
    get_col "Adj Close" data = Some prices ->
    index signals = index data ->
    get_col "signal" signals = Some zeros ->
    Forall (eq fzero) zeros ->
    exists p,
      run_backtest (Some data) (Some signals) cap allow = Some p /\
      index p = index data /\
      length (col "strategy_return" p) = length (index data) /\
      Forall (fun r => feqb r fzero = true) (col "strategy_return" p) /\
      col "equity_curve" p = repeat cap (length (index data)).
Proof.
  intros data signals prices zeros cap allow Hne Hp Hi Hg Hz.
  assert (Hl : index_intersection (index data) (index signals) = index data)
    by (rewrite Hi; apply index_intersection_self).
  eexists. split.
  { eapply run_backtest_some; eauto.
    - eapply df_not_empty; eauto.
    - eapply df_not_empty; eauto. now rewrite Hi. }
  set (labels := index data).
  destruct (flat_columns cap allow labels data signals prices zeros Hz)
    as (_ & Hr & Hlen & He).
  assert (Hcr : col "strategy_return"
                    (build_portfolio (loc labels data) (loc labels signals) cap allow)
                = strategy_returns allow (aligned labels data prices)
                                   (aligned labels signals zeros)).
  { rewrite <- (col_loc _ labels _ _ Hp), <- (col_loc _ labels _ _ Hg).
    reflexivity. }
  assert (Hce : col "equity_curve"
                    (build_portfolio (loc labels data) (loc labels signals) cap allow)
                = equity cap allow (aligned labels data prices)
                         (aligned labels signals zeros)).
  { rewrite <- (col_loc _ labels _ _ Hp), <- (col_loc _ labels _ _ Hg).
    reflexivity. }
  rewrite Hcr, Hce.
  split; [reflexivity|]. split; [exact Hlen|]. split; [|exact He].
  eapply Forall_impl; [|exact Hr]. now intros r [Hr0 _].
Qed.
End FlatTrajectory.

(** [first_row_is_flat] on the trajectory of the example frames, binary64. *)
Lemma first_row_is_flat_witness :
  run_backtest (Some example_data) (Some example_signals) (B64.of_Z 100000) true
  = Some (build_portfolio (loc [1%Z; 2%Z; 3%Z; 4%Z] example_data)
                          (loc [1%Z; 2%Z; 3%Z; 4%Z] example_signals)
                          (B64.of_Z 100000) true)
  /\ hd_error (col "equity_curve"
                   (build_portfolio (loc [1%Z; 2%Z; 3%Z; 4%Z] example_data)
                                    (loc [1%Z; 2%Z; 3%Z; 4%Z] example_signals)
                                    (B64.of_Z 100000) true))
     = Some (B64.of_Z 100000).
Proof.
  assert (Hrun :
    run_backtest (Some example_data) (Some example_signals) (B64.of_Z 100000) true
    = Some (build_portfolio (loc [1%Z; 2%Z; 3%Z; 4%Z] example_data)
                            (loc [1%Z; 2%Z; 3%Z; 4%Z] example_signals)
                            (B64.of_Z 100000) true)).
  { eapply run_backtest_some; try reflexivity. discriminate. }
  split; [exact Hrun|].
  apply (first_row_is_flat _ _ _ _ _ Hrun).
Defined.

(** [zero_signal_keeps_capital] on the example frames, binary64. *)
Lemma zero_signal_keeps_capital_witness :
  exists p,
    run_backtest (Some example_data) (Some example_flat_signals)
                 (B64.of_Z 100000) false = Some p /\
    index p = index (@example_data PrimFloat.float _) /\
    length (col "strategy_return" p) = 4 /\
    Forall (fun r => feqb r fzero = true) (col "strategy_return" p) /\
    col "equity_curve" p = repeat (B64.of_Z 100000) 4.
Proof.
  apply (zero_signal_keeps_capital
           example_data example_flat_signals
           (col "Adj Close" example_data)
           [fzero; fzero; fzero; fzero] (B64.of_Z 100000) false);
    try reflexivity.
  - discriminate.
  - repeat constructor.
Defined.

(** ** Mean reversion: the overwrites, row by row *)

Section MeanReversionFacts.
Context {F : Type} `{FloatOps F}.

Lemma nth_zip_with {A B C : Type} (f : A -> B -> C) (xs : list A) (ys : list B)
      (t : nat) (da : A) (db : B) (dc : C) :
  t < length xs -> t < length ys ->
  nth t (zip_with f xs ys) dc = f (nth t xs da) (nth t ys db).
Proof.
  revert ys t; induction xs as [|x xs IH]; intros [|y ys] [|t] Hx Hy;
    simpl in *; try lia; auto.
  apply IH; lia.
Qed.

Lemma nth_map_lt {A B : Type} (f : A -> B) (xs : list A) (t : nat) (da : A) (db : B) :
  t < length xs -> nth t (map f xs) db = f (nth t xs da).
Proof.
  intros Ht. rewrite (nth_indep _ db (f da)) by now rewrite length_map.
  apply map_nth.
Qed.

Lemma nth_shift_one (xs : list F) (t : nat) :
  t < length xs -> nth t (shift 1 xs) fnan = row_above t xs.
Proof.
  intros Ht. unfold shift. rewrite nth_firstn.
  destruct (Nat.ltb_spec t (length xs)) as [_|Hge]; [|lia].
  now destruct t.
Qed.

Lemma set_where_length (mask : list bool) (v : F) (xs : list F) :
  length (set_where mask v xs) = Nat.min (length mask) (length xs).
Proof. apply zip_with_length. Qed.

Lemma nth_set_where (mask : list bool) (v : F) (xs : list F) (t : nat) :
  t < length mask -> t < length xs ->
  nth t (set_where mask v xs) fnan
  = if nth t mask false then v else nth t xs fnan.
Proof.
  intros Hm Hx. unfold set_where.
  exact (nth_zip_with (fun (m : bool) (x : F) => if m then v else x)
                      mask xs t false fnan fnan Hm Hx).
Qed.

Lemma mr_entries_length (entry_z : F) (zs signal : list F) :
  length zs = length signal -> length (mr_entries entry_z zs signal) = length signal.
Proof.
  intros Hl. unfold mr_entries.
  rewrite !set_where_length, !length_map. lia.
Qed.

Lemma mr_flatten_long_length (exit_z : F) (zs signal : list F) :
  length zs = length signal ->
  length (mr_flatten_long exit_z zs signal) = length signal.
Proof.
  intros Hl. unfold mr_flatten_long.
  rewrite set_where_length, zip_with_length, !length_map, shift_length. lia.
Qed.

Lemma mr_flatten_short_length (exit_z : F) (zs signal : list F) :
  length zs = length signal ->
  length (mr_flatten_short exit_z zs signal) = length signal.
Proof.
  intros Hl. unfold mr_flatten_short.
  rewrite set_where_length, zip_with_length, !length_map, shift_length. lia.
Qed.

(** After the entry overwrites a row holds the entry rule of its z-score. *)
Lemma mr_entries_nth (entry_z : F) (zs : list F) (n t : nat) :
  length zs = n -> t < n ->
  nth t (mr_entries entry_z zs (repeat fzero n)) fnan
  = mr_entry entry_z (nth t zs fnan).
Proof.
  intros Hl Ht. unfold mr_entries, mr_entry.
  rewrite nth_set_where;
    [| now rewrite length_map, Hl
     | now rewrite set_where_length, length_map, repeat_length, Hl, Nat.min_id].
  rewrite (nth_map_lt _ _ _ fnan) by now rewrite Hl.
  destruct (fgtb (nth t zs fnan) entry_z); [reflexivity|].
  rewrite nth_set_where;
    [| now rewrite length_map, Hl | now rewrite repeat_length].
  rewrite (nth_map_lt _ _ _ fnan) by now rewrite Hl.
  destruct (fltb (nth t zs fnan) (fneg entry_z)); [reflexivity|].
  now rewrite nth_repeat_lt.
Qed.

Lemma mr_flatten_long_nth (exit_z : F) (zs signal : list F) (t : nat) :
  length zs = length signal -> t < length signal ->
  nth t (mr_flatten_long exit_z zs signal) fnan
  = if feqb (row_above t signal) fone && fgtb (nth t zs fnan) (fneg exit_z)
    then fzero else nth t signal fnan.
Proof.
  intros Hl Ht. unfold mr_flatten_long.
  rewrite nth_set_where;
    [| now rewrite zip_with_length, !length_map, shift_length, Hl, Nat.min_id
     | exact Ht].
  rewrite (nth_zip_with _ _ _ _ false false)
    by (rewrite length_map, ?shift_length; lia).
  rewrite (nth_map_lt _ _ _ fnan) by now rewrite shift_length.
  rewrite (nth_map_lt _ _ _ fnan) by lia.
  now rewrite nth_shift_one.
Qed.

Lemma mr_flatten_short_nth (exit_z : F) (zs signal : list F) (t : nat) :
  length zs = length signal -> t < length signal ->
  nth t (mr_flatten_short exit_z zs signal) fnan
  = if feqb (row_above t signal) fminus_one && fltb (nth t zs fnan) exit_z
    then fzero else nth t signal fnan.
Proof.
  intros Hl Ht. unfold mr_flatten_short.
  rewrite nth_set_where;
    [| now rewrite zip_with_length, !length_map, shift_length, Hl, Nat.min_id
     | exact Ht].
  rewrite (nth_zip_with _ _ _ _ false false)
    by (rewrite length_map, ?shift_length; lia).
  rewrite (nth_map_lt _ _ _ fnan) by now rewrite shift_length.
  rewrite (nth_map_lt _ _ _ fnan) by lia.
  now rewrite nth_shift_one.
Qed.

Lemma rolling_mean_length (w minp : nat) (xs : list F) :
  length (rolling_mean w minp xs) = length xs.
Proof. unfold rolling_mean. now rewrite length_map, length_seq. Qed.

Lemma rolling_std_length (w minp : nat) (xs : list F) :
  length (rolling_std w minp xs) = length xs.
Proof. unfold rolling_std. now rewrite length_map, length_seq. Qed.

Lemma z_score_shifted_length (window : nat) (prices : list F) :
  length (z_score_shifted window prices) = length prices.
Proof.
  unfold z_score_shifted, replace.
  rewrite shift_length, !zip_with_length, length_map,
    rolling_mean_length, rolling_std_length. lia.
Qed.

(** C6, amended: the mean-reversion signal of a row is the entry rule of the
    lagged z-score of that row (short above [+entry_z], long below
    [-entry_z], else 0), overwritten with 0 when the signal of the row
    above, as it stood after the entry overwrites, was [+1] and the lagged
    z-score is above [-exit_z], or when the signal of the row above, as it
    stood after the entry and the long-exit overwrites, was [-1] and the
    lagged z-score is below [+exit_z].  The exit tests read these
    intermediate columns, not the final signal of the row above. *)
Theorem mean_reversion_signal_by_row :
  forall (data : DataFrame F) (window : nat) (entry_z exit_z : F)
         (s : MeanReversionStrategy) (prices : list F),
    MeanReversionStrategy_init data window entry_z exit_z = Ok s ->
    get_col "Adj Close" data = Some prices ->
    length prices = length (index data) ->
    let zs := z_score_shifted window prices in
    let entries := mr_entries entry_z zs (repeat fzero (length prices)) in
    let long_exits := mr_flatten_long exit_z zs entries in
    exists signal,
      MeanReversion_generate_signals s
      = Ok (mkFrame (index data) [("signal", signal)]) /\
      length signal = length (index data) /\
      forall t, t < length (index data) ->
        nth t entries fnan = mr_entry entry_z (nth t zs fnan) /\
        nth t signal fnan
        = if feqb (row_above t long_exits) fminus_one
             && fltb (nth t zs fnan) exit_z
          then fzero
          else if feqb (row_above t entries) fone
                  && fgtb (nth t zs fnan) (fneg exit_z)
          then fzero
          else mr_entry entry_z (nth t zs fnan).
Proof.
  intros data window entry_z exit_z s prices Hinit Hp Hlen zs entries long_exits.
  unfold MeanReversionStrategy_init, Strategy_init in Hinit.
  destruct (df_empty data); [discriminate|].
  destruct (length (index data) <? window)%nat; [discriminate|].
  inversion Hinit; subst s; clear Hinit.
  unfold MeanReversion_generate_signals. cbn [mr_base st_data st_signals
    mr_window mr_entry_z mr_exit_z]. rewrite Hp.
  change (col "signal" (set_col "signal" (map (fun _ => fzero) (index data))
                                (mkFrame (index data) [])))
    with (map (fun _ : Date => @fzero F _) (index data)).
  assert (Hzeros : map (fun _ : Date => @fzero F _) (index data)
                   = repeat fzero (length prices)).
  { rewrite Hlen. clear. induction (index data); simpl; congruence. }
  rewrite Hzeros. fold zs.
  assert (Hzl : length zs = length prices) by apply z_score_shifted_length.
  assert (Hel : length entries = length prices).
  { unfold entries. rewrite mr_entries_length; now rewrite repeat_length. }
  assert (Hll : length long_exits = length prices).
  { unfold long_exits. rewrite mr_flatten_long_length; congruence. }
  eexists. split; [reflexivity|]. split.
  - unfold mr_signal_column. fold entries. fold long_exits.
    rewrite mr_flatten_short_length; congruence.
  - intros t Ht. rewrite <- Hlen in Ht.
    assert (He : nth t entries fnan = mr_entry entry_z (nth t zs fnan))
      by (apply mr_entries_nth; assumption).
    split; [exact He|].
    unfold mr_signal_column. fold entries. fold long_exits.
    rewrite mr_flatten_short_nth by congruence.
    destruct (feqb (row_above t long_exits) fminus_one
              && fltb (nth t zs fnan) exit_z); [reflexivity|].
    unfold long_exits. rewrite mr_flatten_long_nth by congruence.
    now rewrite He.
Qed.
End MeanReversionFacts.

(** [mean_reversion_signal_by_row] on the swinging prices, binary64. *)
Lemma mean_reversion_signal_by_row_witness :
  exists s signal,
    MeanReversionStrategy_init swing_data 3 (B64.of_Z 1) fhalf = Ok s /\
    MeanReversion_generate_signals s
    = Ok (mkFrame [1%Z; 2%Z; 3%Z; 4%Z; 5%Z; 6%Z] [("signal", signal)]) /\
    length signal = 6.
Proof.
  assert (Hinit :
    MeanReversionStrategy_init swing_data 3 (B64.of_Z 1) fhalf
    = Ok (mkMeanReversion
            (mkStrategy swing_data
               (set_col "signal" (map (fun _ => fzero) (index swing_data))
                        (mkFrame (index (@swing_data PrimFloat.float _)) [])))
            3 (B64.of_Z 1) fhalf)) by reflexivity.
  destruct (mean_reversion_signal_by_row
              swing_data 3 (B64.of_Z 1) fhalf _ swing_prices
              Hinit eq_refl eq_refl) as (signal & Hgen & Hlen & _).
  eexists. exists signal. split; [exact Hinit|]. split; [exact Hgen | exact Hlen].
Defined.

(** C6 as stated fails: on the prices 100, 100, 101, 1, 10000, 10000 with
    window 3, entry 1.0 and exit 0.5 the lagged z-scores of the last three
    dates are about +1.15, -1.15 and +1.15.  The code gives the signals
    0, 0, 0, -1, 0, 0: the long entry of date 5 is flattened by the short
    exit, and the short entry of date 6 is flattened by the long exit, which
    still reads the +1 that date 5 held after the entry overwrites.  The
    recurrence on the final signal of the previous date gives
    0, 0, 0, -1, 0, -1. *)
Lemma mean_reversion_is_not_a_recurrence :
  let zs := z_score_shifted 3 (@swing_prices PrimFloat.float _) in
  mr_signal_column (B64.of_Z 1) fhalf zs (repeat fzero 6)
  = [fzero; fzero; fzero; fminus_one; fzero; fzero] /\
  mr_recurrence (B64.of_Z 1) fhalf fnan zs
  = [fzero; fzero; fzero; fminus_one; fzero; fminus_one] /\
  mr_signal_column (B64.of_Z 1) fhalf zs (repeat fzero 6)
  <> mr_recurrence (B64.of_Z 1) fhalf fnan zs.
Proof.
  cbv zeta. split; [vm_compute; reflexivity|]. split; [vm_compute; reflexivity|].
  intros Heq.
  apply (f_equal (fun l : list PrimFloat.float => feqb (nth 5 l fnan) fzero)) in Heq.
  vm_compute in Heq. discriminate.
Qed.

(** ** Sortino ratio *)

Section Sortino.
Context {F : Type} `{FloatOps F}.

Lemma dropna_length_le (xs : list F) : length (dropna xs) <= length xs.
Proof. apply filter_length_le. Qed.

Lemma calculate_sortino_unfold (returns : list F) (rf : F) :
  2 <= length (dropna returns) ->
  calculate_sortino (Some returns) rf
  = match negative_part (excess_of rf returns) with
    | [] => no_downside (excess_of rf returns)
    | _ :: _ =>
        if feqb (std (negative_part (excess_of rf returns))) fzero
           || fisnan (std (negative_part (excess_of rf returns)))
        then no_downside (excess_of rf returns)
        else sortino_formula (excess_of rf returns)
    end.
Proof.
  intros Hlen. unfold calculate_sortino.
  pose proof (dropna_length_le returns) as Hle.
  rewrite (proj2 (Nat.ltb_ge (length returns) 2)) by lia.
  rewrite (proj2 (Nat.ltb_ge (length (dropna returns)) 2)) by lia.
  reflexivity.
Qed.

(** C7, amended: on a return series with at least two defined observations
    the Sortino computation returns (mean excess return / standard deviation
    of the excess returns strictly below 0) times sqrt(252) when negative
    excess returns exist and their standard deviation is defined and not
    zero; +infinity, or NaN when the mean excess return is not positive, when
    there is no negative excess return; and the same +infinity or NaN when
    the downside deviation is exactly zero or is undefined, as it is for a
    single negative excess return. *)
Theorem sortino_cases :
  forall (returns : list F) (rf : F),
    2 <= length (dropna returns) ->
    let excess := excess_of rf returns in
    let downside := std (negative_part excess) in
    (negative_part excess <> [] ->
     feqb downside fzero = false -> fisnan downside = false ->
     calculate_sortino (Some returns) rf = sortino_formula excess) /\
    (negative_part excess = [] -> fgtb (mean excess) fzero = true ->
     calculate_sortino (Some returns) rf = finf) /\
    (negative_part excess = [] -> fgtb (mean excess) fzero = false ->
     calculate_sortino (Some returns) rf = fnan) /\
    (negative_part excess <> [] ->
     feqb downside fzero = true \/ fisnan downside = true ->
     calculate_sortino (Some returns) rf
     = if fgtb (mean excess) fzero then finf else fnan).
Proof.
  intros returns rf Hlen excess downside.
  rewrite (calculate_sortino_unfold returns rf Hlen).
  fold excess. fold downside. unfold no_downside.
  repeat split.
  - intros Hneg Hz Hn. destruct (negative_part excess); [congruence|].
    now rewrite Hz, Hn.
  - intros -> ->. reflexivity.
  - intros -> ->. reflexivity.
  - intros Hneg Hbad. destruct (negative_part excess); [congruence|].
    destruct Hbad as [-> | ->]; [reflexivity | now rewrite orb_true_r].
Qed.
End Sortino.

(** [sortino_cases] on the returns 0.5, -0.25, -0.5 without risk-free rate,
    binary64: two negative returns, a downside deviation that is defined. *)
Lemma sortino_cases_witness :
  calculate_sortino
    (Some [fhalf; fneg (fdiv fhalf (B64.of_Z 2)); fneg fhalf]) (B64.of_Z 0)
  = sortino_formula
      (excess_of (B64.of_Z 0) [fhalf; fneg (fdiv fhalf (B64.of_Z 2)); fneg fhalf]).
Proof.
  refine (proj1 (sortino_cases
                   [fhalf; fneg (fdiv fhalf (B64.of_Z 2)); fneg fhalf]
                   (B64.of_Z 0) _) _ _ _).
  - vm_compute. lia.
  - vm_compute. discriminate.
  - vm_compute. reflexivity.
  - vm_compute. reflexivity.
Defined.

(** C7 as stated fails on the returns 0.5, -0.25 without risk-free rate: a
    negative excess return exists and the downside deviation is not zero
    (the standard deviation of a single value is NaN), the stated ratio is
    NaN, and the code returns +infinity. *)
Lemma sortino_single_negative_return :
  let returns := [@fhalf PrimFloat.float _; fneg (fdiv fhalf (B64.of_Z 2))] in
  let excess := excess_of (B64.of_Z 0) returns in
  negative_part excess <> [] /\
  feqb (std (negative_part excess)) fzero = false /\
  fisnan (sortino_formula excess) = true /\
  calculate_sortino (Some returns) (B64.of_Z 0) = finf /\
  calculate_sortino (Some returns) (B64.of_Z 0) <> sortino_formula excess.
Proof.
  cbv zeta. split; [vm_compute; discriminate|].
  split; [vm_compute; reflexivity|]. split; [vm_compute; reflexivity|].
  split; [vm_compute; reflexivity|].
  intros Heq. apply (f_equal fisnan) in Heq. vm_compute in Heq. discriminate.
Qed.

(** ** Calmar ratio *)

Section Calmar.
Context {F : Type} `{FloatLaws F}.

Lemma calmar_defined (c d : F) :
  fisnan c = false -> fisnan d = false -> feqb d fzero = false ->
  calculate_calmar (Some c) (Some d) = fdiv c (fabs d).
Proof.
  intros Hc Hd Hz. unfold calculate_calmar, isna.
  rewrite Hz, Hc, Hd. cbn [orb].
  destruct (fgtb d fzero); [now rewrite abs_neg | reflexivity].
Qed.

(** C10: for every defined CAGR [c] and every defined drawdown [d] other
    than zero, [calculate_calmar c d], [calculate_calmar c (-d)] and
    [c / |d|] are the same value. *)
Theorem calmar_ignores_drawdown_sign :
  forall c d : F,
    fisnan c = false -> fisnan d = false -> feqb d fzero = false ->
    calculate_calmar (Some c) (Some d) = calculate_calmar (Some c) (Some (fneg d)) /\
    calculate_calmar (Some c) (Some d) = fdiv c (fabs d).
Proof.
  intros c d Hc Hd Hz.
  rewrite (calmar_defined c d Hc Hd Hz).
  rewrite (calmar_defined c (fneg d) Hc).
  - now rewrite abs_neg.
  - now rewrite isnan_neg.
  - now rewrite eqb_neg_zero.
Qed.
End Calmar.

(** CAGR 0.10 with a drawdown of -0.20 or +0.20, binary64. *)
Lemma calmar_ignores_drawdown_sign_witness :
  calculate_calmar (Some (fdiv (B64.of_Z 1) (B64.of_Z 10)))
                   (Some (fneg (fdiv (B64.of_Z 2) (B64.of_Z 10))))
  = calculate_calmar (Some (fdiv (B64.of_Z 1) (B64.of_Z 10)))
                     (Some (fneg (fneg (fdiv (B64.of_Z 2) (B64.of_Z 10))))) /\
  calculate_calmar (Some (fdiv (B64.of_Z 1) (B64.of_Z 10)))
                   (Some (fneg (fdiv (B64.of_Z 2) (B64.of_Z 10))))
  = fdiv (fdiv (B64.of_Z 1) (B64.of_Z 10))
         (fabs (fneg (fdiv (B64.of_Z 2) (B64.of_Z 10)))).
Proof.
  apply calmar_ignores_drawdown_sign; vm_compute; reflexivity.
Defined.

(** ** Maximum drawdown, in exact arithmetic *)

Module IdealMetrics.
Import Ideal IdealFacts.
Local Open Scope R_scope.

(** *** Maximum drawdown *)








End IdealMetrics.

(** ** Maximum drawdown: the range *)

Section Drawdown.
Context {F : Type} `{FloatQuotient F}.

Lemma leb_defined (x y : F) :
  fleb x y = true -> fisnan x = false /\ fisnan y = false.
Proof.
  intros Hle. split.
  - destruct (fisnan x) eqn:Hx; [|reflexivity].
    apply isnan_eq in Hx. subst x. now rewrite leb_nan_l in Hle.
  - destruct (fisnan y) eqn:Hy; [|reflexivity].
    apply isnan_eq in Hy. subst y. now rewrite leb_nan_r in Hle.
Qed.

Lemma finite_positive_defined (v : F) :
  finite_positive v = true -> fisnan v = false /\ fleb v fzero = false.
Proof.
  unfold finite_positive. intros Hv. apply andb_prop in Hv.
  destruct Hv as [Hpos _]. split.
  - destruct (fisnan v) eqn:Hn; [|reflexivity].
    apply isnan_eq in Hn. subst v. now rewrite ltb_nan_r in Hpos.
  - now apply ltb_not_leb.
Qed.

Lemma finite_positive_kept (vs : list F) :
  forallb finite_positive vs = true ->
  existsb (fun v => fleb v fzero) vs = false.
Proof.
  induction vs as [|v vs IH]; intros Hall; [reflexivity|].
  cbn [forallb] in Hall. apply andb_prop in Hall. destruct Hall as [Hv Hrest].
  cbn [existsb]. rewrite (proj2 (finite_positive_defined v Hv)).
  now apply IH.
Qed.

Lemma normalised_nonneg (v0 : F) (vs : list F) :
  finite_positive v0 = true -> forallb finite_positive vs = true ->
  Forall (fun c => fleb fzero c = true) (map (fun v => fdiv v v0) vs).
Proof.
  intros Hv0 Hall. apply Forall_forall. intros c Hc.
  apply in_map_iff in Hc. destruct Hc as (v & <- & Hv).
  rewrite forallb_forall in Hall. specialize (Hall v Hv).
  unfold finite_positive in Hv0, Hall.
  apply andb_prop in Hv0. apply andb_prop in Hall.
  apply div_nonneg; tauto.
Qed.

(** The running maximum is not NaN and not below the current value. *)
Lemma peak_step (b c : F) :
  fisnan b = false -> fisnan c = false ->
  fisnan (if fltb b c then c else b) = false /\
  fleb c (if fltb b c then c else b) = true.
Proof.
  intros Hb Hc. destruct (fltb b c) eqn:Hbc.
  - split; [exact Hc | now apply leb_refl].
  - split; [exact Hb | now apply leb_total].
Qed.

(** A drawdown is NaN or lies between -1 and 0. *)
Lemma drawdown_within (c m : F) :
  fleb fzero c = true -> fleb c m = true ->
  fisnan (fdiv (fsub c m) m) = true \/
  (fleb fminus_one (fdiv (fsub c m) m) = true /\
   fleb (fdiv (fsub c m) m) fzero = true).
Proof.
  intros Hc Hcm.
  destruct (sub_range c m Hc Hcm) as [Hn | [Hlow Hup]].
  - left. apply isnan_eq in Hn. rewrite Hn, div_nan_l. apply isnan_nan.
  - now apply div_range.
Qed.

Lemma drawdowns_within (b : F) (cs : list F) :
  fisnan b = false ->
  Forall (fun c => fleb fzero c = true) cs ->
  Forall (fun d => fisnan d = true \/
                   (fleb fminus_one d = true /\ fleb d fzero = true))
         (zip_with fdiv (zip_with fsub cs (cummax_from (Some b) cs))
                   (cummax_from (Some b) cs)).
Proof.
  intros Hb Hcs. revert b Hb.
  induction Hcs as [|c cs Hc _ IH]; intros b Hb; [constructor|].
  cbn [cummax_from].
  destruct (leb_defined _ _ Hc) as [_ Hcn]. rewrite Hcn.
  destruct (peak_step b c Hb Hcn) as [Hmn Hcm].
  cbn [zip_with]. constructor.
  - now apply drawdown_within.
  - now apply IH.
Qed.

Lemma fold_min_mem (x : F) (rest : list F) :
  In (fold_left (fun m y => if fltb y m then y else m) rest x) (x :: rest).
Proof.
  revert x. induction rest as [|y rest IH]; intros x; [now left|].
  cbn [fold_left]. destruct (fltb y x).
  - right. apply IH.
  - destruct (IH x) as [Hx | Hx]; [left; exact Hx | right; right; exact Hx].
Qed.

(** The minimum of a column whose first value is defined has the property
    that every defined value of the column has. *)
Lemma series_min_within (P : F -> Prop) (d0 : F) (ds : list F) :
  fisnan d0 = false -> P d0 ->
  Forall (fun d => fisnan d = true \/ P d) ds ->
  P (series_min (d0 :: ds)).
Proof.
  intros Hd0 HP Hall. unfold series_min, dropna. cbn [filter].
  rewrite Hd0. cbn [negb].
  assert (Hkept : Forall P (d0 :: filter (fun x => negb (fisnan x)) ds)).
  { constructor; [exact HP|]. apply Forall_forall. intros d Hd.
    apply filter_In in Hd. destruct Hd as [Hin Hdef].
    rewrite Forall_forall in Hall. destruct (Hall d Hin) as [Hn | Hp].
    - rewrite Hn in Hdef. discriminate.
    - exact Hp. }
  rewrite Forall_forall in Hkept. apply Hkept. apply fold_min_mem.
Qed.

Lemma one_minus_one_within :
  fleb fminus_one (fsub fone fone) = true /\
  fleb (fsub fone fone) fzero = true.
Proof.
  assert (H01 : fleb fzero fone = true).
  { apply leb_total; [apply isnan_one | apply isnan_zero | apply one_lt_zero]. }
  assert (H11 : fleb fone fone = true) by (apply leb_refl, isnan_one).
  destruct (sub_range fone fone H01 H11) as [Hn | Hr]; [|exact Hr].
  rewrite sub_one_one in Hn. discriminate.
Qed.

(** C8, amended: the maximum drawdown of an equity curve whose defined
    values are at least two, all positive and finite, is defined, at most 0
    and at least -1, in binary64 as in exact arithmetic; a curve that holds
    a value [<= 0], or fewer than two defined values, or no curve at all,
    has the maximum drawdown NaN. *)
Theorem max_drawdown_range :
  (forall curve : list F,
      2 <= length (dropna curve) ->
      forallb finite_positive (dropna curve) = true ->
      fisnan (calculate_max_drawdown (Some curve)) = false /\
      fleb fminus_one (calculate_max_drawdown (Some curve)) = true /\
      fleb (calculate_max_drawdown (Some curve)) fzero = true) /\
  (forall (curve : list F) (v : F),
      In v curve -> fleb v fzero = true ->
      calculate_max_drawdown (Some curve) = fnan) /\
  (forall curve : list F,
      length (dropna curve) < 2 ->
      calculate_max_drawdown (Some curve) = fnan) /\
  calculate_max_drawdown (@None (list F)) = fnan.
Proof.
  split; [|split; [|split]].
  - intros curve Hlen Hpos.
    assert (Hcurve : 2 <= length curve).
    { pose proof (filter_length_le (fun x => negb (fisnan x)) curve) as Hf.
      unfold dropna in Hlen. lia. }
    unfold calculate_max_drawdown.
    rewrite (proj2 (Nat.ltb_ge (length curve) 2)) by lia.
    rewrite (proj2 (Nat.ltb_ge (length (dropna curve)) 2)) by lia.
    rewrite finite_positive_kept by exact Hpos.
    destruct (dropna curve) as [|v0 vs]; [simpl in Hlen; lia|].
    cbn [forallb] in Hpos. apply andb_prop in Hpos.
    destruct Hpos as [Hv0 Hvs].
    cbn [hd map].
    assert (Hself : fdiv v0 v0 = fone).
    { unfold finite_positive in Hv0. apply andb_prop in Hv0.
      now apply div_self. }
    rewrite Hself. unfold cummax. cbn [cummax_from].
    rewrite isnan_one. cbn [zip_with]. rewrite div_one_r.
    apply (series_min_within
             (fun d => fisnan d = false /\
                       fleb fminus_one d = true /\ fleb d fzero = true)).
    + apply sub_one_one.
    + split; [apply sub_one_one | apply one_minus_one_within].
    + eapply Forall_impl;
        [|apply drawdowns_within;
          [apply isnan_one | now apply normalised_nonneg]].
      intros d [Hn | [Hlow Hup]]; [now left | right].
      split; [apply (leb_defined _ _ Hup) | split; assumption].
  - intros curve v Hin Hle. unfold calculate_max_drawdown.
    destruct (length curve <? 2)%nat; [reflexivity|].
    destruct (length (dropna curve) <? 2)%nat; [reflexivity|].
    assert (Hex : existsb (fun v => fleb v fzero) (dropna curve) = true).
    { apply existsb_exists. exists v. split; [|exact Hle].
      unfold dropna. apply filter_In. split; [exact Hin|].
      now rewrite (proj1 (leb_defined _ _ Hle)). }
    now rewrite Hex.
  - intros curve Hlen. unfold calculate_max_drawdown.
    destruct (length curve <? 2)%nat; [reflexivity|].
    now rewrite (proj2 (Nat.ltb_lt (length (dropna curve)) 2)) by exact Hlen.
  - reflexivity.
Qed.
End Drawdown.

(** [max_drawdown_range] in binary64, on the curve 1, 2^-60 whose drawdown
    rounds to -1, and on the curve 100, NaN, 120, 90. *)
Lemma max_drawdown_range_witness :
  (fisnan (calculate_max_drawdown
             (Some [@fone PrimFloat.float _; fdiv fone (B64.of_Z (2 ^ 60))]))
   = false /\
   fleb fminus_one
        (calculate_max_drawdown
           (Some [@fone PrimFloat.float _; fdiv fone (B64.of_Z (2 ^ 60))]))
   = true /\
   fleb (calculate_max_drawdown
           (Some [@fone PrimFloat.float _; fdiv fone (B64.of_Z (2 ^ 60))]))
        fzero
   = true) /\
  (fisnan (calculate_max_drawdown
             (Some [B64.of_Z 100; fnan; B64.of_Z 120; B64.of_Z 90]))
   = false /\
   fleb fminus_one
        (calculate_max_drawdown
           (Some [B64.of_Z 100; fnan; B64.of_Z 120; B64.of_Z 90]))
   = true /\
   fleb (calculate_max_drawdown
           (Some [B64.of_Z 100; fnan; B64.of_Z 120; B64.of_Z 90]))
        fzero
   = true).
Proof.
  split.
  - apply (proj1 (max_drawdown_range (F := PrimFloat.float))
                 [fone; fdiv fone (B64.of_Z (2 ^ 60))]).
    + vm_compute. lia.
    + vm_compute. reflexivity.
  - apply (proj1 (max_drawdown_range (F := PrimFloat.float))
                 [B64.of_Z 100; fnan; B64.of_Z 120; B64.of_Z 90]).
    + vm_compute. lia.
    + vm_compute. reflexivity.
Defined.

(** A curve that holds [+inf] passes the test on the sign and has no
    drawdown that is defined: on [+inf], 1 the result is NaN. *)
Lemma max_drawdown_of_an_infinite_value :
  existsb (fun v => fleb v fzero) [@finf PrimFloat.float _; fone] = false /\
  calculate_max_drawdown (Some [@finf PrimFloat.float _; fone]) = fnan.
Proof. split; vm_compute; reflexivity. Qed.

(** C8 as stated fails in binary64: on the curve 1, 2^-60, two positive
    values, the drawdown [(2^-60 - 1) / 1] rounds to -1, so the maximum
    drawdown is -1 and not above it. *)
Lemma max_drawdown_reaches_minus_one :
  let curve := [@fone PrimFloat.float _; fdiv fone (B64.of_Z (2 ^ 60))] in
  forallb (fun v => fgtb v fzero) curve = true /\
  calculate_max_drawdown (Some curve) = fminus_one /\
  fgtb (calculate_max_drawdown (Some curve)) fminus_one = false.
Proof.
  cbv zeta. repeat split; vm_compute; reflexivity.
Qed.

(** ** SMA crossover on a rising series, in exact arithmetic *)

Module IdealCrossover.
Import Ideal IdealFacts IdealMetrics.
Local Open Scope R_scope.












End IdealCrossover.


(** ** SMA crossover: the forward fill finds nothing to fill *)

Section CrossoverFacts.
Context {F : Type} `{FloatConsts F}.

Lemma set_where_defined (mask : list bool) (v : F) (xs : list F) :
  defined v -> Forall defined xs -> Forall defined (set_where mask v xs).
Proof.
  intros Hv Hall. unfold set_where. revert mask.
  induction Hall as [|x xs Hx _ IH]; intros [|m mask]; simpl; constructor.
  - now destruct m.
  - apply IH.
Qed.

Lemma ffill_from_defined (last : F) (xs : list F) :
  Forall defined xs -> ffill_from last xs = xs.
Proof.
  intros Hall. revert last.
  induction Hall as [|x xs Hx _ IH]; intros last; simpl; [reflexivity|].
  unfold defined in Hx. now rewrite Hx, IH.
Qed.

Lemma fillna_defined (v : F) (xs : list F) :
  Forall defined xs -> fillna v xs = xs.
Proof.
  induction 1 as [|x xs Hx _ IH]; simpl; [reflexivity|].
  unfold defined in Hx. now rewrite Hx, IH.
Qed.

Lemma zeros_defined (n : nat) : Forall defined (repeat (@fzero F _) n).
Proof. induction n; simpl; constructor; auto. apply isnan_zero. Qed.

(** X1: in [SMACrossoverStrategy.generate_signals] the column that reaches
    [ffill().fillna(0)] holds no NaN (it starts as zeros and the crossover
    overwrites write +1 or -1), so the forward fill and the fill with 0 leave
    it as it is: an entry stays on its crossover date and is not carried to
    the following dates. *)
Theorem sma_forward_fill_is_idle :
  forall (short_sma long_sma : list F) (n : nat),
    fillna fzero (ffill (sma_crossovers short_sma long_sma (repeat fzero n)))
    = sma_crossovers short_sma long_sma (repeat fzero n).
Proof.
  intros short_sma long_sma n.
  assert (Hdef : Forall defined (sma_crossovers short_sma long_sma (repeat fzero n))).
  { unfold sma_crossovers. apply set_where_defined; [apply isnan_minus_one|].
    apply set_where_defined; [apply isnan_one | apply zeros_defined]. }
  unfold ffill. rewrite ffill_from_defined by exact Hdef.
  now apply fillna_defined.
Qed.
End CrossoverFacts.

(** [sma_forward_fill_is_idle] on the averages of the prices 1, ..., 10,
    binary64. *)
Lemma sma_forward_fill_is_idle_witness :
  fillna fzero
         (ffill (sma_crossovers
                   (rolling_mean 2 2 (col "Adj Close" (@rising_data PrimFloat.float _)))
                   (rolling_mean 3 3 (col "Adj Close" rising_data))
                   (repeat fzero 10)))
  = sma_crossovers
      (rolling_mean 2 2 (col "Adj Close" (@rising_data PrimFloat.float _)))
      (rolling_mean 3 3 (col "Adj Close" rising_data))
      (repeat fzero 10).
Proof. apply sma_forward_fill_is_idle. Defined.

(** ** The simulator: when it fails, and the shape of what it returns *)

Section Trajectories.
Context {F : Type} `{FloatConsts F}.

Lemma cumprod_from_length (acc : F) (xs : list F) :
  length (cumprod_from acc xs) = length xs.
Proof.
  revert acc; induction xs as [|x xs IH]; intros acc; simpl; [reflexivity|].
  destruct (fisnan x); simpl; now rewrite IH.
Qed.

Lemma cumprod_length (xs : list F) : length (cumprod xs) = length xs.
Proof.
  destruct xs as [|x xs]; simpl; [reflexivity|].
  destruct (fisnan x); simpl; now rewrite cumprod_from_length.
Qed.

Lemma equity_length (cap : F) (allow : bool) (prices signal : list F) :
  length (equity cap allow prices signal)
  = Nat.min (length signal) (length prices).
Proof.
  unfold equity.
  now rewrite length_map, cumprod_length, length_map, strategy_returns_length.
Qed.

(** The columns of the frame the simulator builds over the labels
    [labels]. *)
Lemma aligned_portfolio (data signals : DataFrame F) (cap : F) (allow : bool)
      (prices signal : list F) (labels : list Date) :
  get_col "Adj Close" data = Some prices ->
  get_col "signal" signals = Some signal ->
  columns (build_portfolio (loc labels data) (loc labels signals) cap allow)
  = let ps := aligned labels data prices in
    let ss := aligned labels signals signal in
    [ ("Adj Close", ps);
      ("signal", ss);
      ("position", positions allow ss);
      ("market_return", market_returns ps);
      ("strategy_return", strategy_returns allow ps ss);
      ("cumulative_market", cumprod (map (fadd fone) (market_returns ps)));
      ("cumulative_strategy",
       cumprod (map (fadd fone) (strategy_returns allow ps ss)));
      ("equity_curve", equity cap allow ps ss) ].
Proof.
  intros Hp Hg. rewrite build_portfolio_columns.
  now rewrite (col_loc _ labels _ _ Hp), (col_loc _ labels _ _ Hg).
Qed.

Lemma run_backtest_none_cause (data signals : DataFrame F) (cap : F) (allow : bool) :
  run_backtest (Some data) (Some signals) cap allow = None ->
  df_empty data = true \/ df_empty signals = true \/
  get_col "Adj Close" data = None \/ get_col "signal" signals = None \/
  index_intersection (index data) (index signals) = [].
Proof.
  intros Hrun.
  destruct (df_empty data) eqn:Hd; [now left|].
  destruct (df_empty signals) eqn:Hs; [now right; left|].
  destruct (get_col "Adj Close" data) as [prices|] eqn:Hp; [|now right; right; left].
  destruct (get_col "signal" signals) as [signal|] eqn:Hg;
    [|now right; right; right; left].
  destruct (index_intersection (index data) (index signals)) as [|c rest] eqn:Hl;
    [now right; right; right; right|].
  rewrite (run_backtest_some _ _ cap allow _ _ _ Hd Hs Hp Hg Hl) in Hrun
    by discriminate.
  discriminate.
Qed.

(** X2: the simulator fails for the four reasons it tests before it computes,
    and for no other: the two late [return None], after the columns are
    computed, are never reached. *)
Theorem run_backtest_fails_only_on_invalid_input :
  forall (data signals : DataFrame F) (cap : F) (allow : bool),
    run_backtest (Some data) (Some signals) cap allow = None <->
    (df_empty data = true \/ df_empty signals = true \/
     get_col "Adj Close" data = None \/ get_col "signal" signals = None \/
     index_intersection (index data) (index signals) = []).
Proof.
  intros data signals cap allow. split.
  - apply run_backtest_none_cause.
  - intros Hbad. unfold run_backtest.
    destruct (df_empty data); [reflexivity|].
    destruct (df_empty signals); [reflexivity|]. simpl orb; cbv iota.
    destruct (get_col "Adj Close" data); [|reflexivity].
    destruct (get_col "signal" signals); [|reflexivity].
    destruct (index_intersection (index data) (index signals)); [reflexivity|].
    destruct Hbad as [Hb|[Hb|[Hb|[Hb|Hb]]]]; discriminate.
Qed.

(** X3: every trajectory has the same eight columns, in the order in which the
    simulator assigns them, each with one value for each date of the
    index. *)
Theorem trajectory_columns :
  forall (data signals : DataFrame F) (cap : F) (allow : bool)
         (p : DataFrame F),
    run_backtest (Some data) (Some signals) cap allow = Some p ->
    map fst (columns p)
    = ["Adj Close"; "signal"; "position"; "market_return"; "strategy_return";
       "cumulative_market"; "cumulative_strategy"; "equity_curve"] /\
    Forall (fun c => length (snd c) = length (index p)) (columns p).
Proof.
  intros data signals cap allow p Hrun.
  destruct (run_backtest_inv _ _ _ _ _ Hrun) as (prices & signal & Hp & Hg & _ & ->).
  rewrite (aligned_portfolio _ _ cap allow _ _ _ Hp Hg), build_portfolio_index.
  cbv zeta. split; [reflexivity|].
  cbn [index loc].
  repeat constructor; cbn [snd];
    rewrite ?equity_length, ?cumprod_length, ?length_map,
      ?strategy_returns_length, ?positions_length, ?market_returns_length,
      ?aligned_length, ?Nat.min_id; reflexivity.
Qed.

Lemma position_from_signal_values (allow : bool) (x : F) :
  position_from_signal allow x = fzero \/
  position_from_signal allow x = fone \/
  (allow = true /\ position_from_signal allow x = fminus_one).
Proof.
  unfold position_from_signal.
  destruct (fgtb x fzero); [now right; left|].
  destruct (fltb x fzero), allow; simpl; auto.
Qed.

(** X4: a position is 0, +1 or -1, whatever the values of the signal column
    are, and it is -1 only when shorting is allowed; with the values of the
    columns [position], [market_return] and [strategy_return] defined at
    every date. *)
Theorem positions_are_flat_long_or_short :
  forall (data signals : DataFrame F) (cap : F) (allow : bool)
         (p : DataFrame F),
    run_backtest (Some data) (Some signals) cap allow = Some p ->
    Forall (fun x => x = fzero \/ x = fone \/ (allow = true /\ x = fminus_one))
           (col "position" p) /\
    Forall defined (col "position" p) /\
    Forall defined (col "market_return" p) /\
    Forall defined (col "strategy_return" p).
Proof.
  intros data signals cap allow p Hrun.
  destruct (run_backtest_inv _ _ _ _ _ Hrun) as (prices & signal & Hp & Hg & _ & ->).
  set (labels := index_intersection (index data) (index signals)).
  unfold col, get_col.
  rewrite (aligned_portfolio _ _ cap allow _ _ _ Hp Hg). cbv zeta. cbn [assoc String.eqb Ascii.eqb Bool.eqb].
  assert (Hpos : Forall (fun x => x = fzero \/ x = fone \/ (allow = true /\ x = fminus_one))
                        (positions allow (aligned labels signals signal))).
  { unfold positions. apply Forall_forall. intros x Hx.
    apply in_map_iff in Hx. destruct Hx as (s & <- & _).
    apply position_from_signal_values. }
  split; [exact Hpos|]. split; [|split].
  - eapply Forall_impl; [|exact Hpos]. unfold defined.
    intros x [-> | [-> | [_ ->]]];
      [apply isnan_zero | apply isnan_one | apply isnan_minus_one].
  - apply fillna_zero_valid.
  - apply fillna_zero_valid.
Qed.
End Trajectories.

(** [run_backtest_fails_only_on_invalid_input] on the example frames,
    binary64. *)
Lemma run_backtest_fails_only_on_invalid_input_witness :
  run_backtest (Some (@example_data PrimFloat.float _)) (Some example_signals)
               (B64.of_Z 100000) true = None <->
  (df_empty (@example_data PrimFloat.float _) = true \/
   df_empty (@example_signals PrimFloat.float _) = true \/
   get_col "Adj Close" (@example_data PrimFloat.float _) = None \/
   get_col "signal" (@example_signals PrimFloat.float _) = None \/
   index_intersection (index (@example_data PrimFloat.float _))
                      (index (@example_signals PrimFloat.float _)) = []).
Proof.
  apply (run_backtest_fails_only_on_invalid_input
           example_data example_signals (B64.of_Z 100000) true).
Defined.

(** [trajectory_columns] on the example frames, binary64. *)
Lemma trajectory_columns_witness :
  run_backtest (Some example_data) (Some example_signals) (B64.of_Z 100000) true
  = Some (build_portfolio (loc [1%Z; 2%Z; 3%Z; 4%Z] example_data)
                          (loc [1%Z; 2%Z; 3%Z; 4%Z] example_signals)
                          (B64.of_Z 100000) true)
  /\ map fst (columns (build_portfolio (loc [1%Z; 2%Z; 3%Z; 4%Z] example_data)
                          (loc [1%Z; 2%Z; 3%Z; 4%Z] example_signals)
                          (B64.of_Z 100000) true))
    = ["Adj Close"; "signal"; "position"; "market_return"; "strategy_return";
       "cumulative_market"; "cumulative_strategy"; "equity_curve"].
Proof.
  assert (Hrun :
    run_backtest (Some example_data) (Some example_signals) (B64.of_Z 100000) true
    = Some (build_portfolio (loc [1%Z; 2%Z; 3%Z; 4%Z] example_data)
                            (loc [1%Z; 2%Z; 3%Z; 4%Z] example_signals)
                            (B64.of_Z 100000) true)).
  { eapply run_backtest_some; try reflexivity. discriminate. }
  split; [exact Hrun|].
  apply (trajectory_columns _ _ _ _ _ Hrun).
Defined.

(** [positions_are_flat_long_or_short] on the example frames with shorting
    disabled, binary64. *)
Lemma positions_are_flat_long_or_short_witness :
  run_backtest (Some example_data) (Some example_signals) (B64.of_Z 100000) false
  = Some (build_portfolio (loc [1%Z; 2%Z; 3%Z; 4%Z] example_data)
                          (loc [1%Z; 2%Z; 3%Z; 4%Z] example_signals)
                          (B64.of_Z 100000) false)
  /\ Forall (fun x => x = fzero \/ x = fone \/ (false = true /\ x = fminus_one))
            (col "position"
                 (build_portfolio (loc [1%Z; 2%Z; 3%Z; 4%Z] example_data)
                                  (loc [1%Z; 2%Z; 3%Z; 4%Z] example_signals)
                                  (B64.of_Z 100000) false)).
Proof.
  assert (Hrun :
    run_backtest (Some example_data) (Some example_signals) (B64.of_Z 100000) false
    = Some (build_portfolio (loc [1%Z; 2%Z; 3%Z; 4%Z] example_data)
                            (loc [1%Z; 2%Z; 3%Z; 4%Z] example_signals)
                            (B64.of_Z 100000) false)).
  { eapply run_backtest_some; try reflexivity. discriminate. }
  split; [exact Hrun|].
  apply (positions_are_flat_long_or_short _ _ _ _ _ Hrun).
Defined.
(** ** A strategy that is always long earns the market return *)

Section AlwaysLong.
Context {F : Type} `{FloatNan F}.

Lemma lookup_some (d : Date) (idx : list Date) (vs : list F) :
  In d idx -> length idx <= length vs ->
  exists v, lookup d idx vs = Some v /\ In v vs.
Proof.
  revert vs; induction idx as [|i idx IH]; intros [|v vs] Hin Hlen;
    simpl in *; try contradiction; try lia.
  destruct (Z.eqb_spec d i) as [->|Hne]; [eauto|].
  destruct Hin as [Hin|Hin]; [congruence|].
  destruct (IH vs Hin ltac:(lia)) as (w & Hw & Hi). eauto.
Qed.

(** Over its own index a column keeps the property that all its values
    have. *)
Lemma aligned_Forall (P : F -> Prop) (df : DataFrame F) (vs : list F) :
  length (index df) <= length vs ->
  Forall P vs -> Forall P (aligned (index df) df vs).
Proof.
  intros Hlen Hall. unfold aligned. apply Forall_forall. intros x Hx.
  apply in_map_iff in Hx. destruct Hx as (d & <- & Hd).
  unfold at_label.
  destruct (lookup_some d (index df) vs Hd Hlen) as (v & -> & Hv).
  rewrite Forall_forall in Hall. now apply Hall.
Qed.

Lemma positive_is_defined (s : F) : fgtb s fzero = true -> fisnan s = false.
Proof.
  intros Hpos. destruct (fisnan s) eqn:Hs; [|reflexivity].
  apply isnan_eq in Hs. subst s. unfold fgtb in Hpos.
  now rewrite ltb_nan_r in Hpos.
Qed.

Lemma position_rule_long (allow : bool) (ss : list F) :
  Forall (fun s => fgtb s fzero = true) ss ->
  map (position_rule allow) ss = repeat fone (length ss).
Proof.
  induction 1 as [|s ss Hs _ IH]; cbn [map length repeat]; [reflexivity|].
  rewrite IH. f_equal. unfold position_rule, position_from_signal.
  now rewrite (positive_is_defined s Hs), Hs.
Qed.

Lemma positions_long (allow : bool) (s : F) (ss : list F) :
  Forall (fun s => fgtb s fzero = true) (s :: ss) ->
  positions allow (s :: ss) = fzero :: repeat fone (length ss).
Proof.
  intros Hall. rewrite positions_as_lag. cbn [length firstn map].
  rewrite position_rule_nan. f_equal.
  rewrite position_rule_long by now apply Forall_firstn.
  rewrite length_firstn. cbn [length]. f_equal. lia.
Qed.

Lemma long_returns (ms : list F) :
  Forall defined ms ->
  fillna fzero (zip_with fmul (repeat fone (length ms)) ms) = ms.
Proof.
  unfold fillna.
  induction 1 as [|m ms Hm _ IH]; cbn [length repeat zip_with map];
    [reflexivity|].
  rewrite IH, mul_one_l. unfold defined in Hm. now rewrite Hm.
Qed.

Lemma strategy_returns_long (allow : bool) (prices signal : list F) :
  length signal = length prices ->
  Forall (fun s => fgtb s fzero = true) signal ->
  strategy_returns allow prices signal = market_returns prices.
Proof.
  intros Hlen Hall.
  destruct signal as [|s ss], prices as [|x xs]; try discriminate;
    [reflexivity|].
  unfold strategy_returns. rewrite positions_long by exact Hall.
  pose proof (fillna_zero_valid (pct_change 1 (x :: xs))) as Hdef.
  fold (market_returns (x :: xs)) in Hdef.
  pose proof (market_returns_length (x :: xs)) as Hml.
  destruct (market_returns_head x xs) as [ms Hms]. rewrite Hms in *.
  cbn [zip_with]. unfold fillna at 1. cbn [map].
  rewrite mul_zero_zero, isnan_zero. f_equal.
  inversion Hdef as [|? ? _ Hrest]; subst.
  assert (Hk : length ss = length ms) by (simpl in Hml, Hlen; lia).
  rewrite Hk. now apply long_returns.
Qed.

(** X5: when the signal is above 0 at every date, the strategy return of every
    date is the market return of that date, the cumulative return of the
    strategy is the cumulative return of the market, and the equity is the
    initial capital times the cumulative market return: the first date, on
    which no position is held, has market return 0. *)
Theorem always_long_tracks_the_market :
  forall (data signals : DataFrame F) (prices longs : list F)
         (cap : F) (allow : bool),
    index data <> [] ->
    get_col "Adj Close" data = Some prices ->
    index signals = index data ->
    get_col "signal" signals = Some longs ->
    length longs = length (index data) ->
    Forall (fun s => fgtb s fzero = true) longs ->
    exists p,
      run_backtest (Some data) (Some signals) cap allow = Some p /\
      col "strategy_return" p = col "market_return" p /\
      col "cumulative_strategy" p = col "cumulative_market" p /\
      col "equity_curve" p = map (fmul cap) (col "cumulative_market" p).
Proof.
  intros data signals prices longs cap allow Hne Hp Hi Hg Hlen Hall.
  assert (Hl : index_intersection (index data) (index signals) = index data)
    by (rewrite Hi; apply index_intersection_self).
  eexists. split.
  { eapply run_backtest_some; eauto.
    - eapply df_not_empty; eauto.
    - eapply df_not_empty; eauto. now rewrite Hi. }
  unfold col, get_col.
  rewrite (aligned_portfolio _ _ cap allow _ _ _ Hp Hg). cbv zeta.
  cbn [assoc String.eqb Ascii.eqb Bool.eqb]. unfold equity.
  rewrite strategy_returns_long.
  - repeat split; reflexivity.
  - now rewrite !aligned_length.
  - rewrite <- Hi. apply aligned_Forall; [rewrite Hi; lia | exact Hall].
Qed.
End AlwaysLong.

(** [always_long_tracks_the_market] on the example prices, binary64. *)
Lemma always_long_tracks_the_market_witness :
  exists p,
    run_backtest (Some example_data) (Some example_long_signals)
                 (B64.of_Z 100000) false = Some p /\
    col "strategy_return" p = col "market_return" p /\
    col "cumulative_strategy" p = col "cumulative_market" p /\
    col "equity_curve" p = map (fmul (B64.of_Z 100000)) (col "cumulative_market" p).
Proof.
  apply (always_long_tracks_the_market
           example_data example_long_signals
           (col "Adj Close" example_data)
           [fone; fone; fone; fone] (B64.of_Z 100000) false);
    try reflexivity.
  - discriminate.
  - repeat constructor.
Defined.
(** ** The strategies: what [generate_signals] returns *)

Section GeneratedSignals.
Context {F : Type} `{FloatConsts F}.

Lemma zeros_of_index (idx : list Date) :
  map (fun _ : Date => @fzero F _) idx = repeat fzero (length idx).
Proof. induction idx; simpl; congruence. Qed.

Lemma Strategy_init_ok (data : DataFrame F) (base : Strategy) :
  Strategy_init data = Ok base ->
  df_empty data = false /\
  base = mkStrategy data
           (mkFrame (index data)
                    [("signal", repeat fzero (length (index data)))]).
Proof.
  unfold Strategy_init. destruct (df_empty data); [discriminate|].
  intros Hb. inversion Hb; subst. split; [reflexivity|].
  unfold set_col. cbn [index columns assign]. now rewrite zeros_of_index.
Qed.

(** The frames that the three [generate_signals] return after a successful
    constructor. *)
Lemma Momentum_generate_signals_ok (data : DataFrame F) (window : nat)
      (s : MomentumStrategy) (prices : list F) :
  MomentumStrategy_init data window = Ok s ->
  get_col "Adj Close" data = Some prices ->
  let signals :=
    mkFrame (index data)
            [("signal",
              momentum_signal_column (momentum window prices)
                                     (repeat fzero (length (index data))))] in
  Momentum_generate_signals s
  = Ok (mkMomentum (mkStrategy data signals) window, signals).
Proof.
  intros Hinit Hp. unfold MomentumStrategy_init in Hinit.
  destruct (Strategy_init data) as [base|e] eqn:Hb; [|discriminate].
  destruct (Strategy_init_ok _ _ Hb) as [_ ->].
  destruct (length (index data) <? window + 1)%nat; [discriminate|].
  inversion Hinit; subst s; clear Hinit.
  unfold Momentum_generate_signals. cbn [mom_base st_data st_signals mom_window].
  now rewrite Hp.
Qed.

Lemma MeanReversion_generate_signals_ok (data : DataFrame F) (window : nat)
      (entry_z exit_z : F) (s : MeanReversionStrategy) (prices : list F) :
  MeanReversionStrategy_init data window entry_z exit_z = Ok s ->
  get_col "Adj Close" data = Some prices ->
  MeanReversion_generate_signals s
  = Ok (mkFrame (index data)
                [("signal",
                  mr_signal_column entry_z exit_z (z_score_shifted window prices)
                                   (repeat fzero (length (index data))))]).
Proof.
  intros Hinit Hp. unfold MeanReversionStrategy_init in Hinit.
  destruct (Strategy_init data) as [base|e] eqn:Hb; [|discriminate].
  destruct (Strategy_init_ok _ _ Hb) as [_ ->].
  destruct (length (index data) <? window)%nat; [discriminate|].
  inversion Hinit; subst s; clear Hinit.
  unfold MeanReversion_generate_signals.
  cbn [mr_base st_data st_signals mr_window mr_entry_z mr_exit_z].
  now rewrite Hp.
Qed.

Lemma SMACrossover_generate_signals_ok (data : DataFrame F)
      (short long : nat) (s : SMACrossoverStrategy) (prices : list F) :
  SMACrossoverStrategy_init data short long = Ok s ->
  get_col "Adj Close" data = Some prices ->
  SMACrossover_generate_signals s
  = Ok (mkFrame (index data)
                [("signal",
                  sma_signal_column (rolling_mean short short prices)
                                    (rolling_mean long long prices)
                                    (repeat fzero (length (index data))))]).
Proof.
  intros Hinit Hp. unfold SMACrossoverStrategy_init in Hinit.
  destruct (Strategy_init data) as [base|e] eqn:Hb; [|discriminate].
  destruct (Strategy_init_ok _ _ Hb) as [_ ->].
  destruct (long <=? short)%nat; [discriminate|].
  destruct (length (index data) <? long)%nat; [discriminate|].
  inversion Hinit; subst s; clear Hinit.
  unfold SMACrossover_generate_signals.
  cbn [sma_base st_data st_signals short_window long_window].
  now rewrite Hp.
Qed.

Lemma set_where_Forall (P : F -> Prop) (mask : list bool) (v : F) (xs : list F) :
  P v -> Forall P xs -> Forall P (set_where mask v xs).
Proof.
  intros Hv Hall. unfold set_where. revert mask.
  induction Hall as [|x xs Hx _ IH]; intros [|m mask]; simpl; constructor.
  - now destruct m.
  - apply IH.
Qed.

Lemma zeros_are_signals (n : nat) : Forall is_signal (repeat (@fzero F _) n).
Proof. induction n; simpl; constructor; auto. right; now left. Qed.

Lemma signal_is_defined (x : F) : is_signal x -> defined x.
Proof.
  unfold defined. intros [-> | [-> | ->]];
    [apply isnan_minus_one | apply isnan_zero | apply isnan_one].
Qed.

Lemma momentum_signals (ms : list F) (n : nat) :
  Forall is_signal (momentum_signal_column ms (repeat fzero n)).
Proof.
  unfold momentum_signal_column.
  apply set_where_Forall; [now left|].
  apply set_where_Forall; [now right; right | apply zeros_are_signals].
Qed.

Lemma mean_reversion_signals (entry_z exit_z : F) (zs : list F) (n : nat) :
  Forall is_signal (mr_signal_column entry_z exit_z zs (repeat fzero n)).
Proof.
  unfold mr_signal_column, mr_flatten_short, mr_flatten_long, mr_entries.
  apply set_where_Forall; [now right; left|].
  apply set_where_Forall; [now right; left|].
  apply set_where_Forall; [now left|].
  apply set_where_Forall; [now right; right | apply zeros_are_signals].
Qed.

Lemma sma_crossovers_signals (short_sma long_sma : list F) (n : nat) :
  Forall is_signal (sma_crossovers short_sma long_sma (repeat fzero n)).
Proof.
  unfold sma_crossovers.
  apply set_where_Forall; [now left|].
  apply set_where_Forall; [now right; right | apply zeros_are_signals].
Qed.

(** The forward fill and the fill with 0 find nothing to fill. *)
Lemma sma_signal_column_unfilled (short_sma long_sma : list F) (n : nat) :
  sma_signal_column short_sma long_sma (repeat fzero n)
  = let signal := sma_crossovers short_sma long_sma (repeat fzero n) in
    let correct_long :=
      zip_with andb (map (fun s => feqb s fone) (shift 1 signal))
               (zip_with fltb short_sma long_sma) in
    let signal := set_where correct_long fzero signal in
    let correct_short :=
      zip_with andb (map (fun s => feqb s fminus_one) (shift 1 signal))
               (zip_with fgtb short_sma long_sma) in
    set_where correct_short fzero signal.
Proof.
  unfold sma_signal_column. cbv zeta.
  assert (Hdef : Forall defined (sma_crossovers short_sma long_sma (repeat fzero n))).
  { eapply Forall_impl; [|apply sma_crossovers_signals].
    apply signal_is_defined. }
  unfold ffill. rewrite (ffill_from_defined _ _ Hdef).
  now rewrite (fillna_defined _ _ Hdef).
Qed.

Lemma sma_signals (short_sma long_sma : list F) (n : nat) :
  Forall is_signal (sma_signal_column short_sma long_sma (repeat fzero n)).
Proof.
  rewrite sma_signal_column_unfilled. cbv zeta.
  apply set_where_Forall; [now right; left|].
  apply set_where_Forall; [now right; left|].
  apply sma_crossovers_signals.
Qed.

(** X6: whatever the prices are, each of the three strategies returns, after
    a constructor that succeeded, a frame over the index of the data whose
    [signal] column holds only the values -1, 0 and +1; the momentum
    strategy keeps that frame as its state, so that [get_signals] returns
    it again. *)
Theorem generated_signals_are_signals :
  forall (data : DataFrame F) (prices : list F),
    get_col "Adj Close" data = Some prices ->
    (forall window s,
        MomentumStrategy_init data window = Ok s ->
        exists s' signals,
          Momentum_generate_signals s = Ok (s', signals) /\
          Strategy_get_signals (mom_base s') = signals /\
          index signals = index data /\
          Forall is_signal (col "signal" signals)) /\
    (forall window entry_z exit_z s,
        MeanReversionStrategy_init data window entry_z exit_z = Ok s ->
        exists signals,
          MeanReversion_generate_signals s = Ok signals /\
          index signals = index data /\
          Forall is_signal (col "signal" signals)) /\
    (forall short long s,
        SMACrossoverStrategy_init data short long = Ok s ->
        exists signals,
          SMACrossover_generate_signals s = Ok signals /\
          index signals = index data /\
          Forall is_signal (col "signal" signals)).
Proof.
  intros data prices Hp. split; [|split].
  - intros window s Hinit.
    rewrite (Momentum_generate_signals_ok _ _ _ _ Hinit Hp). cbv zeta.
    eexists _, _. split; [reflexivity|].
    split; [reflexivity|]. split; [reflexivity|].
    apply momentum_signals.
  - intros window entry_z exit_z s Hinit.
    rewrite (MeanReversion_generate_signals_ok _ _ _ _ _ _ Hinit Hp).
    eexists. split; [reflexivity|]. split; [reflexivity|].
    apply mean_reversion_signals.
  - intros short long s Hinit.
    rewrite (SMACrossover_generate_signals_ok _ _ _ _ _ Hinit Hp).
    eexists. split; [reflexivity|]. split; [reflexivity|].
    apply sma_signals.
Qed.
End GeneratedSignals.

(** [generated_signals_are_signals] on the prices 1, ..., 10, binary64: the
    SMA strategy with the windows 2 and 3. *)
Lemma generated_signals_are_signals_witness :
  exists signals : DataFrame PrimFloat.float,
    SMACrossover_generate_signals
      (mkSMACrossover
         (mkStrategy rising_data
                     (mkFrame (index (@rising_data PrimFloat.float _))
                              [("signal", map (fun _ => fzero)
                                              (index (@rising_data PrimFloat.float _)))]))
         2 3)
    = Ok signals /\
    index signals = index (@rising_data PrimFloat.float _) /\
    Forall is_signal (col "signal" signals).
Proof.
  apply (proj2 (proj2 (generated_signals_are_signals
                         rising_data (col "Adj Close" rising_data) eq_refl))
               2 3).
  reflexivity.
Defined.
(** ** Columns read row by row, and their prefixes *)

Section Causality.
Context {F : Type} `{FloatOps F}.

Lemma nth_shift (n : nat) (xs : list F) (t : nat) :
  t < length xs ->
  nth t (shift n xs) fnan = if (t <? n)%nat then fnan else nth (t - n) xs fnan.
Proof.
  intros Ht. unfold shift. rewrite nth_firstn.
  destruct (Nat.ltb_spec t (length xs)) as [_|Hge]; [|lia].
  destruct (Nat.ltb_spec t n) as [Hlt|Hge].
  - rewrite app_nth1 by now rewrite repeat_length.
    now apply nth_repeat_lt.
  - rewrite app_nth2 by (rewrite repeat_length; lia).
    now rewrite repeat_length.
Qed.

Lemma firstn_zip_with {A B C : Type} (f : A -> B -> C) (k : nat)
      (xs : list A) (ys : list B) :
  firstn k (zip_with f xs ys) = zip_with f (firstn k xs) (firstn k ys).
Proof.
  revert xs ys; induction k as [|k IH]; intros [|x xs] [|y ys]; simpl;
    try reflexivity.
  now rewrite IH.
Qed.

Lemma firstn_shift (n k : nat) (xs : list F) :
  k <= length xs -> firstn k (shift n xs) = shift n (firstn k xs).
Proof.
  intros Hk. unfold shift.
  rewrite firstn_firstn, length_firstn, !Nat.min_l by lia.
  rewrite !firstn_app, repeat_length.
  rewrite firstn_firstn. f_equal. f_equal. lia.
Qed.

Lemma firstn_set_where (k : nat) (mask : list bool) (v : F) (xs : list F) :
  firstn k (set_where mask v xs) = set_where (firstn k mask) v (firstn k xs).
Proof. apply firstn_zip_with. Qed.

Lemma firstn_ffill_from (k : nat) (last : F) (xs : list F) :
  firstn k (ffill_from last xs) = ffill_from last (firstn k xs).
Proof.
  revert last xs; induction k as [|k IH]; intros last [|x xs]; simpl;
    try reflexivity.
  now rewrite IH.
Qed.

Lemma firstn_pct_change (n k : nat) (xs : list F) :
  k <= length xs -> firstn k (pct_change n xs) = pct_change n (firstn k xs).
Proof.
  intros Hk. unfold pct_change, ffill.
  rewrite firstn_map, firstn_zip_with, firstn_shift
    by (rewrite ffill_from_length; lia).
  now rewrite firstn_ffill_from.
Qed.

Lemma window_at_firstn (w i k : nat) (xs : list F) :
  i < k -> window_at w i (firstn k xs) = window_at w i xs.
Proof.
  intros Hi. unfold window_at. rewrite firstn_firstn.
  now rewrite Nat.min_l by lia.
Qed.

Lemma firstn_seq (k n : nat) : k <= n -> firstn k (seq 0 n) = seq 0 k.
Proof.
  intros Hk. replace n with (k + (n - k)) by lia.
  rewrite seq_app, firstn_app, length_seq, Nat.sub_diag. simpl.
  rewrite app_nil_r. rewrite <- (length_seq k 0) at 1. apply firstn_all.
Qed.

Lemma firstn_rolling_mean (w minp k : nat) (xs : list F) :
  k <= length xs ->
  firstn k (rolling_mean w minp xs) = rolling_mean w minp (firstn k xs).
Proof.
  intros Hk. unfold rolling_mean.
  rewrite firstn_map, firstn_seq, length_firstn, Nat.min_l by lia.
  apply map_ext_in. intros i Hi. apply in_seq in Hi.
  now rewrite window_at_firstn by lia.
Qed.

Lemma firstn_rolling_std (w minp k : nat) (xs : list F) :
  k <= length xs ->
  firstn k (rolling_std w minp xs) = rolling_std w minp (firstn k xs).
Proof.
  intros Hk. unfold rolling_std.
  rewrite firstn_map, firstn_seq, length_firstn, Nat.min_l by lia.
  apply map_ext_in. intros i Hi. apply in_seq in Hi.
  now rewrite window_at_firstn by lia.
Qed.

(** The first [S k] rows of a column moved down by one row are NaN and the
    first [k] rows of the column. *)
Lemma firstn_shift_one (k : nat) (xs : list F) :
  k < length xs -> firstn (S k) (shift 1 xs) = fnan :: firstn k xs.
Proof.
  intros Hk. unfold shift. rewrite firstn_firstn, Nat.min_l by lia.
  reflexivity.
Qed.

Lemma nth_of_firstn (k t : nat) (xs ys : list F) :
  t < k -> firstn k xs = firstn k ys -> nth t xs fnan = nth t ys fnan.
Proof.
  intros Ht Heq.
  assert (Hx : nth t (firstn k xs) fnan = nth t xs fnan).
  { rewrite nth_firstn. destruct (Nat.ltb_spec t k); [reflexivity | lia]. }
  assert (Hy : nth t (firstn k ys) fnan = nth t ys fnan).
  { rewrite nth_firstn. destruct (Nat.ltb_spec t k); [reflexivity | lia]. }
  congruence.
Qed.

Lemma firstn_momentum_signal_column (k : nat) (ms signal : list F) :
  firstn k (momentum_signal_column ms signal)
  = momentum_signal_column (firstn k ms) (firstn k signal).
Proof.
  unfold momentum_signal_column.
  now rewrite !firstn_set_where, !firstn_map.
Qed.

Lemma firstn_mr_signal_column (k : nat) (entry_z exit_z : F) (zs signal : list F) :
  length zs = length signal -> k <= length signal ->
  firstn k (mr_signal_column entry_z exit_z zs signal)
  = mr_signal_column entry_z exit_z (firstn k zs) (firstn k signal).
Proof.
  intros Hl Hk.
  unfold mr_signal_column, mr_flatten_short, mr_flatten_long.
  rewrite firstn_set_where, firstn_zip_with, !firstn_map.
  rewrite firstn_shift
    by (rewrite set_where_length, zip_with_length, !length_map, shift_length,
          mr_entries_length by exact Hl; lia).
  rewrite firstn_set_where, firstn_zip_with, !firstn_map.
  rewrite firstn_shift by (rewrite mr_entries_length by exact Hl; lia).
  unfold mr_entries. now rewrite !firstn_set_where, !firstn_map.
Qed.

Lemma firstn_z_score (window k : nat) (prices : list F) :
  k <= length prices ->
  firstn k (zip_with fdiv
              (zip_with fsub prices
                        (rolling_mean window (startup_periods window) prices))
              (replace fzero fnan
                       (rolling_std window (startup_periods window) prices)))
  = zip_with fdiv
      (zip_with fsub (firstn k prices)
                (rolling_mean window (startup_periods window) (firstn k prices)))
      (replace fzero fnan
               (rolling_std window (startup_periods window) (firstn k prices))).
Proof.
  intros Hk. unfold replace.
  now rewrite !firstn_zip_with, firstn_map, firstn_rolling_mean,
    firstn_rolling_std by exact Hk.
Qed.
End Causality.
(** ** The momentum and the mean-reversion signals use past prices only *)

Section NoLookaheadSignals.
Context {F : Type} `{FloatConsts F}.

Lemma firstn_zeros (k n : nat) :
  k <= n -> firstn k (repeat (@fzero F _) n) = repeat fzero k.
Proof.
  revert n; induction k as [|k IH]; intros [|n] Hk; simpl; try reflexivity;
    try lia.
  rewrite IH by lia. reflexivity.
Qed.

Lemma momentum_column_prefix (window t n : nat) (prices : list F) :
  length prices = n -> t < n ->
  firstn (S t) (momentum_signal_column (momentum window prices) (repeat fzero n))
  = momentum_signal_column (fnan :: pct_change window (firstn t prices))
                           (repeat fzero (S t)).
Proof.
  intros Hl Ht. rewrite firstn_momentum_signal_column. unfold momentum.
  rewrite firstn_shift_one by (rewrite pct_change_length; lia).
  rewrite firstn_pct_change by lia.
  now rewrite firstn_zeros by lia.
Qed.

Lemma mean_reversion_column_prefix (window t n : nat) (entry_z exit_z : F)
      (prices : list F) :
  length prices = n -> t < n ->
  firstn (S t) (mr_signal_column entry_z exit_z (z_score_shifted window prices)
                                 (repeat fzero n))
  = mr_signal_column entry_z exit_z
      (fnan :: zip_with fdiv
         (zip_with fsub (firstn t prices)
            (rolling_mean window (startup_periods window) (firstn t prices)))
         (replace fzero fnan
            (rolling_std window (startup_periods window) (firstn t prices))))
      (repeat fzero (S t)).
Proof.
  intros Hl Ht.
  rewrite firstn_mr_signal_column
    by (rewrite ?z_score_shifted_length, repeat_length; lia).
  unfold z_score_shifted at 1.
  rewrite firstn_shift_one.
  - rewrite firstn_z_score by lia.
    now rewrite firstn_zeros by lia.
  - unfold replace.
    rewrite !zip_with_length, length_map, rolling_mean_length,
      rolling_std_length. lia.
Qed.

(** X7: the momentum signal of a date is computed from the prices of the
    earlier dates: two price columns over the same dates that agree before
    the row [t] give the same signal on the row [t]. *)
Theorem momentum_does_not_look_ahead :
  forall (data data' : DataFrame F) (window : nat) (s s' : MomentumStrategy)
         (prices prices' : list F) (t : nat),
    MomentumStrategy_init data window = Ok s ->
    MomentumStrategy_init data' window = Ok s' ->
    index data' = index data ->
    get_col "Adj Close" data = Some prices ->
    get_col "Adj Close" data' = Some prices' ->
    length prices = length (index data) ->
    length prices' = length (index data) ->
    t < length (index data) ->
    firstn t prices = firstn t prices' ->
    exists r r' signals signals',
      Momentum_generate_signals s = Ok (r, signals) /\
      Momentum_generate_signals s' = Ok (r', signals') /\
      nth t (col "signal" signals) fnan = nth t (col "signal" signals') fnan.
Proof.
  intros data data' window s s' prices prices' t
         Hinit Hinit' Hi Hp Hp' Hl Hl' Ht Hagree.
  rewrite (Momentum_generate_signals_ok _ _ _ _ Hinit Hp).
  rewrite (Momentum_generate_signals_ok _ _ _ _ Hinit' Hp'). cbv zeta.
  eexists _, _, _, _. split; [reflexivity|]. split; [reflexivity|].
  rewrite Hi. unfold col, get_col. cbn [columns assoc String.eqb Ascii.eqb Bool.eqb].
  apply (nth_of_firstn (S t)); [lia|].
  rewrite !momentum_column_prefix by assumption.
  now rewrite Hagree.
Qed.

(** X8: the mean-reversion signal of a date is computed from the prices of
    the earlier dates: two price columns over the same dates that agree
    before the row [t] give the same signal on the row [t]. *)
Theorem mean_reversion_does_not_look_ahead :
  forall (data data' : DataFrame F) (window : nat) (entry_z exit_z : F)
         (s s' : MeanReversionStrategy) (prices prices' : list F) (t : nat),
    MeanReversionStrategy_init data window entry_z exit_z = Ok s ->
    MeanReversionStrategy_init data' window entry_z exit_z = Ok s' ->
    index data' = index data ->
    get_col "Adj Close" data = Some prices ->
    get_col "Adj Close" data' = Some prices' ->
    length prices = length (index data) ->
    length prices' = length (index data) ->
    t < length (index data) ->
    firstn t prices = firstn t prices' ->
    exists signals signals',
      MeanReversion_generate_signals s = Ok signals /\
      MeanReversion_generate_signals s' = Ok signals' /\
      nth t (col "signal" signals) fnan = nth t (col "signal" signals') fnan.
Proof.
  intros data data' window entry_z exit_z s s' prices prices' t
         Hinit Hinit' Hi Hp Hp' Hl Hl' Ht Hagree.
  rewrite (MeanReversion_generate_signals_ok _ _ _ _ _ _ Hinit Hp).
  rewrite (MeanReversion_generate_signals_ok _ _ _ _ _ _ Hinit' Hp').
  eexists _, _. split; [reflexivity|]. split; [reflexivity|].
  rewrite Hi. unfold col, get_col. cbn [columns assoc String.eqb Ascii.eqb Bool.eqb].
  apply (nth_of_firstn (S t)); [lia|].
  rewrite !mean_reversion_column_prefix by assumption.
  now rewrite Hagree.
Qed.
End NoLookaheadSignals.

(** [momentum_does_not_look_ahead] on two columns of four prices that
    differ on the dates 3 and 4, at the row of the date 3, binary64. *)
Lemma momentum_does_not_look_ahead_witness :
  exists (r r' : MomentumStrategy) (signals signals' : DataFrame PrimFloat.float),
    Momentum_generate_signals
      (mkMomentum (mkStrategy example_data
                     (mkFrame [1%Z; 2%Z; 3%Z; 4%Z]
                              [("signal", [fzero; fzero; fzero; fzero])])) 1)
    = Ok (r, signals) /\
    Momentum_generate_signals
      (mkMomentum (mkStrategy example_data_changed
                     (mkFrame [1%Z; 2%Z; 3%Z; 4%Z]
                              [("signal", [fzero; fzero; fzero; fzero])])) 1)
    = Ok (r', signals') /\
    nth 2 (col "signal" signals) fnan = nth 2 (col "signal" signals') fnan.
Proof.
  apply (momentum_does_not_look_ahead
           example_data example_data_changed 1 _ _
           (col "Adj Close" example_data)
           (col "Adj Close" example_data_changed) 2);
    try reflexivity.
  simpl. lia.
Defined.

(** [mean_reversion_does_not_look_ahead] on two columns of six prices that
    differ on the dates 5 and 6, at the row of the date 5, binary64. *)
Lemma mean_reversion_does_not_look_ahead_witness :
  exists signals signals' : DataFrame PrimFloat.float,
    MeanReversion_generate_signals
      (mkMeanReversion
         (mkStrategy swing_data
                     (mkFrame [1%Z; 2%Z; 3%Z; 4%Z; 5%Z; 6%Z]
                              [("signal", [fzero; fzero; fzero; fzero; fzero; fzero])]))
         3 fone fhalf)
    = Ok signals /\
    MeanReversion_generate_signals
      (mkMeanReversion
         (mkStrategy swing_data_changed
                     (mkFrame [1%Z; 2%Z; 3%Z; 4%Z; 5%Z; 6%Z]
                              [("signal", [fzero; fzero; fzero; fzero; fzero; fzero])]))
         3 fone fhalf)
    = Ok signals' /\
    nth 4 (col "signal" signals) fnan = nth 4 (col "signal" signals') fnan.
Proof.
  apply (mean_reversion_does_not_look_ahead
           swing_data swing_data_changed 3 fone fhalf _ _
           (col "Adj Close" swing_data)
           (col "Adj Close" swing_data_changed) 4);
    try reflexivity.
  simpl. lia.
Defined.
(** ** No strategy gives a signal while it warms up *)

Section WarmUp.
Context {F : Type} `{FloatNan F}.

Lemma nth_seq_map {B : Type} (f : nat -> B) (n i : nat) (d : B) :
  i < n -> nth i (map f (seq 0 n)) d = f i.
Proof.
  intros Hi. rewrite (nth_map_lt f (seq 0 n) i 0%nat d) by now rewrite length_seq.
  now rewrite seq_nth.
Qed.

Lemma window_at_length (w i : nat) (xs : list F) :
  length (window_at w i xs) <= S i.
Proof.
  unfold window_at. rewrite length_skipn, length_firstn. lia.
Qed.

(** A rolling mean is NaN as long as the rows seen are fewer than
    [min_periods]. *)
Lemma rolling_mean_warm_up (w minp i : nat) (xs : list F) :
  S i < minp -> i < length xs -> nth i (rolling_mean w minp xs) fnan = fnan.
Proof.
  intros Hi Hlen. unfold rolling_mean. rewrite nth_seq_map by exact Hlen.
  cbv zeta.
  pose proof (dropna_length_le (window_at w i xs)) as Hd.
  pose proof (window_at_length w i xs) as Hw.
  destruct (Nat.leb_spec minp (length (dropna (window_at w i xs)))) as [Hle|_];
    [lia | reflexivity].
Qed.

(** A change over [n] rows is NaN on the first [n] rows. *)
Lemma pct_change_warm_up (n t : nat) (xs : list F) :
  t < n -> t < length xs -> nth t (pct_change n xs) fnan = fnan.
Proof.
  intros Ht Hlen. unfold pct_change, ffill.
  rewrite (nth_map_lt _ _ _ fnan)
    by (rewrite zip_with_length, shift_length, ffill_from_length; lia).
  rewrite (nth_zip_with _ _ _ _ fnan fnan)
    by (rewrite ?shift_length, ffill_from_length; lia).
  rewrite nth_shift by (rewrite ffill_from_length; lia).
  destruct (Nat.ltb_spec t n) as [_|Hge]; [|lia].
  now rewrite div_nan_r, sub_nan_l.
Qed.

Lemma momentum_signal_nth (ms : list F) (n t : nat) :
  length ms = n -> t < n ->
  nth t (momentum_signal_column ms (repeat fzero n)) fnan
  = if fltb (nth t ms fnan) fzero then fminus_one
    else if fgtb (nth t ms fnan) fzero then fone
    else fzero.
Proof.
  intros Hl Ht. unfold momentum_signal_column.
  rewrite nth_set_where;
    [| now rewrite length_map, Hl
     | now rewrite set_where_length, length_map, repeat_length, Hl, Nat.min_id].
  rewrite (nth_map_lt _ _ _ fnan) by now rewrite Hl.
  destruct (fltb (nth t ms fnan) fzero); [reflexivity|].
  rewrite nth_set_where;
    [| now rewrite length_map, Hl | now rewrite repeat_length].
  rewrite (nth_map_lt _ _ _ fnan) by now rewrite Hl.
  destruct (fgtb (nth t ms fnan) fzero); [reflexivity|].
  now rewrite nth_repeat_lt.
Qed.

Lemma momentum_nth (window : nat) (prices : list F) (t : nat) :
  t < length prices ->
  nth t (momentum window prices) fnan = row_above t (pct_change window prices).
Proof.
  intros Ht. unfold momentum. apply nth_shift_one.
  now rewrite pct_change_length.
Qed.

(** X9: the momentum strategy needs [window + 1] earlier prices: on the first
    [window + 1] dates, which the constructor requires the data to have,
    the signal is 0. *)
Theorem momentum_warm_up :
  forall (data : DataFrame F) (window : nat) (s : MomentumStrategy)
         (prices : list F),
    MomentumStrategy_init data window = Ok s ->
    get_col "Adj Close" data = Some prices ->
    length prices = length (index data) ->
    exists r signals,
      Momentum_generate_signals s = Ok (r, signals) /\
      window < length (col "signal" signals) /\
      forall t, t <= window -> nth t (col "signal" signals) fnan = fzero.
Proof.
  intros data window s prices Hinit Hp Hl.
  rewrite (Momentum_generate_signals_ok _ _ _ _ Hinit Hp). cbv zeta.
  eexists _, _. split; [reflexivity|].
  unfold col, get_col. cbn [columns assoc String.eqb Ascii.eqb Bool.eqb].
  assert (Hn : window < length (index data)).
  { unfold MomentumStrategy_init in Hinit.
    destruct (Strategy_init data); [|discriminate].
    destruct (Nat.ltb_spec (length (index data)) (window + 1)) as [|Hge];
      [discriminate | lia]. }
  assert (Hml : length (momentum window prices) = length (index data)).
  { unfold momentum. now rewrite shift_length, pct_change_length. }
  split.
  - unfold momentum_signal_column.
    rewrite !set_where_length, !length_map, repeat_length, Hml. lia.
  - intros t Ht. rewrite momentum_signal_nth by (assumption || lia).
    rewrite momentum_nth by lia.
    assert (Hnan : row_above t (pct_change window prices) = fnan).
    { destruct t as [|k]; [reflexivity|]. simpl.
      apply pct_change_warm_up; lia. }
    rewrite Hnan. unfold fgtb. now rewrite ltb_nan_l, ltb_nan_r.
Qed.

Lemma set_where_zero_nth (mask : list bool) (xs : list F) (t : nat) :
  t < length mask -> t < length xs ->
  nth t xs fnan = fzero -> nth t (set_where mask fzero xs) fnan = fzero.
Proof.
  intros Hm Hx Hz. rewrite nth_set_where by assumption.
  now destruct (nth t mask false).
Qed.

Lemma sma_crossovers_warm_up (short_sma long_sma : list F) (n long t : nat) :
  length short_sma = n -> length long_sma = n -> t < n -> t <= long ->
  (forall i, S i < long -> i < n -> nth i long_sma fnan = fnan) ->
  nth t (sma_crossovers short_sma long_sma (repeat fzero n)) fnan = fzero.
Proof.
  intros Hs Hlg Ht Hle Hwarm. unfold sma_crossovers.
  assert (Hlate : nth t (shift 2 long_sma) fnan = fnan).
  { rewrite nth_shift by lia.
    destruct (Nat.ltb_spec t 2) as [_|Hge]; [reflexivity|].
    apply Hwarm; lia. }
  rewrite nth_set_where;
    [| rewrite !zip_with_length, !shift_length; lia
     | rewrite set_where_length, !zip_with_length, !shift_length, repeat_length;
       lia].
  rewrite (nth_zip_with _ _ _ _ false false)
    by (rewrite !zip_with_length, !shift_length; lia).
  rewrite (nth_zip_with fgeb _ _ _ fnan fnan) by (rewrite shift_length; lia).
  rewrite Hlate. unfold fgeb at 1. rewrite leb_nan_l, andb_false_r.
  rewrite nth_set_where;
    [| rewrite !zip_with_length, !shift_length; lia
     | rewrite repeat_length; lia].
  rewrite (nth_zip_with _ _ _ _ false false)
    by (rewrite !zip_with_length, !shift_length; lia).
  rewrite (nth_zip_with fleb _ _ _ fnan fnan) by (rewrite shift_length; lia).
  rewrite Hlate, leb_nan_r, andb_false_r.
  now apply nth_repeat_lt.
Qed.

(** X10: the SMA strategy needs the long average of two earlier dates: on the
    first [long_window + 1] dates the signal is 0. *)
Theorem sma_crossover_warm_up :
  forall (data : DataFrame F) (short long : nat) (s : SMACrossoverStrategy)
         (prices : list F),
    SMACrossoverStrategy_init data short long = Ok s ->
    get_col "Adj Close" data = Some prices ->
    length prices = length (index data) ->
    exists signals,
      SMACrossover_generate_signals s = Ok signals /\
      length (col "signal" signals) = length (index data) /\
      forall t, t <= long -> t < length (index data) ->
                nth t (col "signal" signals) fnan = fzero.
Proof.
  intros data short long s prices Hinit Hp Hl.
  rewrite (SMACrossover_generate_signals_ok _ _ _ _ _ Hinit Hp).
  eexists. split; [reflexivity|].
  unfold col, get_col. cbn [columns assoc String.eqb Ascii.eqb Bool.eqb].
  rewrite sma_signal_column_unfilled. cbv zeta.
  set (n := length (index data)) in *.
  set (short_sma := rolling_mean short short prices).
  set (long_sma := rolling_mean long long prices).
  assert (Hsl : length short_sma = n) by (unfold short_sma; now rewrite rolling_mean_length).
  assert (Hll : length long_sma = n) by (unfold long_sma; now rewrite rolling_mean_length).
  set (crossed := sma_crossovers short_sma long_sma (repeat fzero n)).
  assert (Hcl : length crossed = n).
  { unfold crossed, sma_crossovers.
    rewrite !set_where_length, !zip_with_length, !shift_length, repeat_length. lia. }
  set (corrected := set_where _ fzero crossed).
  assert (Hkl : length corrected = n).
  { unfold corrected.
    rewrite set_where_length, !zip_with_length, length_map, shift_length. lia. }
  split.
  - rewrite set_where_length, !zip_with_length, length_map, shift_length. lia.
  - intros t Ht Hn.
    apply set_where_zero_nth;
      [rewrite !zip_with_length, length_map, shift_length; lia | lia |].
    apply set_where_zero_nth;
      [rewrite !zip_with_length, length_map, shift_length; lia | lia |].
    apply (sma_crossovers_warm_up short_sma long_sma n long t); try assumption.
    intros i Hi Hin. apply rolling_mean_warm_up; [exact Hi | lia].
Qed.

Lemma mr_entry_nan (entry_z : F) : mr_entry entry_z fnan = fzero.
Proof. unfold mr_entry, fgtb. now rewrite ltb_nan_r, ltb_nan_l. Qed.

Lemma z_score_warm_up (window : nat) (prices : list F) (t : nat) :
  t < Nat.max 1 (startup_periods window) -> t < length prices ->
  nth t (z_score_shifted window prices) fnan = fnan.
Proof.
  intros Ht Hlen. unfold z_score_shifted, replace.
  rewrite nth_shift_one
    by (rewrite !zip_with_length, length_map, rolling_mean_length,
          rolling_std_length; lia).
  destruct t as [|k]; [reflexivity|]. simpl.
  rewrite (nth_zip_with _ _ _ _ fnan fnan)
    by (rewrite ?zip_with_length, ?length_map, ?rolling_mean_length,
          ?rolling_std_length; lia).
  rewrite (nth_zip_with _ _ _ _ fnan fnan)
    by (rewrite ?rolling_mean_length; lia).
  rewrite rolling_mean_warm_up by lia.
  now rewrite sub_nan_r, div_nan_l.
Qed.

(** X11: the mean-reversion strategy needs [int(0.8 * window)] earlier prices:
    on the first date, and on the first [int(0.8 * window)] dates, the
    signal is 0. *)
Theorem mean_reversion_warm_up :
  forall (data : DataFrame F) (window : nat) (entry_z exit_z : F)
         (s : MeanReversionStrategy) (prices : list F),
    MeanReversionStrategy_init data window entry_z exit_z = Ok s ->
    get_col "Adj Close" data = Some prices ->
    length prices = length (index data) ->
    exists signals,
      MeanReversion_generate_signals s = Ok signals /\
      length (col "signal" signals) = length (index data) /\
      forall t, t < Nat.max 1 (startup_periods window) ->
                t < length (index data) ->
                nth t (col "signal" signals) fnan = fzero.
Proof.
  intros data window entry_z exit_z s prices Hinit Hp Hl.
  rewrite (MeanReversion_generate_signals_ok _ _ _ _ _ _ Hinit Hp).
  eexists. split; [reflexivity|].
  unfold col, get_col. cbn [columns assoc String.eqb Ascii.eqb Bool.eqb].
  set (n := length (index data)) in *.
  set (zs := z_score_shifted window prices).
  assert (Hzl : length zs = n) by (unfold zs; now rewrite z_score_shifted_length).
  unfold mr_signal_column.
  set (entries := mr_entries entry_z zs (repeat fzero n)).
  assert (Hel : length entries = n).
  { unfold entries. rewrite mr_entries_length; now rewrite repeat_length. }
  assert (Hxl : length (mr_flatten_long exit_z zs entries) = n).
  { rewrite mr_flatten_long_length; congruence. }
  split.
  - rewrite mr_flatten_short_length; congruence.
  - intros t Ht Hn.
    rewrite mr_flatten_short_nth by congruence.
    destruct (feqb _ fminus_one && fltb (nth t zs fnan) exit_z); [reflexivity|].
    rewrite mr_flatten_long_nth by congruence.
    destruct (feqb _ fone && fgtb (nth t zs fnan) (fneg exit_z)); [reflexivity|].
    unfold entries. rewrite mr_entries_nth by assumption.
    unfold zs. rewrite z_score_warm_up by (assumption || lia).
    apply mr_entry_nan.
Qed.
End WarmUp.

(** [momentum_warm_up] on the example prices with the window 1,
    binary64. *)
Lemma momentum_warm_up_witness :
  exists (r : MomentumStrategy) (signals : DataFrame PrimFloat.float),
    Momentum_generate_signals
      (mkMomentum (mkStrategy example_data
                     (mkFrame [1%Z; 2%Z; 3%Z; 4%Z]
                              [("signal", [fzero; fzero; fzero; fzero])])) 1)
    = Ok (r, signals) /\
    1 < length (col "signal" signals) /\
    forall t, t <= 1 -> nth t (col "signal" signals) fnan = fzero.
Proof.
  apply (momentum_warm_up example_data 1 _ (col "Adj Close" example_data));
    reflexivity.
Defined.

(** [sma_crossover_warm_up] on the prices 1, ..., 10 with the windows 2 and
    3, binary64. *)
Lemma sma_crossover_warm_up_witness :
  exists signals : DataFrame PrimFloat.float,
    SMACrossover_generate_signals
      (mkSMACrossover
         (mkStrategy rising_data
                     (mkFrame (index (@rising_data PrimFloat.float _))
                              [("signal", map (fun _ => fzero)
                                              (index (@rising_data PrimFloat.float _)))]))
         2 3)
    = Ok signals /\
    length (col "signal" signals) = 10 /\
    forall t, t <= 3 -> t < 10 -> nth t (col "signal" signals) fnan = fzero.
Proof.
  apply (sma_crossover_warm_up rising_data 2 3 _ (col "Adj Close" rising_data));
    reflexivity.
Defined.

(** [mean_reversion_warm_up] on the six swing prices with the window 3,
    binary64. *)
Lemma mean_reversion_warm_up_witness :
  exists signals : DataFrame PrimFloat.float,
    MeanReversion_generate_signals
      (mkMeanReversion
         (mkStrategy swing_data
                     (mkFrame [1%Z; 2%Z; 3%Z; 4%Z; 5%Z; 6%Z]
                              [("signal", [fzero; fzero; fzero; fzero; fzero; fzero])]))
         3 fone fhalf)
    = Ok signals /\
    length (col "signal" signals) = 6 /\
    forall t, t < Nat.max 1 (startup_periods 3) -> t < 6 ->
              nth t (col "signal" signals) fnan = fzero.
Proof.
  apply (mean_reversion_warm_up swing_data 3 fone fhalf _
                                (col "Adj Close" swing_data));
    reflexivity.
Defined.
(** ** The momentum signal is the sign of the price change *)

Section MomentumRows.
Context {F : Type} `{FloatOps F}.

Lemma pct_change_nth (n t : nat) (xs : list F) :
  n <= t -> t < length xs ->
  nth t (pct_change n xs) fnan
  = fsub (fdiv (nth t (ffill xs) fnan) (nth (t - n) (ffill xs) fnan)) fone.
Proof.
  intros Hn Hlen. unfold pct_change, ffill.
  rewrite (nth_map_lt _ _ _ fnan)
    by (rewrite zip_with_length, shift_length, ffill_from_length; lia).
  rewrite (nth_zip_with _ _ _ _ fnan fnan)
    by (rewrite ?shift_length, ffill_from_length; lia).
  rewrite nth_shift by (rewrite ffill_from_length; lia).
  destruct (Nat.ltb_spec t n) as [Hlt|_]; [lia | reflexivity].
Qed.
End MomentumRows.

Module IdealMomentum.
Import Ideal IdealFacts.
Local Open Scope R_scope.

Lemma ffill_finite (ps : list R) : ffill (map Fin ps) = map Fin ps.
Proof.
  unfold ffill. apply ffill_from_defined.
  apply Forall_forall. intros x Hx. apply in_map_iff in Hx.
  now destruct Hx as (p & <- & _).
Qed.

Lemma nth_finite (ps : list R) (k : nat) :
  (k < length ps)%nat -> nth k (map Fin ps) NaN = Fin (nth k ps 0).
Proof. intros Hk. now apply nth_map_lt. Qed.

Lemma change_sign (old new : R) :
  0 < old ->
  (if xltb (xsub (xdiv (Fin new) (Fin old)) (Fin 1)) (Fin 0) then Fin (-1)
   else if xltb (Fin 0) (xsub (xdiv (Fin new) (Fin old)) (Fin 1)) then Fin 1
   else Fin 0)
  = price_move old new.
Proof.
  intros Hold. unfold price_move. simpl.
  rewrite Reqb_false by lra. simpl.
  assert (Hq : new / old - 1 = (new - old) / old) by (field; lra).
  rewrite Hq.
  destruct (Rlt_dec old new) as [Hup|Hnup].
  - assert (0 < (new - old) / old) by (apply Rdiv_lt_0_compat; lra).
    now rewrite (Rltb_false _ 0), !Rltb_true by lra.
  - destruct (Rlt_dec new old) as [Hdown|Hndown].
    + assert (0 < (old - new) / old) by (apply Rdiv_lt_0_compat; lra).
      assert ((new - old) / old = - ((old - new) / old)) by (field; lra).
      now rewrite (Rltb_true _ 0), (Rltb_false old new), Rltb_true by lra.
    + assert (new = old) by lra. subst new.
      replace ((old - old) / old) with 0 by (field; lra).
      now rewrite !Rltb_false by lra.
Qed.

(** X12: in exact arithmetic and on positive prices, once [window + 1] earlier
    prices exist the momentum signal of a date is +1 when the price of the
    previous date is above the price [window] rows before it, -1 when it is
    below and 0 when the two are equal. *)
Theorem momentum_follows_the_price_change :
  forall (data : DataFrame xreal) (window : nat) (s : MomentumStrategy)
         (ps : list R),
    MomentumStrategy_init data window = Ok s ->
    get_col "Adj Close" data = Some (map Fin ps) ->
    length ps = length (index data) ->
    Forall (fun x => 0 < x) ps ->
    exists r signals,
      Momentum_generate_signals s = Ok (r, signals) /\
      forall t, (window < t)%nat -> (t < length (index data))%nat ->
        nth t (col "signal" signals) NaN
        = price_move (nth (t - 1 - window) ps 0) (nth (t - 1) ps 0).
Proof.
  intros data window s ps Hinit Hp Hl Hpos.
  rewrite (Momentum_generate_signals_ok _ _ _ _ Hinit Hp). cbv zeta.
  eexists _, _. split; [reflexivity|].
  intros t Hw Ht.
  unfold col, get_col. cbn [columns assoc String.eqb Ascii.eqb Bool.eqb].
  assert (Hml : length (momentum window (map Fin ps)) = length (index data)).
  { unfold momentum. now rewrite shift_length, pct_change_length, length_map. }
  change NaN with (@fnan xreal _).
  rewrite momentum_signal_nth by assumption.
  rewrite momentum_nth by (rewrite length_map; lia).
  destruct t as [|k]; [lia|]. cbn [row_above].
  rewrite pct_change_nth by (rewrite ?length_map; lia).
  rewrite ffill_finite.
  change (@fnan xreal _) with NaN.
  rewrite !nth_finite by lia.
  replace (S k - 1 - window)%nat with (k - window)%nat by lia.
  replace (S k - 1)%nat with k by lia.
  apply change_sign.
  rewrite Forall_forall in Hpos. apply Hpos, nth_In. lia.
Qed.

(** [momentum_follows_the_price_change] on the prices 100, 102, 101, 105
    with the window 1. *)
Lemma momentum_follows_the_price_change_witness :
  exists (r : MomentumStrategy) (signals : DataFrame xreal),
    Momentum_generate_signals
      (mkMomentum (mkStrategy example_data
                     (mkFrame [1%Z; 2%Z; 3%Z; 4%Z]
                              [("signal", [fzero; fzero; fzero; fzero])])) 1)
    = Ok (r, signals) /\
    forall t, (1 < t)%nat -> (t < 4)%nat ->
      nth t (col "signal" signals) NaN
      = price_move (nth (t - 1 - 1) [100; 102; 101; 105] 0)
                   (nth (t - 1) [100; 102; 101; 105] 0).
Proof.
  apply (momentum_follows_the_price_change
           example_data 1 _ [100; 102; 101; 105]); try reflexivity.
  repeat constructor; lra.
Defined.
End IdealMomentum.
(** ** The dictionary of metrics *)

Section Metrics.
Context {F : Type} `{FloatConsts F} `{FloatPow F}.

Lemma nan_metrics_entries :
  @nan_metrics F _
  = [("CAGR", fnan); ("Annualized Sharpe Ratio", fnan);
     ("Annualized Sortino Ratio", fnan); ("Max Drawdown", fnan);
     ("Calmar Ratio", fnan); ("Cumulative Return", fnan);
     ("Annualized Volatility", fnan)].
Proof. reflexivity. Qed.

(** X13: a portfolio that is missing, empty or without its equity or its
    strategy returns gets a dictionary of seven NaN values, in which the key
    ['Total Trades'] does not exist; a portfolio that has the two columns
    but not the column [position] raises [KeyError]. *)
Theorem metrics_of_an_unusable_portfolio :
  forall (rf : F),
    (forall portfolio : option (DataFrame F),
        match portfolio with
        | None => True
        | Some df => df_empty df = true \/ get_col "equity_curve" df = None \/
                     get_col "strategy_return" df = None
        end ->
        calculate_performance_metrics portfolio rf = Ok nan_metrics) /\
    length (@nan_metrics F _) = 7 /\
    Forall (fun kv : string * F => snd kv = fnan) nan_metrics /\
    dict_get "Total Trades" (@nan_metrics F _) = None /\
    (forall (df : DataFrame F) (e s : F) (es ss : list F),
        df_empty df = false ->
        get_col "equity_curve" df = Some (e :: es) ->
        get_col "strategy_return" df = Some (s :: ss) ->
        get_col "position" df = None ->
        calculate_performance_metrics (Some df) rf = Raise (KeyError "position")).
Proof.
  intros rf. split; [|split; [|split; [|split]]].
  - intros [df|] Hbad; [|reflexivity].
    unfold calculate_performance_metrics.
    destruct (df_empty df); [reflexivity|].
    destruct (get_col "equity_curve" df) as [ec|]; [|reflexivity].
    destruct (get_col "strategy_return" df) as [sr|];
      [|now destruct ec].
    destruct Hbad as [Hb|[Hb|Hb]]; discriminate.
  - reflexivity.
  - rewrite nan_metrics_entries. repeat constructor.
  - reflexivity.
  - intros df e s es ss Hne He Hs Hq.
    unfold calculate_performance_metrics. now rewrite Hne, He, Hs, Hq.
Qed.

(** X14: the metrics of a trajectory of the simulator: the function never
    falls back to the dictionary of NaN values and never raises; it returns
    the eight keys, ['Total Trades'] included, and the Calmar ratio is
    computed from the two entries ['CAGR'] and ['Max Drawdown']. *)
Theorem metrics_of_a_trajectory :
  forall (data signals : DataFrame F) (cap rf : F) (allow : bool)
         (p : DataFrame F),
    run_backtest (Some data) (Some signals) cap allow = Some p ->
    exists metrics,
      calculate_performance_metrics (Some p) rf = Ok metrics /\
      map fst metrics
      = ["CAGR"; "Annualized Sharpe Ratio"; "Annualized Sortino Ratio";
         "Max Drawdown"; "Calmar Ratio"; "Cumulative Return";
         "Annualized Volatility"; "Total Trades"] /\
      dict_get "Total Trades" metrics = Some (total_trades p) /\
      dict_get "Calmar Ratio" metrics
      = Some (calculate_calmar (dict_get "CAGR" metrics)
                               (dict_get "Max Drawdown" metrics)).
Proof.
  intros data signals cap rf allow p Hrun.
  destruct (run_backtest_inv _ _ _ _ _ Hrun) as (prices & signal & Hp & Hg & Hne & ->).
  set (labels := index_intersection (index data) (index signals)) in *.
  set (b := build_portfolio (loc labels data) (loc labels signals) cap allow).
  assert (Hcols := aligned_portfolio data signals cap allow prices signal labels Hp Hg).
  cbv zeta in Hcols. fold b in Hcols.
  assert (Hidx : index b = labels) by reflexivity.
  destruct labels as [|c rest] eqn:Hlab; [congruence|].
  set (ps := aligned (c :: rest) data prices) in *.
  set (ss := aligned (c :: rest) signals signal) in *.
  assert (Hemp : df_empty b = false).
  { unfold df_empty. now rewrite Hidx, Hcols. }
  assert (He : get_col "equity_curve" b = Some (equity cap allow ps ss)).
  { unfold get_col. now rewrite Hcols. }
  assert (Hr : get_col "strategy_return" b = Some (strategy_returns allow ps ss)).
  { unfold get_col. now rewrite Hcols. }
  assert (Hq : get_col "position" b = Some (positions allow ss)).
  { unfold get_col. now rewrite Hcols. }
  destruct (equity cap allow ps ss) as [|e es] eqn:Hee.
  { apply (f_equal (@length F)) in Hee.
    rewrite equity_length in Hee. unfold ps, ss in Hee.
    rewrite !aligned_length in Hee. discriminate. }
  destruct (strategy_returns allow ps ss) as [|r rs] eqn:Hrr.
  { apply (f_equal (@length F)) in Hrr.
    rewrite strategy_returns_length in Hrr. unfold ps, ss in Hrr.
    rewrite !aligned_length in Hrr. discriminate. }
  unfold calculate_performance_metrics. rewrite Hemp, He, Hr, Hq.
  eexists. split; [reflexivity|]. repeat split; reflexivity.
Qed.
End Metrics.

(** [metrics_of_an_unusable_portfolio] on the missing portfolio, exact
    arithmetic. *)
Lemma metrics_of_an_unusable_portfolio_witness :
  calculate_performance_metrics (@None (DataFrame xreal)) (Fin 0)
  = Ok nan_metrics.
Proof.
  apply (proj1 (metrics_of_an_unusable_portfolio (Fin 0)) None I).
Defined.

(** [metrics_of_a_trajectory] on the trajectory of the example frames,
    exact arithmetic. *)
Lemma metrics_of_a_trajectory_witness :
  exists metrics : list (string * xreal),
    calculate_performance_metrics
      (Some (build_portfolio (loc [1%Z; 2%Z; 3%Z; 4%Z] example_data)
                             (loc [1%Z; 2%Z; 3%Z; 4%Z] example_signals)
                             (Fin 100000) true))
      (Fin 0)
    = Ok metrics /\
    map fst metrics
    = ["CAGR"; "Annualized Sharpe Ratio"; "Annualized Sortino Ratio";
       "Max Drawdown"; "Calmar Ratio"; "Cumulative Return";
       "Annualized Volatility"; "Total Trades"] /\
    dict_get "Total Trades" metrics
    = Some (total_trades
              (build_portfolio (loc [1%Z; 2%Z; 3%Z; 4%Z] example_data)
                               (loc [1%Z; 2%Z; 3%Z; 4%Z] example_signals)
                               (Fin 100000) true)) /\
    dict_get "Calmar Ratio" metrics
    = Some (calculate_calmar (dict_get "CAGR" metrics)
                             (dict_get "Max Drawdown" metrics)).
Proof.
  apply (metrics_of_a_trajectory example_data example_signals
                                 (Fin 100000) (Fin 0) true).
  eapply run_backtest_some; try reflexivity. discriminate.
Defined.
(** ** The plot: both curves start at the initial capital *)

Section Benchmark.
Context {F : Type} `{FloatNan F}.

Lemma cumulative_head (r : F) (rs : list F) :
  r = fzero ->
  exists rest, cumprod (map (fadd fone) (r :: rs)) = fone :: rest.
Proof.
  intros ->. cbn [map]. unfold cumprod.
  rewrite add_one_zero, isnan_one. eauto.
Qed.

(** X15: on a trajectory of the simulator [plot_equity_curve] recovers, from
    the first row, the initial capital that the simulator was given, and
    the benchmark it draws is that capital times the cumulative market
    return; the benchmark and the equity curve both start at the initial
    capital. *)
Theorem plot_starts_at_the_initial_capital :
  forall (data signals : DataFrame F) (cap : F) (allow : bool)
         (p : DataFrame F),
    run_backtest (Some data) (Some signals) cap allow = Some p ->
    plot_benchmark (Some p)
    = Ok (Some (cap, map (fmul cap) (col "cumulative_market" p))) /\
    hd_error (map (fmul cap) (col "cumulative_market" p)) = Some cap /\
    hd_error (col "equity_curve" p) = Some cap.
Proof.
  intros data signals cap allow p Hrun.
  destruct (run_backtest_inv _ _ _ _ _ Hrun) as (prices & signal & Hp & Hg & Hne & ->).
  set (labels := index_intersection (index data) (index signals)) in *.
  set (b := build_portfolio (loc labels data) (loc labels signals) cap allow).
  assert (Hcols := aligned_portfolio data signals cap allow prices signal labels Hp Hg).
  cbv zeta in Hcols. fold b in Hcols.
  assert (Hidx : index b = labels) by reflexivity.
  destruct labels as [|c rest] eqn:Hlab; [congruence|].
  unfold aligned in Hcols. cbn [map] in Hcols.
  set (x := at_label c (index data) prices) in *.
  set (xs := map (fun d => at_label d (index data) prices) rest) in *.
  set (s := at_label c (index signals) signal) in *.
  set (sss := map (fun d => at_label d (index signals) signal) rest) in *.
  destruct (market_returns_head x xs) as [ms Hms].
  destruct (strategy_returns_head allow x s xs sss) as [rs Hrs].
  destruct (equity_head cap allow x s xs sss) as [es Hes].
  destruct (cumulative_head fzero ms eq_refl) as [cm Hcm].
  destruct (cumulative_head fzero rs eq_refl) as [cs Hcs].
  rewrite Hms, Hrs, Hes, Hcm, Hcs in Hcols.
  assert (Hemp : df_empty b = false).
  { unfold df_empty. now rewrite Hidx, Hcols. }
  unfold plot_benchmark, col, get_col. rewrite Hemp, Hcols.
  cbn [assoc String.eqb Ascii.eqb Bool.eqb hd map hd_error].
  rewrite div_one_r.
  destruct (negb (feqb fone fzero)); now rewrite !mul_one_r.
Qed.
End Benchmark.

(** [plot_starts_at_the_initial_capital] on the trajectory of the example
    frames, binary64. *)
Lemma plot_starts_at_the_initial_capital_witness :
  plot_benchmark
    (Some (build_portfolio (loc [1%Z; 2%Z; 3%Z; 4%Z] example_data)
                           (loc [1%Z; 2%Z; 3%Z; 4%Z] example_signals)
                           (B64.of_Z 100000) true))
  = Ok (Some (B64.of_Z 100000,
              map (fmul (B64.of_Z 100000))
                  (col "cumulative_market"
                       (build_portfolio (loc [1%Z; 2%Z; 3%Z; 4%Z] example_data)
                                        (loc [1%Z; 2%Z; 3%Z; 4%Z] example_signals)
                                        (B64.of_Z 100000) true)))).
Proof.
  assert (Hrun :
    run_backtest (Some example_data) (Some example_signals) (B64.of_Z 100000) true
    = Some (build_portfolio (loc [1%Z; 2%Z; 3%Z; 4%Z] example_data)
                            (loc [1%Z; 2%Z; 3%Z; 4%Z] example_signals)
                            (B64.of_Z 100000) true)).
  { eapply run_backtest_some; try reflexivity. discriminate. }
  apply (plot_starts_at_the_initial_capital _ _ _ _ _ Hrun).
Defined.

(** ** The combinations of the parameter grid *)

Section Dictionaries.
Context {V : Type}.

Lemma dict_get_set_same (k : string) (v : V) (d : list (string * V)) :
  dict_get k (dict_set k v d) = Some v.
Proof.
  induction d as [|[k' v'] d IH]; simpl.
  - now rewrite String.eqb_refl.
  - destruct (String.eqb k k') eqn:Hk; simpl; rewrite Hk; [reflexivity | exact IH].
Qed.

Lemma dict_get_set_other (k k' : string) (v : V) (d : list (string * V)) :
  k <> k' -> dict_get k' (dict_set k v d) = dict_get k' d.
Proof.
  intros Hne. induction d as [|[k0 v0] d IH]; simpl.
  - destruct (String.eqb_spec k' k) as [->|_]; [congruence | reflexivity].
  - destruct (String.eqb_spec k k0) as [->|Hk]; simpl.
    + destruct (String.eqb_spec k' k0) as [->|_]; [congruence | reflexivity].
    + now rewrite IH.
Qed.

Lemma product_In (vs : list V) (ls : list (list V)) :
  In vs (product ls) -> Forall2 (fun v l => In v l) vs ls.
Proof.
  revert vs; induction ls as [|l ls IH]; intros vs Hin; simpl in Hin.
  - destruct Hin as [<-|[]]. constructor.
  - apply in_flat_map in Hin. destruct Hin as (x & Hx & Hin).
    apply in_map_iff in Hin. destruct Hin as (rest & <- & Hrest).
    constructor; [exact Hx | now apply IH].
Qed.

Lemma product_length (ls : list (list V)) :
  length (product ls) = fold_right (fun l n => length l * n) 1 ls.
Proof.
  induction ls as [|l ls IH]; [reflexivity|]. cbn [product fold_right].
  rewrite <- IH. clear IH.
  induction l as [|x l IHl]; [reflexivity|].
  cbn [flat_map length]. now rewrite length_app, length_map, IHl.
Qed.
End Dictionaries.

Section GridFacts.
Context {F : Type} `{FloatOps F}.

(** A combination takes, at each key of the grid, one of the values the
    grid lists for that key. *)
Lemma dict_get_combination (k : string) (g : list (string * list (pvalue F)))
      (l : list (pvalue F)) (p : list (string * pvalue F)) :
  In p (combinations_of g) -> dict_get k g = Some l ->
  exists v, dict_get k p = Some v /\ In v l.
Proof.
  unfold combinations_of. intros Hin Hk.
  apply in_map_iff in Hin. destruct Hin as (vs & <- & Hvs).
  apply product_In in Hvs. revert vs Hvs.
  induction g as [|[k' l'] g IH]; intros vs Hvs; [discriminate|].
  cbn [map fst snd] in *. inversion Hvs as [|v ? vs' ? Hv Hrest]; subst.
  cbn [combine dict_get] in *.
  destruct (String.eqb k k'); [inversion Hk; subst; eauto | now apply IH].
Qed.

Lemma combination_type (t : pvalue F) (g : list (string * list (pvalue F)))
      (p : list (string * pvalue F)) :
  In p (combinations_of (dict_set "strategy_type" [t] g)) ->
  dict_get "strategy_type" p = Some t.
Proof.
  intros Hin.
  destruct (dict_get_combination "strategy_type" _ [t] p Hin
              (dict_get_set_same _ _ _)) as (v & Hv & [<-|[]]).
  exact Hv.
Qed.

Lemma keep_ordered_In (ps kept : list (list (string * pvalue F)))
      (p : list (string * pvalue F)) :
  keep_ordered ps = inr kept -> In p kept ->
  In p ps /\
  exists short long,
    dict_get "sma_short_window" p = Some short /\
    dict_get "sma_long_window" p = Some long /\
    py_lt short long = inr true.
Proof.
  revert kept; induction ps as [|q ps IH]; intros kept Hk Hin; simpl in Hk.
  - inversion Hk; subst. contradiction.
  - destruct (dict_get "sma_short_window" q) as [short|] eqn:Hs; [|discriminate].
    destruct (dict_get "sma_long_window" q) as [long|] eqn:Hl; [|discriminate].
    destruct (py_lt short long) as [e|keep] eqn:Hlt; [discriminate|].
    destruct (keep_ordered ps) as [e|kept'] eqn:Hrest; [discriminate|].
    inversion Hk; subst; clear Hk.
    destruct keep.
    + destruct Hin as [<-|Hin].
      * split; [now left | eauto].
      * destruct (IH kept' eq_refl Hin) as [Hp Hex]. split; [now right | exact Hex].
    + destruct (IH kept' eq_refl Hin) as [Hp Hex]. split; [now right | exact Hex].
Qed.

(** X16: every combination carries the name of one of the three strategies,
    whatever the grid lists under ['strategy_type'], and the windows of
    every SMA combination are ordered: for integer windows the short one is
    below the long one, so that the constructor of the SMA strategy does not
    refuse the combination for the order of its windows. *)
Theorem combinations_are_well_formed :
  forall (grid : list (string * list (pvalue F)))
         (combinations : list (list (string * pvalue F)))
         (p : list (string * pvalue F)),
    generate_parameter_combinations grid = inr combinations ->
    In p combinations ->
    dict_get "strategy_type" p = Some (PStr "momentum") \/
    dict_get "strategy_type" p = Some (PStr "mean_reversion") \/
    (dict_get "strategy_type" p = Some (PStr "sma_crossover") /\
     exists short long,
       dict_get "sma_short_window" p = Some short /\
       dict_get "sma_long_window" p = Some long /\
       py_lt short long = inr true /\
       forall (s l : Z) (data : DataFrame F),
         short = PInt s -> long = PInt l -> (0 <= s)%Z ->
         (s < l)%Z /\
         SMACrossoverStrategy_init data (Z.to_nat s) (Z.to_nat l)
         <> Raise (ValueError "Short window must be less than long window.")).
Proof.
  intros grid combinations p Hgen Hin.
  unfold generate_parameter_combinations in Hgen. cbv zeta in Hgen.
  destruct (keep_ordered _) as [e|sma_values] eqn:Hsma; [discriminate|].
  inversion Hgen; subst; clear Hgen.
  cbn [app] in Hin. rewrite <- app_assoc in Hin.
  apply in_app_or in Hin. destruct Hin as [Hin|Hin];
    [left; now apply combination_type in Hin|].
  apply in_app_or in Hin. destruct Hin as [Hin|Hin];
    [right; left; now apply combination_type in Hin|].
  right; right.
  destruct (keep_ordered_In _ _ _ Hsma Hin) as (Hp & short & long & Hs & Hl & Hlt).
  split; [now apply combination_type in Hp|].
  exists short, long. repeat split; try assumption.
  - subst short long. simpl in Hlt. inversion Hlt as [Hb].
    now apply Z.ltb_lt.
  - subst short long. simpl in Hlt. inversion Hlt as [Hb].
    apply Z.ltb_lt in Hb.
    unfold SMACrossoverStrategy_init, Strategy_init.
    destruct (df_empty data); [discriminate|].
    destruct (Nat.leb_spec (Z.to_nat l) (Z.to_nat s)) as [Hle|_]; [lia|].
    destruct (length (index data) <? Z.to_nat l)%nat; discriminate.
Qed.
End GridFacts.

(** [combinations_are_well_formed] on the grid of the script, at the SMA
    combination with the windows 15 and 40, binary64. *)
Lemma combinations_are_well_formed_witness :
  dict_get "strategy_type"
           [("strategy_type", @PStr PrimFloat.float "sma_crossover");
            ("allow_shorting", PBool false);
            ("sma_short_window", PInt 15); ("sma_long_window", PInt 40)]
  = Some (PStr "momentum") \/
  dict_get "strategy_type"
           [("strategy_type", @PStr PrimFloat.float "sma_crossover");
            ("allow_shorting", PBool false);
            ("sma_short_window", PInt 15); ("sma_long_window", PInt 40)]
  = Some (PStr "mean_reversion") \/
  (dict_get "strategy_type"
            [("strategy_type", @PStr PrimFloat.float "sma_crossover");
             ("allow_shorting", PBool false);
             ("sma_short_window", PInt 15); ("sma_long_window", PInt 40)]
   = Some (PStr "sma_crossover") /\
   exists short long,
     dict_get "sma_short_window"
              [("strategy_type", @PStr PrimFloat.float "sma_crossover");
               ("allow_shorting", PBool false);
               ("sma_short_window", PInt 15); ("sma_long_window", PInt 40)]
     = Some short /\
     dict_get "sma_long_window"
              [("strategy_type", @PStr PrimFloat.float "sma_crossover");
               ("allow_shorting", PBool false);
               ("sma_short_window", PInt 15); ("sma_long_window", PInt 40)]
     = Some long /\
     py_lt short long = inr true /\
     forall (s l : Z) (data : DataFrame PrimFloat.float),
       short = PInt s -> long = PInt l -> (0 <= s)%Z ->
       (s < l)%Z /\
       SMACrossoverStrategy_init data (Z.to_nat s) (Z.to_nat l)
       <> Raise (ValueError "Short window must be less than long window.")).
Proof.
  eapply (combinations_are_well_formed param_grid).
  - vm_compute. reflexivity.
  - do 30 right. left. reflexivity.
Defined.

Section GridCount.
Context {F : Type} `{FloatOps F}.

(** X17: the list under ['strategy_type'] in the grid is not used: the
    function overwrites it in each of its three blocks, so a grid with
    another list under that key, empty or not, has the same
    combinations. *)
Theorem grid_strategy_type_is_ignored :
  forall (grid : list (string * list (pvalue F))) (types types' : list (pvalue F)),
    dict_get "strategy_type" grid = Some types ->
    generate_parameter_combinations (dict_set "strategy_type" types' grid)
    = generate_parameter_combinations grid.
Proof.
  intros grid types types' Ht.
  unfold generate_parameter_combinations, sub_grid. cbn [fold_left].
  rewrite dict_get_set_same, Ht.
  rewrite !dict_get_set_other by discriminate.
  destruct (dict_get "allow_shorting" grid),
           (dict_get "momentum_window" grid),
           (dict_get "mean_reversion_window" grid),
           (dict_get "mean_reversion_entry_z" grid),
           (dict_get "mean_reversion_exit_z" grid),
           (dict_get "sma_short_window" grid),
           (dict_get "sma_long_window" grid);
    reflexivity.
Qed.

Lemma map_flat_map {A B C : Type} (g : B -> C) (h : A -> list B) (xs : list A) :
  map g (flat_map h xs) = flat_map (fun x => map g (h x)) xs.
Proof.
  induction xs as [|x xs IH]; [reflexivity|].
  cbn [flat_map]. now rewrite map_app, IH.
Qed.

Lemma flat_map_map {A B C : Type} (h : B -> list C) (g : A -> B) (xs : list A) :
  flat_map h (map g xs) = flat_map (fun x => h (g x)) xs.
Proof.
  induction xs as [|x xs IH]; [reflexivity|].
  cbn [map flat_map]. now rewrite IH.
Qed.

Lemma sma_products (t : pvalue F) (A : list (pvalue F)) (ss ls : list Z) :
  map (combine ["strategy_type"; "allow_shorting"; "sma_short_window";
                "sma_long_window"])
      (product [[t]; A; map PInt ss; map PInt ls])
  = flat_map (fun a =>
                flat_map (fun s => map (sma_combination t a s) ls) ss) A.
Proof.
  change (product [[t]; A; map PInt ss; map PInt ls])
    with (map (cons t) (product [A; map PInt ss; map PInt ls]) ++ []).
  rewrite app_nil_r, map_map.
  change (product [A; map PInt ss; map PInt ls])
    with (flat_map (fun a => map (cons a) (product [map PInt ss; map PInt ls])) A).
  rewrite map_flat_map. apply flat_map_ext. intros a. rewrite map_map.
  change (product [map PInt ss; map PInt ls])
    with (flat_map (fun s => map (cons s) (product [map PInt ls]))
                   (map (@PInt F) ss)).
  rewrite map_flat_map, flat_map_map. apply flat_map_ext. intros s.
  rewrite map_map.
  change (product [map PInt ls])
    with (flat_map (fun l => map (cons l) [[]]) (map (@PInt F) ls)).
  rewrite flat_map_map. cbn [map].
  induction ls as [|l ls IH]; [reflexivity|].
  cbn [flat_map map app]. now rewrite IH.
Qed.

Lemma keep_ordered_app (ps qs kept kept' : list (list (string * pvalue F))) :
  keep_ordered ps = inr kept -> keep_ordered qs = inr kept' ->
  keep_ordered (ps ++ qs) = inr (kept ++ kept').
Proof.
  revert kept; induction ps as [|p ps IH]; intros kept Hp Hq; simpl in *.
  - inversion Hp; subst. exact Hq.
  - destruct (dict_get "sma_short_window" p); [|discriminate].
    destruct (dict_get "sma_long_window" p); [|discriminate].
    destruct (py_lt _ _) as [e|keep]; [discriminate|].
    destruct (keep_ordered ps) as [e|k0]; [discriminate|].
    rewrite (IH k0 eq_refl Hq). inversion Hp; subst.
    now destruct keep.
Qed.

Lemma keep_ordered_row (t a : pvalue F) (s : Z) (ls : list Z) :
  exists kept,
    keep_ordered (map (sma_combination t a s) ls) = inr kept /\
    length kept = length (filter (fun sl => fst sl <? snd sl)%Z (map (pair s) ls)).
Proof.
  induction ls as [|l ls (kept & Hk & Hlen)]; [exists []; now split|].
  cbn [map keep_ordered sma_combination dict_get String.eqb Ascii.eqb Bool.eqb
           py_lt filter fst snd].
  fold (sma_combination t a s l). rewrite Hk.
  destruct (s <? l)%Z; eexists; (split; [reflexivity|]); simpl; now rewrite Hlen.
Qed.

Lemma keep_ordered_block (t a : pvalue F) (ss ls : list Z) :
  exists kept,
    keep_ordered (flat_map (fun s => map (sma_combination t a s) ls) ss)
    = inr kept /\
    length kept
    = length (filter (fun sl => fst sl <? snd sl)%Z (list_prod ss ls)).
Proof.
  induction ss as [|s ss (kept & Hk & Hlen)]; [exists []; now split|].
  destruct (keep_ordered_row t a s ls) as (row & Hr & Hrl).
  exists (row ++ kept). cbn [flat_map list_prod]. split.
  - now apply keep_ordered_app.
  - now rewrite filter_app, !length_app, Hrl, Hlen.
Qed.

Lemma keep_ordered_blocks (t : pvalue F) (A : list (pvalue F)) (ss ls : list Z) :
  exists kept,
    keep_ordered
      (flat_map (fun a => flat_map (fun s => map (sma_combination t a s) ls) ss) A)
    = inr kept /\
    length kept
    = length A
      * length (filter (fun sl => fst sl <? snd sl)%Z (list_prod ss ls)).
Proof.
  induction A as [|a A (kept & Hk & Hlen)]; [exists []; now split|].
  destruct (keep_ordered_block t a ss ls) as (block & Hb & Hbl).
  exists (block ++ kept). cbn [flat_map]. split.
  - now apply keep_ordered_app.
  - rewrite length_app, Hbl, Hlen. simpl. lia.
Qed.

(** X18: on a grid that has the eight keys, with integer SMA windows, the
    function succeeds and returns one momentum combination for each pair of
    a shorting flag and a window, one mean-reversion combination for each
    choice of a flag, a window and the two thresholds, and one SMA
    combination for each flag and each pair of a short window below a long
    window. *)
Theorem number_of_combinations :
  forall (grid : list (string * list (pvalue F)))
         (T A M W E X : list (pvalue F)) (ss ls : list Z),
    dict_get "strategy_type" grid = Some T ->
    dict_get "allow_shorting" grid = Some A ->
    dict_get "momentum_window" grid = Some M ->
    dict_get "mean_reversion_window" grid = Some W ->
    dict_get "mean_reversion_entry_z" grid = Some E ->
    dict_get "mean_reversion_exit_z" grid = Some X ->
    dict_get "sma_short_window" grid = Some (map PInt ss) ->
    dict_get "sma_long_window" grid = Some (map PInt ls) ->
    exists combinations,
      generate_parameter_combinations grid = inr combinations /\
      length combinations
      = length A * length M
        + length A * (length W * (length E * length X))
        + length A
          * length (filter (fun sl => fst sl <? snd sl)%Z (list_prod ss ls)).
Proof.
  intros grid T A M W E X ss ls HT HA HM HW HE HX HS HL.
  unfold generate_parameter_combinations, sub_grid. cbn [fold_left].
  rewrite HT, HA, HM, HW, HE, HX, HS, HL.
  cbn [dict_set String.eqb Ascii.eqb Bool.eqb].
  unfold combinations_of at 1. cbn [map fst snd].
  rewrite sma_products.
  destruct (keep_ordered_blocks (PStr "sma_crossover") A ss ls) as (kept & -> & Hlen).
  eexists. split; [reflexivity|].
  unfold combinations_of. cbn [map fst snd app].
  rewrite !length_app, !length_map, !product_length, Hlen.
  cbn [fold_right length]. lia.
Qed.
End GridCount.

(** [grid_strategy_type_is_ignored] on the grid of the script with no
    strategy listed, binary64. *)
Lemma grid_strategy_type_is_ignored_witness :
  generate_parameter_combinations
    (dict_set "strategy_type" [] (@param_grid PrimFloat.float _))
  = generate_parameter_combinations param_grid.
Proof.
  apply (grid_strategy_type_is_ignored
           param_grid
           [PStr "momentum"; PStr "mean_reversion"; PStr "sma_crossover"] []).
  reflexivity.
Defined.

(** [number_of_combinations] on the grid of the script, binary64: 6
    momentum, 24 mean-reversion and 12 SMA combinations. *)
Lemma number_of_combinations_witness :
  exists combinations,
    generate_parameter_combinations (@param_grid PrimFloat.float _)
    = inr combinations /\
    length combinations = 2 * 3 + 2 * (2 * (3 * 2)) + 2 * 6.
Proof.
  apply (number_of_combinations
           param_grid
           [PStr "momentum"; PStr "mean_reversion"; PStr "sma_crossover"]
           [PBool false; PBool true]
           [PInt 20; PInt 40; PInt 60]
           [PInt 20; PInt 40]
           [PFloat (f_of_Z 1); PFloat (fdiv (f_of_Z 3) (f_of_Z 2)); PFloat (f_of_Z 2)]
           [PFloat (f_of_Z 0); PFloat (fdiv (f_of_Z 1) (f_of_Z 2))]
           [15; 20]%Z [40; 50; 60]%Z);
    reflexivity.
Defined.
(** ** The Sharpe ratio in exact arithmetic *)

Module IdealSharpe.
Import Ideal IdealFacts IdealMetrics.
Local Open Scope R_scope.

Lemma xdiv_finite (a b : R) : b <> 0 -> xdiv (Fin a) (Fin b) = Fin (a / b).
Proof. intros Hb. unfold xdiv. now rewrite Reqb_false by exact Hb. Qed.


















End IdealSharpe.
(** ** The compound annual growth rate in exact arithmetic *)

Module IdealGrowth.
Import Ideal IdealFacts IdealPower IdealSharpe.
Local Open Scope R_scope.









End IdealGrowth.
(** ** Total trades: half the number of position changes *)

Module IdealTrades.
Import Ideal IdealFacts IdealMetrics IdealSharpe.
Local Open Scope R_scope.

Lemma zip_with_firstn_len {A B C : Type} (f : A -> B -> C)
      (xs : list A) (ys : list B) (n : nat) :
  n = length xs -> zip_with f xs (firstn n ys) = zip_with f xs ys.
Proof.
  intros ->.
  revert ys; induction xs as [|x xs IH]; intros [|y ys]; simpl; try reflexivity.
  now rewrite IH.
Qed.

(** The absolute changes of a column of zeros and ones from [q] on, summed
    from [a]. *)
Lemma changes_sum (q a : R) (rest : list R) :
  Forall (fun r => r = 0 \/ r = 1) (q :: rest) ->
  fold_left xadd
            (dropna (series_abs
                       (fillna (Fin 0)
                               (zip_with xsub (map Fin rest) (map Fin (q :: rest))))))
            (Fin a)
  = Fin (a + INR (position_changes (map Fin (q :: rest)))).
Proof.
  revert q a. induction rest as [|r rest IH]; intros q a Hall.
  - simpl. f_equal. lra.
  - inversion Hall as [|? ? Hq Hrest]; subst.
    assert (Hr : r = 0 \/ r = 1) by now inversion Hrest.
    cbn [map zip_with fillna series_abs dropna filter position_changes].
    change (fisnan (xsub (Fin r) (Fin q))) with false. cbv iota.
    change (fisnan (fabs (xsub (Fin r) (Fin q)))) with false. cbn [negb fold_left].
    change (xadd (Fin a) (fabs (xsub (Fin r) (Fin q))))
      with (Fin (a + Rabs (r - q))).
    change (filter (fun x : xreal => negb (fisnan x))
                   (map fabs (map (fun x : xreal => if fisnan x then Fin 0 else x)
                                  (zip_with xsub (map Fin rest) (Fin r :: map Fin rest)))))
      with (dropna (series_abs
                      (fillna (Fin 0)
                              (zip_with xsub (map Fin rest) (map Fin (r :: rest)))))).
    rewrite (IH r _ Hrest). f_equal.
    change (position_changes (Fin r :: map Fin rest))
      with (position_changes (map Fin (r :: rest))).
    rewrite plus_INR.
    assert (Hstep : Rabs (r - q) = INR (if xeqb (Fin q) (Fin r) then 0 else 1)).
    { simpl xeqb.
      destruct Hq as [-> | ->], Hr as [-> | ->].
      - rewrite Reqb_true by reflexivity. simpl. rewrite Rminus_diag. apply Rabs_R0.
      - rewrite Reqb_false by lra. simpl. rewrite Rminus_0_r. apply Rabs_R1.
      - rewrite Reqb_false by lra. simpl.
        replace (0 - 1) with (- (1)) by lra. rewrite Rabs_Ropp. apply Rabs_R1.
      - rewrite Reqb_true by reflexivity. simpl. rewrite Rminus_diag. apply Rabs_R0. }
    rewrite Hstep, Rplus_assoc. reflexivity.
Qed.

Lemma zero_one_column (qs : list xreal) :
  Forall (fun x : xreal => x = fzero \/ x = fone \/ (false = true /\ x = fminus_one)) qs ->
  exists rs, qs = map Fin rs /\ Forall (fun r => r = 0 \/ r = 1) rs.
Proof.
  induction 1 as [|q qs Hq _ (rs & -> & Hrs)]; [exists []; now split|].
  destruct Hq as [-> | [-> | [Hf _]]]; [| |discriminate].
  - exists (0 :: rs). split; [reflexivity | constructor; auto].
  - exists (1 :: rs). split; [reflexivity | constructor; auto].
Qed.

Lemma total_trades_of_column (p : DataFrame xreal) (rs : list R) :
  col "position" p = map Fin rs ->
  Forall (fun r => r = 0 \/ r = 1) rs ->
  total_trades p = Fin (INR (position_changes (col "position" p)) / 2).
Proof.
  intros Hq Hall. unfold total_trades. rewrite Hq.
  change (fdiv ?a (f_of_Z 2)) with (xdiv a (Fin 2)).
  destruct rs as [|q rest].
  - simpl. now rewrite Reqb_false by lra.
  - cbn [map]. unfold diff. rewrite shift_one_cons.
    cbn [zip_with]. rewrite length_map.
    rewrite (zip_with_firstn_len _ _ _ _ (eq_sym (length_map Fin rest))).
    unfold series_sum.
    set (steps := zip_with fsub (map Fin rest) (Fin q :: map Fin rest)).
    change (fillna fzero (fsub (Fin q) fnan :: steps))
      with (Fin 0 :: fillna (Fin 0) steps).
    change (series_abs (Fin 0 :: fillna (Fin 0) steps))
      with (Fin (Rabs 0) :: series_abs (fillna (Fin 0) steps)).
    change (dropna (Fin (Rabs 0) :: series_abs (fillna (Fin 0) steps)))
      with (Fin (Rabs 0) :: dropna (series_abs (fillna (Fin 0) steps))).
    cbn [fold_left].
    change (fadd fzero (Fin (Rabs 0))) with (Fin (0 + Rabs 0)).
    change (@fadd xreal _) with xadd.
    unfold steps. change (@fsub xreal _) with xsub.
    change (Fin q :: map Fin rest) with (map Fin (q :: rest)).
    rewrite (changes_sum q _ rest Hall).
    rewrite xdiv_finite by lra. f_equal. rewrite Rabs_R0. lra.
Qed.

(** X21: in exact arithmetic and with shorting disabled, the entry
    ['Total Trades'] of a trajectory is half the number of dates on which
    the position differs from the position of the date before: an entry
    and its exit make one trade, and a position that is entered and still
    held on the last date counts for half a trade. *)
Theorem total_trades_counts_position_changes :
  forall (data signals : DataFrame xreal) (cap : xreal) (p : DataFrame xreal),
    run_backtest (Some data) (Some signals) cap false = Some p ->
    total_trades p = Fin (INR (position_changes (col "position" p)) / 2).
Proof.
  intros data signals cap p Hrun.
  assert (Hq : Forall (fun x : xreal => x = fzero \/ x = fone \/
                                        (false = true /\ x = fminus_one))
                      (col "position" p)).
  { destruct (run_backtest_inv _ _ _ _ _ Hrun) as (prices & signal & Hp & Hg & _ & ->).
    unfold col, get_col.
    rewrite (aligned_portfolio _ _ cap false _ _ _ Hp Hg). cbv zeta.
    cbn [assoc String.eqb Ascii.eqb Bool.eqb].
    unfold positions. apply Forall_forall. intros x Hx.
    apply in_map_iff in Hx. destruct Hx as (s & <- & _).
    apply position_from_signal_values. }
  destruct (zero_one_column _ Hq) as (rs & Hrs & Hall).
  now apply (total_trades_of_column p rs).
Qed.

(** [total_trades_counts_position_changes] on the example frames: the
    positions 0, 1, 0, 0 change twice, one trade. *)
Lemma total_trades_counts_position_changes_witness :
  total_trades
    (build_portfolio (loc [1%Z; 2%Z; 3%Z; 4%Z] example_data)
                     (loc [1%Z; 2%Z; 3%Z; 4%Z] example_signals)
                     (Fin 100000) false)
  = Fin (INR (position_changes
                (col "position"
                     (build_portfolio (loc [1%Z; 2%Z; 3%Z; 4%Z] example_data)
                                      (loc [1%Z; 2%Z; 3%Z; 4%Z] example_signals)
                                      (Fin 100000) false)))
         / 2).
Proof.
  apply (total_trades_counts_position_changes
           example_data example_signals (Fin 100000)).
  eapply run_backtest_some; try reflexivity. discriminate.
Defined.
End IdealTrades.
(** ** The maximum drawdown is 0 exactly for a curve that never falls *)

Module IdealDrawdown.
Import Ideal IdealFacts IdealMetrics IdealSharpe.
Local Open Scope R_scope.










End IdealDrawdown.
(** ** The metrics of a strategy that never trades *)

Module IdealFlat.
Import Ideal IdealFacts IdealMetrics IdealSharpe IdealGrowth IdealDrawdown.
Local Open Scope R_scope.














End IdealFlat.

(** ** An SMA entry is never repeated on the next date *)

Section CrossoverEntries.
Context {F : Type} `{FloatOrder F}.

Lemma one_is_not_zero : @fone F _ <> fzero.
Proof.
  intros Heq. pose proof zero_lt_one as Hlt. rewrite Heq in Hlt.
  now rewrite zero_lt_zero in Hlt.
Qed.

Lemma one_is_not_minus_one : @fone F _ <> fminus_one.
Proof.
  intros Heq. pose proof one_eq_minus_one as Hne. rewrite Heq in Hne.
  now rewrite minus_one_eq_minus_one in Hne.
Qed.

Lemma minus_one_is_not_zero : @fminus_one F _ <> fzero.
Proof.
  intros Heq. pose proof zero_eq_minus_one as Hne. rewrite <- Heq in Hne.
  now rewrite minus_one_eq_minus_one in Hne.
Qed.

Lemma sma_crossovers_nth (short_sma long_sma : list F) (n t : nat) :
  length short_sma = n -> length long_sma = n -> t < n ->
  nth t (sma_crossovers short_sma long_sma (repeat fzero n)) fnan
  = if crossed_below_at short_sma long_sma t then fminus_one
    else if crossed_above_at short_sma long_sma t then fone
    else fzero.
Proof.
  intros Hs Hl Ht. unfold sma_crossovers, crossed_below_at, crossed_above_at.
  rewrite nth_set_where;
    [| rewrite !zip_with_length, !shift_length; lia
     | rewrite set_where_length, !zip_with_length, !shift_length, repeat_length;
       lia].
  rewrite (nth_zip_with _ _ _ _ false false)
    by (rewrite !zip_with_length, !shift_length; lia).
  rewrite (nth_zip_with fltb _ _ _ fnan fnan) by (rewrite shift_length; lia).
  rewrite (nth_zip_with fgeb _ _ _ fnan fnan) by (rewrite shift_length; lia).
  destruct (fltb _ _ && fgeb _ _); [reflexivity|].
  rewrite nth_set_where;
    [| rewrite !zip_with_length, !shift_length; lia
     | rewrite repeat_length; lia].
  rewrite (nth_zip_with _ _ _ _ false false)
    by (rewrite !zip_with_length, !shift_length; lia).
  rewrite (nth_zip_with fgtb _ _ _ fnan fnan) by (rewrite shift_length; lia).
  rewrite (nth_zip_with fleb _ _ _ fnan fnan) by (rewrite shift_length; lia).
  destruct (fgtb _ _ && fleb _ _); [reflexivity|].
  now apply nth_repeat_lt.
Qed.

(** Two rows up at the row [S t] is one row up at the row [t]. *)
Lemma shift_two_next (xs : list F) (t : nat) :
  S t < length xs -> nth (S t) (shift 2 xs) fnan = nth t (shift 1 xs) fnan.
Proof.
  intros Ht. rewrite !nth_shift by lia.
  destruct t as [|[|t]]; reflexivity.
Qed.

Lemma crossings_alternate (short_sma long_sma : list F) (n t : nat) :
  length short_sma = n -> length long_sma = n -> S t < n ->
  (crossed_above_at short_sma long_sma t = true ->
   crossed_above_at short_sma long_sma (S t) = false) /\
  (crossed_below_at short_sma long_sma t = true ->
   crossed_below_at short_sma long_sma (S t) = false).
Proof.
  intros Hs Hl Ht. unfold crossed_above_at, crossed_below_at.
  rewrite !shift_two_next by lia.
  split; intros Hc; apply andb_prop in Hc; destruct Hc as [Hc _].
  - unfold fgtb in Hc. now rewrite (ltb_not_leb _ _ Hc), andb_false_r.
  - unfold fgeb. now rewrite (ltb_not_leb _ _ Hc), andb_false_r.
Qed.

(** A value other than 0 in the column returned is the value of the
    crossovers: the two corrections write 0 only. *)
Lemma sma_entry_is_a_crossover (short_sma long_sma : list F) (n t : nat) (v : F) :
  length short_sma = n -> length long_sma = n -> t < n ->
  v <> fzero ->
  nth t (sma_signal_column short_sma long_sma (repeat fzero n)) fnan = v ->
  nth t (sma_crossovers short_sma long_sma (repeat fzero n)) fnan = v.
Proof.
  intros Hs Hl Ht Hv. rewrite sma_signal_column_unfilled. cbv zeta.
  set (crossed := sma_crossovers short_sma long_sma (repeat fzero n)).
  assert (Hcl : length crossed = n).
  { unfold crossed, sma_crossovers.
    rewrite !set_where_length, !zip_with_length, !shift_length, repeat_length. lia. }
  set (corrected := set_where _ fzero crossed).
  assert (Hkl : length corrected = n).
  { unfold corrected.
    rewrite set_where_length, !zip_with_length, length_map, shift_length. lia. }
  rewrite nth_set_where
    by (rewrite ?zip_with_length, ?length_map, ?shift_length; lia).
  destruct (nth t _ false); [intros Heq; now subst v|].
  unfold corrected. rewrite nth_set_where
    by (rewrite ?zip_with_length, ?length_map, ?shift_length; lia).
  destruct (nth t _ false); [intros Heq; now subst v | trivial].
Qed.

(** X24: the SMA strategy never gives the same entry on two consecutive dates:
    a +1 is not followed by a +1 and a -1 is not followed by a -1, because
    an entry needs the short average on the other side of the long one on
    the date before the crossing. *)
Theorem sma_entries_are_not_repeated :
  forall (data : DataFrame F) (short long : nat) (s : SMACrossoverStrategy)
         (prices : list F),
    SMACrossoverStrategy_init data short long = Ok s ->
    get_col "Adj Close" data = Some prices ->
    length prices = length (index data) ->
    exists signals,
      SMACrossover_generate_signals s = Ok signals /\
      forall t, S t < length (index data) ->
        ~ (nth t (col "signal" signals) fnan = fone /\
           nth (S t) (col "signal" signals) fnan = fone) /\
        ~ (nth t (col "signal" signals) fnan = fminus_one /\
           nth (S t) (col "signal" signals) fnan = fminus_one).
Proof.
  intros data short long s prices Hinit Hp Hl.
  rewrite (SMACrossover_generate_signals_ok _ _ _ _ _ Hinit Hp).
  eexists. split; [reflexivity|].
  unfold col, get_col. cbn [columns assoc String.eqb Ascii.eqb Bool.eqb].
  set (n := length (index data)) in *.
  set (short_sma := rolling_mean short short prices).
  set (long_sma := rolling_mean long long prices).
  assert (Hsl : length short_sma = n) by (unfold short_sma; now rewrite rolling_mean_length).
  assert (Hll : length long_sma = n) by (unfold long_sma; now rewrite rolling_mean_length).
  intros t Ht.
  destruct (crossings_alternate short_sma long_sma n t Hsl Hll Ht) as [Habove Hbelow].
  pose proof one_is_not_zero as Hone.
  pose proof one_is_not_minus_one as Hdiff.
  pose proof minus_one_is_not_zero as Hminus.
  split; intros [Hfirst Hnext];
    apply (sma_entry_is_a_crossover _ _ n) in Hfirst;
    try assumption; try lia;
    apply (sma_entry_is_a_crossover _ _ n) in Hnext;
    try assumption; try lia;
    rewrite sma_crossovers_nth in Hfirst, Hnext by (assumption || lia).
  - destruct (crossed_below_at short_sma long_sma t); [congruence|].
    destruct (crossed_above_at short_sma long_sma t); [|congruence].
    rewrite (Habove eq_refl) in Hnext.
    destruct (crossed_below_at short_sma long_sma (S t)); congruence.
  - destruct (crossed_below_at short_sma long_sma t).
    + rewrite (Hbelow eq_refl) in Hnext.
      destruct (crossed_above_at short_sma long_sma (S t)); congruence.
    + destruct (crossed_above_at short_sma long_sma t); congruence.
Qed.
End CrossoverEntries.

(** [sma_entries_are_not_repeated] on the six swing prices with the
    windows 1 and 2, binary64. *)
Lemma sma_entries_are_not_repeated_witness :
  exists signals : DataFrame PrimFloat.float,
    SMACrossover_generate_signals
      (mkSMACrossover
         (mkStrategy swing_data
                     (mkFrame [1%Z; 2%Z; 3%Z; 4%Z; 5%Z; 6%Z]
                              [("signal", [fzero; fzero; fzero; fzero; fzero; fzero])]))
         1 2)
    = Ok signals /\
    forall t, S t < 6 ->
      ~ (nth t (col "signal" signals) fnan = fone /\
         nth (S t) (col "signal" signals) fnan = fone) /\
      ~ (nth t (col "signal" signals) fnan = fminus_one /\
         nth (S t) (col "signal" signals) fnan = fminus_one).
Proof.
  apply (sma_entries_are_not_repeated swing_data 1 2 _
                                      (col "Adj Close" swing_data));
    reflexivity.
Defined.

(** ** Long only on positive prices: the equity stays positive *)

Module IdealLongOnly.
Import Ideal IdealFacts IdealMetrics IdealSharpe IdealMomentum.
Local Open Scope R_scope.








End IdealLongOnly.
(** ** Only the common dates are read *)

Section Alignment.
Context {F : Type} `{FloatConsts F}.

Lemma lookup_map_self (f : Date -> F) (d : Date) (idx : list Date) :
  In d idx -> lookup d idx (map f idx) = Some (f d).
Proof.
  induction idx as [|i idx IH]; intros Hin; [contradiction|].
  cbn [map lookup]. destruct (Z.eqb_spec d i) as [->|Hne]; [reflexivity|].
  destruct Hin as [Hin|Hin]; [congruence | now apply IH].
Qed.

Lemma loc_loc (labels : list Date) (df : DataFrame F) :
  loc labels (loc labels df) = loc labels df.
Proof.
  unfold loc. cbn [index columns]. f_equal.
  rewrite map_map. apply map_ext. intros [name vs]. cbn [fst snd]. f_equal.
  apply map_ext_in. intros d Hd. unfold at_label at 1.
  now rewrite (lookup_map_self (fun l => at_label l (index df) vs) d labels Hd).
Qed.

Lemma df_empty_loc (labels : list Date) (df : DataFrame F) :
  df_empty (loc labels df)
  = match labels with [] => true | _ => match columns df with [] => true | _ => false end end.
Proof.
  unfold df_empty, loc. cbn [index columns].
  destruct labels; [reflexivity|]. now destruct (columns df).
Qed.

Lemma get_col_loc_none (name : string) (labels : list Date) (df : DataFrame F) :
  get_col name df = None -> get_col name (loc labels df) = None.
Proof. intros Hn. now rewrite get_col_loc, Hn. Qed.

Lemma common_dates_exist (a b : list Date) (c : Date) (rest : list Date) :
  index_intersection a b = c :: rest -> a <> [] /\ b <> [].
Proof.
  intros Hc.
  assert (Hin : In c (index_intersection a b)) by (rewrite Hc; now left).
  unfold index_intersection in Hin. apply filter_In in Hin.
  destruct Hin as [Ha Hex]. split.
  - intros ->. contradiction.
  - intros ->. discriminate.
Qed.

(** X26: the simulator reads the rows of the common dates only: the two
    frames cut down to the dates they share give the same result, a
    failure included. *)
Theorem run_backtest_reads_the_common_dates_only :
  forall (data signals : DataFrame F) (cap : F) (allow : bool),
    run_backtest (Some (loc (index_intersection (index data) (index signals)) data))
                 (Some (loc (index_intersection (index data) (index signals)) signals))
                 cap allow
    = run_backtest (Some data) (Some signals) cap allow.
Proof.
  intros data signals cap allow.
  set (common := index_intersection (index data) (index signals)).
  destruct (run_backtest (Some data) (Some signals) cap allow) as [p|] eqn:Hrun.
  - destruct (run_backtest_inv _ _ _ _ _ Hrun) as (prices & signal & Hp & Hg & Hne & ->).
    fold common in Hne |- *.
    assert (Hself : index_intersection (index (loc common data))
                                       (index (loc common signals)) = common)
      by apply index_intersection_self.
    rewrite (run_backtest_some (loc common data) (loc common signals) cap allow
               (aligned common data prices) (aligned common signals signal)
               common).
    + now rewrite !loc_loc.
    + rewrite df_empty_loc. destruct common; [congruence|].
      unfold get_col in Hp. now destruct (columns data).
    + rewrite df_empty_loc. destruct common; [congruence|].
      unfold get_col in Hg. now destruct (columns signals).
    + now rewrite get_col_loc, Hp.
    + now rewrite get_col_loc, Hg.
    + exact Hself.
    + exact Hne.
  - apply run_backtest_none_cause in Hrun.
    apply run_backtest_invalid. unfold precondition_violated; cbv zeta.
    rewrite !df_empty_loc. fold common in Hrun.
    destruct Hrun as [Hb|[Hb|[Hb|[Hb|Hb]]]].
    + left. destruct common as [|c rest] eqn:Hc; [reflexivity|].
      destruct (common_dates_exist _ _ _ _ Hc) as [Hd _].
      unfold df_empty in Hb.
      destruct (index data); [congruence | now destruct (columns data)].
    + right; left. destruct common as [|c rest] eqn:Hc; [reflexivity|].
      destruct (common_dates_exist _ _ _ _ Hc) as [_ Hd].
      unfold df_empty in Hb.
      destruct (index signals); [congruence | now destruct (columns signals)].
    + right; right; left. now apply get_col_loc_none.
    + right; right; right; left. now apply get_col_loc_none.
    + do 4 right. left. cbn [loc index]. rewrite Hb. reflexivity.
Qed.
End Alignment.
(** [run_backtest_reads_the_common_dates_only] on the example prices and
    on signals that have the dates 3 and 4 only, binary64. *)
Lemma run_backtest_reads_the_common_dates_only_witness :
  run_backtest
    (Some (loc (index_intersection (index (@example_data PrimFloat.float _))
                                   [3%Z; 4%Z])
               example_data))
    (Some (loc (index_intersection (index (@example_data PrimFloat.float _))
                                   [3%Z; 4%Z])
               (mkFrame [3%Z; 4%Z] [("signal", [fone; fzero])])))
    (B64.of_Z 100000) true
  = run_backtest (Some example_data)
                 (Some (mkFrame [3%Z; 4%Z] [("signal", [fone; fzero])]))
                 (B64.of_Z 100000) true.
Proof.
  apply (run_backtest_reads_the_common_dates_only
           example_data (mkFrame [3%Z; 4%Z] [("signal", [fone; fzero])])
           (B64.of_Z 100000) true).
Defined.

(** ** What the constructors require of the data *)

Section Constructors.
Context {F : Type} `{FloatOps F}.

(** X27: each constructor raises [ValueError] for data without a row or without
    a column before it looks at its windows, and otherwise succeeds exactly
    when the data has enough rows: [window + 1] for the momentum strategy,
    [window] for the mean-reversion strategy, and [long_window] for the SMA
    strategy, whose short window must also be below the long one. *)
Theorem constructors_check_the_data :
  forall (data : DataFrame F),
    (df_empty data = true ->
     (forall window,
         MomentumStrategy_init data window
         = Raise (ValueError "Input data is empty.")) /\
     (forall window entry_z exit_z,
         MeanReversionStrategy_init data window entry_z exit_z
         = Raise (ValueError "Input data is empty.")) /\
     (forall short long,
         SMACrossoverStrategy_init data short long
         = Raise (ValueError "Input data is empty."))) /\
    (df_empty data = false ->
     (forall window,
         (exists s, MomentumStrategy_init data window = Ok s)
         <-> window + 1 <= length (index data)) /\
     (forall window entry_z exit_z,
         (exists s, MeanReversionStrategy_init data window entry_z exit_z = Ok s)
         <-> window <= length (index data)) /\
     (forall short long,
         (exists s, SMACrossoverStrategy_init data short long = Ok s)
         <-> short < long /\ long <= length (index data))).
Proof.
  intros data. split; intros Hemp.
  - unfold MomentumStrategy_init, MeanReversionStrategy_init,
      SMACrossoverStrategy_init, Strategy_init. rewrite Hemp.
    repeat split.
  - unfold MomentumStrategy_init, MeanReversionStrategy_init,
      SMACrossoverStrategy_init, Strategy_init. rewrite Hemp.
    split; [|split].
    + intros window.
      destruct (Nat.ltb_spec (length (index data)) (window + 1)) as [Hlt|Hge].
      * split; [intros [s Hs]; discriminate | lia].
      * split; [lia | eauto].
    + intros window entry_z exit_z.
      destruct (Nat.ltb_spec (length (index data)) window) as [Hlt|Hge].
      * split; [intros [s Hs]; discriminate | lia].
      * split; [lia | eauto].
    + intros short long.
      destruct (Nat.leb_spec long short) as [Hle|Hlt].
      * split; [intros [s Hs]; discriminate | lia].
      * destruct (Nat.ltb_spec (length (index data)) long) as [Hshort|Hge].
        -- split; [intros [s Hs]; discriminate | lia].
        -- split; [lia | eauto].
Qed.
End Constructors.

(** [constructors_check_the_data] on the example prices, four rows: the
    momentum window 3 is accepted, binary64. *)
Lemma constructors_check_the_data_witness :
  (exists s, MomentumStrategy_init (@example_data PrimFloat.float _) 3 = Ok s)
  <-> 3 + 1 <= length (index (@example_data PrimFloat.float _)).
Proof.
  apply (proj1 (proj2 (constructors_check_the_data example_data) eq_refl) 3).
Defined.
